(** * Fundraise CRM: the chatbot command interpreter and the mailer

    A shallow embedding of [core/chatbot.py] (class [ChatbotService]) and
    [core/email_service.py] (class [EmailService]), together with the parts
    of [core/models.py] they touch and the views of [core/views.py] that
    do not go through a form, and the properties of the command
    interpreter, the mailer and the views proved over it.

    Conventions of the embedding:
    - Python [str] values are [string]s.  The character classes [\s] and
      [\w] and [str.lower] are those of Python on ASCII characters; on
      other characters Python's are Unicode-aware and these are not.  A
      statement that says which characters a class holds is made for
      texts of ASCII characters ([ascii_only]).  Outgoing messages keep
      the emoji of the source as UTF-8 bytes.
    - The Django ORM is a record of tables ([store]); each table is the
      list of its rows in the order the model's [Meta.ordering]
      ([-created_date]) lists them, newest first.
    - The mail transport, the file storage, the attachment loader and the
      Gemini model are the fields of an environment ([env]); an exception
      raised by one of them is a value of its result type. *)

From Stdlib Require Import String Ascii List Bool Arith ZArith Lia.
From Stdlib Require Import DecimalString.
Import ListNotations.

Local Open Scope string_scope.
Local Open Scope list_scope.
Local Open Scope nat_scope.

(** ** Python [str] primitives *)

Module Text.

(** [str.isspace], and the class [\s], on one ASCII character: TAB..CR,
    FS..US and the space.  Python's also holds white space outside ASCII
    (the no-break space, for one), which this one does not. *)
Definition is_space (c : ascii) : bool :=
  let n := nat_of_ascii c in
  ((9 <=? n) && (n <=? 13)) || ((28 <=? n) && (n <=? 32)).

Definition is_upper (c : ascii) : bool :=
  let n := nat_of_ascii c in (65 <=? n) && (n <=? 90).

Definition is_lower (c : ascii) : bool :=
  let n := nat_of_ascii c in (97 <=? n) && (n <=? 122).

Definition is_alpha (c : ascii) : bool := is_upper c || is_lower c.

Definition is_digit (c : ascii) : bool :=
  let n := nat_of_ascii c in (48 <=? n) && (n <=? 57).

(** The class [\w] on one ASCII character: letters, digits and the
    underscore.  Python's also holds the letters and digits outside
    ASCII, which this one does not. *)
Definition is_word (c : ascii) : bool :=
  is_alpha c || is_digit c || Ascii.eqb c "_".

Definition lower_char (c : ascii) : ascii :=
  if is_upper c then ascii_of_nat (nat_of_ascii c + 32) else c.

(** [s.lower()], for the letters of ASCII. *)
Fixpoint lower (s : string) : string :=
  match s with
  | EmptyString => EmptyString
  | String c s' => String (lower_char c) (lower s')
  end.

(** [s.lstrip()] *)
Fixpoint lstrip (s : string) : string :=
  match s with
  | EmptyString => EmptyString
  | String c s' => if is_space c then lstrip s' else s
  end.

(** [s.rstrip()] *)
Fixpoint rstrip (s : string) : string :=
  match s with
  | EmptyString => EmptyString
  | String c s' =>
      match rstrip s' with
      | EmptyString => if is_space c then EmptyString else String c EmptyString
      | r => String c r
      end
  end.

(** [s.strip()] *)
Definition strip (s : string) : string := rstrip (lstrip s).

(** Truth value of a [str]: non-empty. *)
Definition truthy (s : string) : bool :=
  match s with EmptyString => false | _ => true end.

(** [c in s] for a one-character [c]. *)
Fixpoint has_char (c : ascii) (s : string) : bool :=
  match s with
  | EmptyString => false
  | String x s' => Ascii.eqb x c || has_char c s'
  end.

(** [s.split(sep)[0]] for a one-character [sep]: the text before the
    first [sep], all of [s] when there is none. *)
Fixpoint split_head (sep : ascii) (s : string) : string :=
  match s with
  | EmptyString => EmptyString
  | String x s' => if Ascii.eqb x sep then EmptyString
                   else String x (split_head sep s')
  end.

(** [sep.join(xs)] *)
Fixpoint join (sep : string) (xs : list string) : string :=
  match xs with
  | [] => EmptyString
  | [x] => x
  | x :: rest => x ++ sep ++ join sep rest
  end.

(** [s.startswith(p)] *)
Fixpoint starts_with (p s : string) : bool :=
  match p, s with
  | EmptyString, _ => true
  | String a p', String b s' => Ascii.eqb a b && starts_with p' s'
  | String _ _, EmptyString => false
  end.

(** [p in s] *)
Fixpoint contains (p s : string) : bool :=
  starts_with p s ||
  match s with
  | EmptyString => false
  | String _ s' => contains p s'
  end.

(** The ORM lookup [field__icontains=k]. *)
Definition icontains (field k : string) : bool :=
  contains (lower k) (lower field).

(** The ORM lookup [field__iexact=k]. *)
Definition iexact (field k : string) : bool :=
  String.eqb (lower field) (lower k).

(** [str(n)] for a non-negative [int]. *)
Definition str_of_nat (n : nat) : string :=
  NilZero.string_of_uint (Nat.to_uint n).

(** [str(n)] for a non-negative [int] held in binary. *)
Definition str_of_N (n : N) : string :=
  NilZero.string_of_uint (N.to_uint n).

(** The first [n] characters of [s]. *)
Fixpoint take (n : nat) (s : string) : string :=
  match n, s with
  | S n', String c s' => String c (take n' s')
  | _, _ => EmptyString
  end.

(** [s.split(sep)] for a one-character [sep]. *)
Fixpoint split (sep : ascii) (s : string) : list string :=
  match s with
  | EmptyString => [EmptyString]
  | String x s' =>
      if Ascii.eqb x sep then EmptyString :: split sep s'
      else match split sep s' with
           | head :: tail => String x head :: tail
           | [] => [String x EmptyString]
           end
  end.

End Text.

(** ** The fragment of Python's [re] the two command patterns and the
       keyword pattern are written in *)

Module Re.
Import Text.

Inductive re : Type :=
| Eps                                   (* the empty pattern *)
| Chr (p : ascii -> bool)               (* one character of a class *)
| Cat (r1 r2 : re)                      (* r1 r2 *)
| Alt (r1 r2 : re)                      (* r1|r2, r1 tried first *)
| Opt (r : re)                          (* r?, greedy *)
| Rep (n : nat) (p : ascii -> bool)     (* [p]{n,}, greedy *)
| Grp (i : nat) (r : re).               (* capturing group number i *)

(** The groups captured so far, latest first. *)
Definition caps := list (nat * string).

Fixpoint group (i : nat) (c : caps) : option string :=
  match c with
  | [] => None
  | (j, s) :: c' => if Nat.eqb i j then Some s else group i c'
  end.

(** What [findall] and [or ''] see of a group that did not take part. *)
Definition group_or_empty (i : nat) (c : caps) : string :=
  match group i c with Some s => s | None => EmptyString end.

Section Matcher.
Context {A : Type}.

(** [p*]: as many characters as possible, giving back one at a time. *)
Fixpoint greedy (p : ascii -> bool) (k : string -> option A) (s : string)
  : option A :=
  match s with
  | String x s' =>
      if p x then
        match greedy p k s' with
        | Some a => Some a
        | None => k s
        end
      else k s
  | EmptyString => k s
  end.

(** [p{n,}] *)
Fixpoint at_least (n : nat) (p : ascii -> bool) (k : string -> option A)
  (s : string) : option A :=
  match n with
  | 0 => greedy p k s
  | S n' =>
      match s with
      | String x s' => if p x then at_least n' p k s' else None
      | EmptyString => None
      end
  end.

(** Backtracking match of [r] at the start of [s]; [k] is what remains
    to be matched, applied to the rest of the text and the groups. *)
Fixpoint run (r : re) (k : string -> caps -> option A) (s : string)
  (c : caps) : option A :=
  match r with
  | Eps => k s c
  | Chr p =>
      match s with
      | String x s' => if p x then k s' c else None
      | EmptyString => None
      end
  | Cat r1 r2 => run r1 (run r2 k) s c
  | Alt r1 r2 =>
      match run r1 k s c with
      | Some a => Some a
      | None => run r2 k s c
      end
  | Opt r1 =>
      match run r1 k s c with
      | Some a => Some a
      | None => k s c
      end
  | Rep n p => at_least n p (fun s' => k s' c) s
  | Grp i r1 =>
      run r1 (fun s' c' =>
                k s' ((i, take (String.length s - String.length s') s) :: c'))
          s c
  end.
End Matcher.

(** A match: the groups and the number of characters matched. *)
Definition match_at (r : re) (s : string) : option (caps * nat) :=
  run r (fun s' c => Some (c, String.length s - String.length s')) s [].

(** [pattern.search(s)]: the leftmost match. *)
Fixpoint search (r : re) (s : string) : option caps :=
  match match_at r s with
  | Some (c, _) => Some c
  | None =>
      match s with
      | EmptyString => None
      | String _ s' => search r s'
      end
  end.

(** [re.findall] for a pattern with two groups: the non-overlapping
    matches from left to right, each as the pair of its groups.
    [skip] counts the characters of the last match still to pass. *)
Fixpoint findall_from (r : re) (s : string) (skip : nat)
  : list (string * string) :=
  match s with
  | EmptyString => []
  | String _ s' =>
      match skip with
      | S n => findall_from r s' n
      | 0 =>
          match match_at r s with
          | Some (c, len) =>
              (group_or_empty 1 c, group_or_empty 2 c)
                :: findall_from r s' (pred len)
          | None => findall_from r s' 0
          end
      end
  end.

Definition findall (r : re) (s : string) : list (string * string) :=
  findall_from r s 0.

(** A literal character under [re.IGNORECASE]. *)
Definition ichr (a : ascii) : re :=
  Chr (fun x => Ascii.eqb (lower_char x) (lower_char a)).

(** A literal word under [re.IGNORECASE]. *)
Fixpoint ilit (w : string) : re :=
  match w with
  | EmptyString => Eps
  | String a w' => Cat (ichr a) (ilit w')
  end.

Definition one_of (cs : string) (x : ascii) : bool := has_char x cs.

(** The concatenation of the pieces of a pattern, in order. *)
Fixpoint cat_all (rs : list re) : re :=
  match rs with
  | [] => Eps
  | [r] => r
  | r :: rs' => Cat r (cat_all rs')
  end.

End Re.

(** ** The records of [core/models.py]

    Only the columns the interpreter and the mailer read or write; the
    time stamps are left to the order of the rows in their table. *)

Module User.
Record t : Type := { id : nat; username : string }.
End User.

Module Investor.
Record t : Type := {
  id : nat;
  name : string;
  email : string;                (* unique *)
  labels : string;               (* blank=True *)
  address : string;
  details : string;
  amount : Z;                    (* DecimalField(decimal_places=2), in hundredths *)
  updated_by : string
}.
End Investor.

Module Artifact.
Record t : Type := {
  id : nat;
  artifact_type : string;
  artifact_labels : string;
  file : string;                 (* the stored file's name, empty when none *)
  name : string;
  description : string
}.
End Artifact.

Module EmailDraft.
Record t : Type := {
  id : nat;
  name : string;                 (* unique *)
  subject : string;
  body : string;
  artifacts : list nat           (* ManyToManyField(Artifact), by primary key *)
}.
End EmailDraft.

Module CommunicationLog.
Record t : Type := {
  id : nat;
  investor : nat;                (* ForeignKey(Investor) *)
  draft : option nat;            (* ForeignKey(EmailDraft, null=True) *)
  status : string;
  sent_by : option nat;          (* ForeignKey(User, null=True) *)
  notes : string
}.
End CommunicationLog.

(** ** The datastore and the ORM calls made on it *)

Module Orm.

Record store : Type := {
  investors : list Investor.t;
  artifacts : list Artifact.t;
  drafts : list EmailDraft.t;
  logs : list CommunicationLog.t;
  investor_seq : nat;            (* last primary key given to an Investor *)
  log_seq : nat                  (* last primary key given to a CommunicationLog *)
}.

Inductive exn : Type :=
| DoesNotExist
| MultipleObjectsReturned.

Inductive outcome (A : Type) : Type :=
| Return (a : A)
| Raise (e : exn).
Arguments Return {A} a.
Arguments Raise {A} e.

(** A computation over the datastore that returns or raises. *)
Definition M (A : Type) : Type := store -> store * outcome A.

Definition ret {A} (a : A) : M A := fun st => (st, Return a).

Definition bind {A B} (m : M A) (f : A -> M B) : M B :=
  fun st =>
    match m st with
    | (st', Return a) => f a st'
    | (st', Raise e) => (st', Raise e)
    end.

(** [try: m  except e: h] *)
Definition try_except {A} (m : M A) (e : exn) (h : M A) : M A :=
  fun st =>
    match m st with
    | (st', Raise e') =>
        match e, e' with
        | DoesNotExist, DoesNotExist => h st'
        | MultipleObjectsReturned, MultipleObjectsReturned => h st'
        | _, _ => (st', Raise e')
        end
    | r => r
    end.

Definition gets {A} (f : store -> A) : M A := fun st => (st, Return (f st)).

Definition modify (f : store -> store) : M unit := fun st => (f st, Return tt).

Module Notations.
Notation "x <- m ;; k" := (bind m (fun x => k))
  (at level 61, m at next level, right associativity).
Notation "' pat <- m ;; k" := (bind m (fun x => match x with pat => k end))
  (at level 61, pat pattern, m at next level, right associativity).
Notation "m ;;; k" := (bind m (fun _ => k))
  (at level 61, right associativity).
End Notations.
Import Notations.

(** [Model.objects.get(...)] over the rows a filter leaves. *)
Definition get {R} (p : R -> bool) (rows : list R) : outcome R :=
  match filter p rows with
  | [] => Raise DoesNotExist
  | [r] => Return r
  | _ :: _ :: _ => Raise MultipleObjectsReturned
  end.

Definition lift {A} (o : outcome A) : M A := fun st => (st, o).

(** [EmailDraft.objects.get(name__iexact=draft_name)] *)
Definition EmailDraft_get_iexact (draft_name : string) : M EmailDraft.t :=
  rows <- gets drafts ;;
  lift (get (fun d => Text.iexact (EmailDraft.name d) draft_name) rows).

(** [EmailDraft.objects.values_list('name', flat=True)] *)
Definition EmailDraft_names : M (list string) :=
  rows <- gets drafts ;; ret (map EmailDraft.name rows).

(** [Investor.objects.create] as get_or_create calls it: the next primary key, the
    model's defaults for the columns not given. *)
Definition new_investor (pk : nat) (email name updated_by : string) : Investor.t :=
  {| Investor.id := pk; Investor.name := name;
     Investor.email := email; Investor.labels := "";
     Investor.address := ""; Investor.details := "";
     Investor.amount := 0%Z; Investor.updated_by := updated_by |}.

(** The INSERT of one Investor row. *)
Definition add_investor (inv : Investor.t) (st : store) : store :=
  {| investors := inv :: investors st;
     artifacts := artifacts st;
     drafts := drafts st;
     logs := logs st;
     investor_seq := S (investor_seq st);
     log_seq := log_seq st |}.

Definition Investor_create (email name updated_by : string) : M Investor.t :=
  n <- gets investor_seq ;;
  let inv := new_investor (S n) email name updated_by in
  modify (add_investor inv) ;;;
  ret inv.

(** [Investor.objects.get_or_create(email=email, defaults={...})] *)
Definition Investor_get_or_create (email name updated_by : string)
  : M (Investor.t * bool) :=
  try_except
    (rows <- gets investors ;;
     inv <- lift (get (fun i => String.eqb (Investor.email i) email) rows) ;;
     ret (inv, false))
    DoesNotExist
    (inv <- Investor_create email name updated_by ;; ret (inv, true)).

(** [CommunicationLog.objects.create(investor=, draft=, status=, sent_by=, notes=)] *)
Definition new_log (pk : nat) (investor : Investor.t) (draft : EmailDraft.t)
  (status : string) (sent_by : option User.t) (notes : string)
  : CommunicationLog.t :=
  {| CommunicationLog.id := pk;
     CommunicationLog.investor := Investor.id investor;
     CommunicationLog.draft := Some (EmailDraft.id draft);
     CommunicationLog.status := status;
     CommunicationLog.sent_by := option_map User.id sent_by;
     CommunicationLog.notes := notes |}.

(** The INSERT of one CommunicationLog row. *)
Definition add_log (row : CommunicationLog.t) (st : store) : store :=
  {| investors := investors st;
     artifacts := artifacts st;
     drafts := drafts st;
     logs := row :: logs st;
     investor_seq := investor_seq st;
     log_seq := S (log_seq st) |}.

Definition CommunicationLog_create (investor : Investor.t) (draft : EmailDraft.t)
  (status : string) (sent_by : option User.t) (notes : string) : M unit :=
  n <- gets log_seq ;;
  modify (add_log (new_log (S n) investor draft status sent_by notes)).

(** [draft.artifacts.all()] *)
Definition artifacts_of (draft : EmailDraft.t) (rows : list Artifact.t)
  : list Artifact.t :=
  filter (fun a => existsb (Nat.eqb (Artifact.id a)) (EmailDraft.artifacts draft))
         rows.

Definition draft_artifacts_all (draft : EmailDraft.t) : M (list Artifact.t) :=
  rows <- gets artifacts ;; ret (artifacts_of draft rows).

(** [Investor.objects.filter(name__icontains=k) | ...filter(email__icontains=k)
     | ...filter(labels__icontains=k)] *)
Definition investor_matches (keyword : string) (i : Investor.t) : bool :=
  Text.icontains (Investor.name i) keyword
  || Text.icontains (Investor.email i) keyword
  || Text.icontains (Investor.labels i) keyword.

Definition Investor_search (keyword : string) : M (list Investor.t) :=
  rows <- gets investors ;; ret (filter (investor_matches keyword) rows).

(** [Artifact.objects.filter(name__icontains=k) | ...filter(artifact_labels__icontains=k)
     | ...filter(description__icontains=k)] *)
Definition artifact_matches (keyword : string) (a : Artifact.t) : bool :=
  Text.icontains (Artifact.name a) keyword
  || Text.icontains (Artifact.artifact_labels a) keyword
  || Text.icontains (Artifact.description a) keyword.

Definition Artifact_search (keyword : string) : M (list Artifact.t) :=
  rows <- gets artifacts ;; ret (filter (artifact_matches keyword) rows).

(** [for x in xs: acc.extend(f(x))] *)
Fixpoint extend_each {K R} (f : K -> M (list R)) (xs : list K) (acc : list R)
  : M (list R) :=
  match xs with
  | [] => ret acc
  | x :: xs' => rows <- f x ;; extend_each f xs' (acc ++ rows)
  end.

End Orm.

(** ** The collaborators outside the repository *)

Module World.

(** [django.core.mail.EmailMessage], as far as the mailer fills it. *)
Record EmailMessage : Type := {
  subject : string;
  body : string;
  from_email : string;
  to : list string;
  content_subtype : string;
  attachments : list string      (* the paths attached so far *)
}.

(** What [email.send(fail_silently=False)] does, and what the [try] block
    around it does: it returns, or raises an exception [e] of which
    [detail] is [str(e)]. *)
Inductive sent : Type :=
| Sent
| SendError (detail : string).

(** [artifact.file.path]: the path of the file in the storage, or the
    exception [e] the storage raises, of which [detail] is [str(e)]. *)
Inductive located : Type :=
| Path (path : string)
| PathError (detail : string).

(** [gemini_model.generate_content(prompt).text]: the completion, or the
    exception raised on the way. *)
Inductive completion : Type :=
| Text (text : string)
| BackendError (detail : string).

Record env : Type := {
  DEFAULT_FROM_EMAIL : string;                 (* settings.DEFAULT_FROM_EMAIL *)
  GEMINI_AVAILABLE : bool;                     (* google.generativeai imports *)
  GEMINI_API_KEY : option string;              (* settings.GEMINI_API_KEY, if set *)
  GenerativeModel : string -> option (string -> completion);
                                               (* genai.configure and
                                                  genai.GenerativeModel('gemini-pro');
                                                  None when they raise *)
  file_path : string -> located;               (* artifact.file.path *)
  can_attach : string -> bool;                 (* email.attach_file(path) returns
                                                  rather than raises *)
  send : EmailMessage -> sent                  (* the mail transport *)
}.

End World.

(** ** [core/email_service.py] *)

Module EmailService.
Import Orm Orm.Notations World.

Definition set_html (m : EmailMessage) : EmailMessage :=
  {| subject := subject m; body := body m; from_email := from_email m;
     to := to m; content_subtype := "html"; attachments := attachments m |}.

(** [email.attach_file(path)] inside its [try], for a [path] in hand: the
    path is attached, or the exception [attach_file] raises is printed as
    a warning and the message left as it was. *)
Definition attach_file (e : env) (m : EmailMessage) (path : string) : EmailMessage :=
  if can_attach e path then
    {| subject := subject m; body := body m; from_email := from_email m;
       to := to m; content_subtype := content_subtype m;
       attachments := attachments m ++ [path] |}
  else m.

(** [EmailMessage(subject=, body=, from_email=settings.DEFAULT_FROM_EMAIL, to=[...])]
    followed by the test of lines 34-35 and 93-94. *)
Definition new_message (e : env) (subject body to_email : string) : EmailMessage :=
  let email := {| subject := subject; body := body;
                  from_email := DEFAULT_FROM_EMAIL e; to := [to_email];
                  content_subtype := "plain"; attachments := [] |} in
  if Text.has_char "<" body && Text.has_char ">" body
  then set_html email else email.

(** Lines 38-43, the loop over the artifacts of the draft.  An artifact
    without file is passed over.  [artifact.file.path] is evaluated as the
    argument of [attach_file], inside the inner [try]; when it is
    [attach_file] that raises, the warning is printed and the loop goes
    on.  When [artifact.file.path] itself raises, the [print] of line 43
    evaluates it once more, and that exception leaves the inner handler
    and the loop: [inr] holds its text. *)
Fixpoint attach_artifacts (e : env) (arts : list Artifact.t) (email : EmailMessage)
  : EmailMessage + string :=
  match arts with
  | [] => inl email
  | artifact :: rest =>
      if Text.truthy (Artifact.file artifact) then
        match file_path e (Artifact.file artifact) with
        | Path path => attach_artifacts e rest (attach_file e email path)
        | PathError detail => inr detail
        end
      else attach_artifacts e rest email
  end.

(** Lines 26-43: the message [send_draft_email] composes, or the text of
    the exception that leaves the loop over the artifacts. *)
Definition draft_message (e : env) (investor : Investor.t) (draft : EmailDraft.t)
  (arts : list Artifact.t) : EmailMessage + string :=
  attach_artifacts e arts
    (new_message e (EmailDraft.subject draft) (EmailDraft.body draft)
                 (Investor.email investor)).

(** Lines 25-46, the body of the outer [try] up to [email.send]: it runs
    through, or raises an exception on the way, from the loop over the
    artifacts or from the transport. *)
Definition try_send (e : env) (investor : Investor.t) (draft : EmailDraft.t)
  (arts : list Artifact.t) : sent :=
  match draft_message e investor draft arts with
  | inl email => send e email
  | inr detail => SendError detail
  end.

Definition send_draft_email (e : env) (investor : Investor.t) (draft : EmailDraft.t)
  (user : option User.t) : M (bool * string) :=
  arts <- draft_artifacts_all draft ;;
  match try_send e investor draft arts with
  | Sent =>
      CommunicationLog_create investor draft "success" user
                              "Email sent via chatbot" ;;;
      ret (true, "Email sent successfully")
  | SendError err =>
      CommunicationLog_create investor draft "failed" user
                              ("Failed to send: " ++ err) ;;;
      ret (false, err)
  end.

(** The message [send_custom_email] hands to the transport: lines 86-101. *)
Definition custom_message (e : env) (to_email subject body : string)
  (attachments : option (list string)) : EmailMessage :=
  let email := new_message e subject body to_email in
  match attachments with
  | Some ((_ :: _) as paths) => fold_left (attach_file e) paths email
  | _ => email
  end.

Definition send_custom_email (e : env) (to_email subject body : string)
  (attachments : option (list string)) (user : option User.t) : bool * string :=
  match send e (custom_message e to_email subject body attachments) with
  | Sent => (true, "Email sent successfully")
  | SendError err => (false, err)
  end.

End EmailService.

(** ** [core/chatbot.py] *)

Module ChatbotService.
Import Orm Orm.Notations World Re.

(** The dictionaries the handlers return: ['type'], ['message'] and, on
    two of the five kinds, ['data']. *)
Inductive payload : Type :=
| SendData (investor : Investor.t) (draft : EmailDraft.t)
| SearchData (investors : list Investor.t) (artifacts : list Artifact.t)
             (keywords : list string).

Record response : Type := {
  type : string;
  message : string;
  data : option payload
}.

Definition nl : string := String (ascii_of_nat 10) EmptyString.
Definition dq : string := String (ascii_of_nat 34) EmptyString.

Definition quote_chr (x : ascii) : bool :=
  Ascii.eqb x (ascii_of_nat 34) || Ascii.eqb x "'".

Definition SEND_EMAIL_PATTERN : re :=
  cat_all
    [ ilit "send"; Rep 1 Text.is_space; ilit "email"; Rep 1 Text.is_space;
      ilit "to"; Rep 1 Text.is_space;
      Grp 1 (cat_all
               [ Rep 1 (fun x => Text.is_alpha x || Text.is_digit x
                                 || one_of "._%+-" x);
                 Chr (Ascii.eqb "@");
                 Rep 1 (fun x => Text.is_alpha x || Text.is_digit x
                                 || one_of ".-" x);
                 Chr (Ascii.eqb ".");
                 Rep 2 Text.is_alpha ]);
      Rep 1 Text.is_space;
      Opt (Cat (ilit "the") (Rep 1 Text.is_space));
      ilit "draft"; Rep 1 Text.is_space;
      Opt (Cat (ilit "of") (Rep 1 Text.is_space));
      Opt (Chr quote_chr);
      Grp 2 (Rep 1 Text.is_word);
      Opt (Chr quote_chr) ].

Definition SEARCH_PATTERN : re :=
  cat_all
    [ ilit "show"; Rep 1 Text.is_space;
      Opt (Cat (ilit "me") (Rep 1 Text.is_space));
      ilit "data"; Rep 1 Text.is_space; ilit "for";
      Rep 0 Text.is_space; Opt (Chr (one_of "-:")); Rep 0 Text.is_space;
      Grp 1 (Rep 1 (fun x => negb (Ascii.eqb x (ascii_of_nat 10)))) ].

(** The pattern of line 120: a quoted run, or a run of word characters. *)
Definition KEYWORD_PATTERN : re :=
  Alt (cat_all [ Chr quote_chr;
                 Grp 1 (Rep 1 (fun x => negb (quote_chr x)));
                 Chr quote_chr ])
      (Grp 2 (Rep 1 Text.is_word)).

Record t : Type := {
  user : option User.t;
  gemini_model : option (string -> completion)
}.

Definition _init_gemini (e : env) : option (string -> completion) :=
  match GEMINI_API_KEY e with
  | Some key =>
      if GEMINI_AVAILABLE e && negb (String.eqb key "your-gemini-api-key-here")
      then GenerativeModel e key
      else None
  | None => None
  end.

(** [ChatbotService(user=user)] *)
Definition init (e : env) (user : option User.t) : t :=
  {| user := user; gemini_model := _init_gemini e |}.

Definition _handle_send_email (e : env) (self : t)
  (email_address draft_name : string) : M response :=
  (* Find the draft; the [except] branch returns at once. *)
  found <-
    try_except
      (draft <- EmailDraft_get_iexact draft_name ;; ret (inl draft))
      DoesNotExist
      (available_drafts <- EmailDraft_names ;;
       let drafts_list :=
         match available_drafts with
         | [] => "No drafts available"
         | _ :: _ => Text.join ", " available_drafts
         end in
       ret (inr {| type := "error";
                   message := "❌ Draft '" ++ draft_name
                              ++ "' not found. Available drafts: " ++ drafts_list;
                   data := None |})) ;;
  match found with
  | inr not_found => ret not_found
  | inl draft =>
      (* Get or create investor *)
      '(investor, created) <-
         Investor_get_or_create
           email_address
           (Text.split_head "@" email_address)
           (match user self with
            | Some u => User.username u
            | None => "system"
            end) ;;
      let investor_status :=
        if created : bool then "Created new investor"
        else "Found existing investor" in
      (* Send email *)
      '(success, msg) <-
         EmailService.send_draft_email e investor draft (user self) ;;
      if success : bool then
        ret {| type := "success";
               message := "✅ Email sent successfully!" ++ nl ++ nl
                          ++ "📧 To: " ++ email_address ++ nl
                          ++ "📋 Draft: " ++ draft_name ++ nl
                          ++ "👤 " ++ investor_status ++ ": "
                          ++ Investor.name investor;
               data := Some (SendData investor draft) |}
      else
        ret {| type := "error";
               message := "❌ Failed to send email: " ++ msg;
               data := None |}
  end.

(** ** The search handler *)

Definition STOP_WORDS : list string := ["and"; "or"; "for"; "the"].

(** Lines 120-122: the keywords of a query. *)
Definition extract_keywords (query_string : string) : list string :=
  let keywords := findall KEYWORD_PATTERN query_string in
  let keywords :=
    map (fun k => if Text.truthy (fst k) then fst k else snd k)
        (filter (fun k => Text.truthy (fst k) || Text.truthy (snd k)) keywords) in
  map Text.strip
      (filter (fun k => Text.truthy (Text.strip k)
                        && negb (existsb (String.eqb (Text.lower k)) STOP_WORDS))
              keywords).

(** A Python [dict] keyed by primary key: insertion order is kept, and
    setting a key that is present replaces its value where it stands. *)
Fixpoint dict_set {V} (k : nat) (v : V) (d : list (nat * V)) : list (nat * V) :=
  match d with
  | [] => [(k, v)]
  | (k', v') :: d' =>
      if Nat.eqb k k' then (k, v) :: d' else (k', v') :: dict_set k v d'
  end.

(** [list({x.id: x for x in xs}.values())] *)
Definition dedupe {V} (id : V -> nat) (xs : list V) : list V :=
  map snd (fold_left (fun d x => dict_set (id x) x d) xs []).

(** Digits in groups of three, as the [,] of a format spec sets them. *)
Fixpoint commas (digits : string) : string :=
  match digits with
  | EmptyString => EmptyString
  | String c rest =>
      String c (if (0 <? String.length rest) && (String.length rest mod 3 =? 0)
                then "," ++ commas rest else commas rest)
  end.

(** [f"{amount:,.2f}"] for an amount of two decimal places. *)
Definition format_amount (amount : Z) : string :=
  let n := Z.abs_N amount in
  (if (amount <? 0)%Z then "-" else "")
    ++ commas (Text.str_of_N (n / 100)) ++ "."
    ++ (if (n mod 100 <? 10)%N then "0" else "") ++ Text.str_of_N (n mod 100).

Definition investor_line (inv : Investor.t) : string :=
  "  • " ++ Investor.name inv ++ " (" ++ Investor.email inv ++ ") - ₹"
         ++ format_amount (Investor.amount inv).

Definition artifact_line (art : Artifact.t) : string :=
  "  • " ++ Artifact.name art ++ " (" ++ Artifact.artifact_type art ++ ")".

(** Lines 161-175: the summary of what was found. *)
Definition search_summary (keywords : list string) (investors : list Investor.t)
  (artifacts : list Artifact.t) : string :=
  let response_parts :=
    [("🔍 Search results for: " ++ Text.join ", " keywords ++ nl)%string]
      ++ match investors with
         | _ :: _ =>
             [(nl ++ "👥 **Investors ("
                  ++ Text.str_of_nat (List.length investors) ++ "):**")%string]
               ++ map investor_line (firstn 10 investors)
         | [] => [(nl ++ "👥 No investors found.")%string]
         end
      ++ match artifacts with
         | _ :: _ =>
             [(nl ++ "📎 **Artifacts ("
                  ++ Text.str_of_nat (List.length artifacts) ++ "):**")%string]
               ++ map artifact_line (firstn 10 artifacts)
         | [] => [(nl ++ "📎 No artifacts found.")%string]
         end in
  Text.join nl response_parts.

Definition _handle_search (query_string : string) : M response :=
  let keywords := extract_keywords query_string in
  match keywords with
  | [] => ret {| type := "error";
                 message := "❌ Please provide keywords to search for.";
                 data := None |}
  | _ :: _ =>
      (* Search investors *)
      investors <- extend_each Investor_search keywords [] ;;
      (* Remove duplicates *)
      let investors := dedupe Investor.id investors in
      (* Search artifacts *)
      artifacts <- extend_each Artifact_search keywords [] ;;
      (* Remove duplicates *)
      let artifacts := dedupe Artifact.id artifacts in
      (* Build response *)
      ret {| type := "search_results";
             message := search_summary keywords investors artifacts;
             data := Some (SearchData investors artifacts keywords) |}
  end.

(** ** The generic handler and its fallback *)

(** [help_text.format(investor_count=, artifact_count=, draft_count=)] *)
Definition help_text (investor_count artifact_count draft_count : string)
  : string :=
  Text.join nl
    [ "👋 I'm your fundraising assistant! Here's what I can do:";
      "";
      "📧 **Send Email:**";
      "   `Send email to investor@email.com the draft of pitchdeck`";
      "";
      "🔍 **Search Data:**";
      "   `Show me data for - 'keyword1', 'keyword2'`";
      "";
      "📊 **Quick Stats:**";
      ("   - Investors: " ++ investor_count)%string;
      ("   - Artifacts: " ++ artifact_count)%string;
      ("   - Email Drafts: " ++ draft_count)%string;
      "";
      "💡 Tip: Configure your Gemini API key for AI-powered responses!" ].

Definition _fallback_response (msg : string) : M response :=
  investor_count <- gets (fun st => List.length (investors st)) ;;
  artifact_count <- gets (fun st => List.length (artifacts st)) ;;
  draft_count <- gets (fun st => List.length (drafts st)) ;;
  ret {| type := "help";
         message := help_text (Text.str_of_nat investor_count)
                              (Text.str_of_nat artifact_count)
                              (Text.str_of_nat draft_count);
         data := None |}.

(** The prompt of lines 200-214. *)
Definition context_prompt (investor_count artifact_count draft_count
                           recent_emails : nat) (msg : string) : string :=
  Text.join nl
    [ "You are an AI assistant for a startup fundraising application. ";
      "Here's the current data context:";
      ("- Total Investors: " ++ Text.str_of_nat investor_count)%string;
      ("- Total Artifacts: " ++ Text.str_of_nat artifact_count ++ "  ")%string;
      ("- Email Drafts: " ++ Text.str_of_nat draft_count)%string;
      ("- Emails Sent: " ++ Text.str_of_nat recent_emails)%string;
      "";
      "Available commands the user can use:";
      ("1. " ++ dq ++ "Send email to <email> the draft of <draft_name>" ++ dq
             ++ " - Sends an email draft to an investor")%string;
      ("2. " ++ dq ++ "Show me data for - '<keyword1>', '<keyword2>'" ++ dq
             ++ " - Searches investors and artifacts")%string;
      "";
      ("User's question: " ++ msg)%string;
      "";
      "Provide a helpful, concise response. If they're asking about functionality, guide them on how to use the app.";
      "Keep responses brief and friendly." ].

Definition _handle_generic_query (self : t) (msg : string) : M response :=
  match gemini_model self with
  | None => _fallback_response msg
  | Some model =>
      investor_count <- gets (fun st => List.length (investors st)) ;;
      artifact_count <- gets (fun st => List.length (artifacts st)) ;;
      draft_count <- gets (fun st => List.length (drafts st)) ;;
      recent_emails <- gets (fun st => List.length (logs st)) ;;
      match model (context_prompt investor_count artifact_count draft_count
                                  recent_emails msg) with
      | Text text =>
          ret {| type := "ai_response"; message := "🤖 " ++ text; data := None |}
      | BackendError _ => _fallback_response msg
      end
  end.

Definition process_message (e : env) (self : t) (raw : string) : M response :=
  let msg := Text.strip raw in
  (* Check for send email command *)
  match search SEND_EMAIL_PATTERN msg with
  | Some email_match =>
      _handle_send_email e self (group_or_empty 1 email_match)
                         (group_or_empty 2 email_match)
  | None =>
      (* Check for search command *)
      match search SEARCH_PATTERN msg with
      | Some search_match => _handle_search (group_or_empty 1 search_match)
      | None =>
          (* Handle as generic query with Gemini *)
          _handle_generic_query self msg
      end
  end.

End ChatbotService.

(** ** The methods of [core/models.py] and the record the views add *)

Module ResponseFunding.
Record t : Type := {
  id : nat;
  communication : nat;           (* ForeignKey(CommunicationLog, CASCADE) *)
  investor : nat;                (* ForeignKey(Investor, CASCADE) *)
  response_status : string;
  amount_offered : Z;            (* DecimalField(decimal_places=2), in hundredths *)
  notes : string
}.
End ResponseFunding.

Module Models.

(** The body shared by [Investor.get_labels_list] and
    [Artifact.get_labels_list]. *)
Definition get_labels_list (labels : string) : list string :=
  if Text.truthy labels then map Text.strip (Text.split "," labels) else [].

Definition Investor_get_labels_list (self : Investor.t) : list string :=
  get_labels_list (Investor.labels self).

Definition Artifact_get_labels_list (self : Artifact.t) : list string :=
  get_labels_list (Artifact.artifact_labels self).

End Models.

(** ** [core/views.py]: the chatbot endpoint, the list pages, the delete
       pages and the e-mail figures of the dashboard

    A view runs on the datastore of the interpreter together with the
    ResponseFunding table.  The pages that go through a form
    ([*_create], [*_edit]) and the authentication pages rest on Django's
    form validation and are left out. *)

Module Views.
Import Orm World.

Record site : Type := {
  store_of : store;
  responses : list ResponseFunding.t
}.

Definition with_store (st : store) (s : site) : site :=
  {| store_of := st; responses := responses s |}.

(** What a view can raise. *)
Inductive error : Type :=
| OrmError (e : exn)
| Http404
| AttributeError
| TypeError
| Uncaught (exception : string).   (* any other exception, by its class *)

Inductive result (A : Type) : Type :=
| Ok (a : A)
| Fail (e : error).
Arguments Ok {A} a.
Arguments Fail {A} e.

(** [json.loads(request.body)], as far as [chatbot_api] looks at it: the
    call raises JSONDecodeError; or it raises another exception, named
    here by its class (UnicodeDecodeError when the bytes of the body are
    not text in UTF-8, RecursionError when the document is nested too
    deep, RequestDataTooBig or UnreadablePostError when [request.body]
    cannot be read); or it returns a value that is not an object, or an
    object with or without a member ['message'], whose value is a string
    or not. *)
Inductive json_value : Type :=
| JString (s : string)
| JOther.

Inductive json_body : Type :=
| Malformed
| Unreadable (exception : string)
| NotAnObject
| JObject (message : option json_value).

Record request : Type := {
  method : string;
  user : option User.t;           (* None for an anonymous visitor *)
  GET : string -> option string;  (* request.GET.get *)
  body : json_body
}.

(** The records the endpoint puts in place of model instances;
    [float(inv.amount)] is the amount itself, still in hundredths. *)
Record investor_json : Type := {
  investor_id : nat;
  investor_name : string;
  investor_email : string;
  investor_amount : Z
}.

Record artifact_json : Type := {
  artifact_id : nat;
  artifact_name : string;
  artifact_kind : string
}.

(** The ['data'] of the dictionary given to [JsonResponse]. *)
Inductive data_json : Type :=
| Objects (investor : Investor.t) (draft : EmailDraft.t)
| Lists (investors : list investor_json) (artifacts : list artifact_json)
        (keywords : list string).

Record body_json : Type := {
  json_type : string;
  json_message : string;
  json_data : option data_json
}.

Inductive context : Type :=
| InvestorList (investors : list Investor.t) (query : string)
| ArtifactList (artifacts : list Artifact.t) (query artifact_type : string)
| ConfirmInvestor (object : Investor.t)
| ConfirmArtifact (object : Artifact.t)
| ConfirmDraft (object : EmailDraft.t)
| ConfirmResponse (object : ResponseFunding.t).

Inductive reply : Type :=
| Redirect (to : string) (flash : option string)
| JsonResponse (status : nat) (content : body_json)
| Render (template : string) (ctx : context).

Definition view : Type := site -> site * result reply.

(** [@login_required] *)
Definition login_required (req : request) (v : User.t -> view) : view :=
  fun s =>
    match user req with
    | Some u => v u s
    | None => (s, Ok (Redirect "login" None))
    end.

Definition error_json (msg : string) : body_json :=
  {| json_type := "error"; json_message := msg; json_data := None |}.

(** Lines 169-179: the lists under ['investors'] and ['artifacts'] are
    flattened; any other payload is left as it is. *)
Definition clean (r : ChatbotService.response) : body_json :=
  {| json_type := ChatbotService.type r;
     json_message := ChatbotService.message r;
     json_data :=
       match ChatbotService.data r with
       | None => None
       | Some (ChatbotService.SendData investor draft) =>
           Some (Objects investor draft)
       | Some (ChatbotService.SearchData investors artifacts keywords) =>
           Some (Lists
                   (map (fun inv =>
                           {| investor_id := Investor.id inv;
                              investor_name := Investor.name inv;
                              investor_email := Investor.email inv;
                              investor_amount := Investor.amount inv |})
                        investors)
                   (map (fun art =>
                           {| artifact_id := Artifact.id art;
                              artifact_name := Artifact.name art;
                              artifact_kind := Artifact.artifact_type art |})
                        artifacts)
                   keywords)
       end |}.

(** [JsonResponse(response)]: the encoder raises TypeError on a model
    instance. *)
Definition to_json (status : nat) (content : body_json) : result reply :=
  match json_data content with
  | Some (Objects _ _) => Fail TypeError
  | _ => Ok (JsonResponse status content)
  end.

Definition chatbot_api (e : env) (req : request) : view :=
  login_required req (fun u s =>
    if String.eqb (method req) "POST" then
      match body req with
      | Malformed => (s, to_json 200 (error_json "Invalid request format."))
      | Unreadable exception => (s, Fail (Uncaught exception))
      | NotAnObject => (s, Fail AttributeError)
      | JObject (Some JOther) => (s, Fail AttributeError)
      | JObject found =>
          let message :=
            Text.strip match found with
                       | Some (JString text) => text
                       | _ => EmptyString
                       end in
          if Text.truthy message then
            let chatbot := ChatbotService.init e (Some u) in
            match ChatbotService.process_message e chatbot message (store_of s) with
            | (st, Return response) => (with_store st s, to_json 200 (clean response))
            | (st, Raise ex) => (with_store st s, Fail (OrmError ex))
            end
          else (s, to_json 200 (error_json "Please enter a message."))
      end
    else (s, to_json 405 (error_json "Method not allowed"))).

(** [request.GET.get(key, '')] *)
Definition GET_or_empty (req : request) (key : string) : string :=
  match GET req key with
  | Some v => v
  | None => EmptyString
  end.

Definition investor_list (req : request) : view :=
  login_required req (fun _ s =>
    let query := GET_or_empty req "q" in
    let investors := investors (store_of s) in
    let investors :=
      if Text.truthy query then filter (investor_matches query) investors
      else investors in
    (s, Ok (Render "core/investor_list.html" (InvestorList investors query)))).

Definition artifact_list (req : request) : view :=
  login_required req (fun _ s =>
    let query := GET_or_empty req "q" in
    let artifact_type := GET_or_empty req "type" in
    let artifacts := artifacts (store_of s) in
    let artifacts :=
      if Text.truthy query then filter (artifact_matches query) artifacts
      else artifacts in
    let artifacts :=
      if Text.truthy artifact_type
      then filter (fun a => String.eqb (Artifact.artifact_type a) artifact_type)
                  artifacts
      else artifacts in
    (s, Ok (Render "core/artifact_list.html"
                   (ArtifactList artifacts query artifact_type)))).

(** [get_object_or_404(Model, pk=pk)] *)
Definition get_object_or_404 {R : Type} (key : R -> nat) (pk : nat)
  (rows : list R) : result R :=
  match get (fun r => Nat.eqb (key r) pk) rows with
  | Return r => Ok r
  | Raise DoesNotExist => Fail Http404
  | Raise ex => Fail (OrmError ex)
  end.

(** [investor.delete()]: the log rows of the investor go with it
    (CASCADE), and with them and with the investor the responses that
    point at them (CASCADE). *)
Definition delete_investor (pk : nat) (s : site) : site :=
  let st := store_of s in
  let gone := filter (fun row => Nat.eqb (CommunicationLog.investor row) pk)
                     (logs st) in
  {| store_of :=
       {| investors := filter (fun i => negb (Nat.eqb (Investor.id i) pk))
                              (investors st);
          artifacts := artifacts st;
          drafts := drafts st;
          logs := filter (fun row => negb (Nat.eqb (CommunicationLog.investor row) pk))
                         (logs st);
          investor_seq := investor_seq st;
          log_seq := log_seq st |};
     responses :=
       filter (fun r =>
                 negb (Nat.eqb (ResponseFunding.investor r) pk)
                 && negb (existsb (fun row => Nat.eqb (CommunicationLog.id row)
                                                (ResponseFunding.communication r))
                                  gone))
              (responses s) |}.

(** [draft.delete()]: the log rows that used the draft stay, without it
    (SET_NULL). *)
Definition delete_draft (pk : nat) (s : site) : site :=
  let st := store_of s in
  {| store_of :=
       {| investors := investors st;
          artifacts := artifacts st;
          drafts := filter (fun d => negb (Nat.eqb (EmailDraft.id d) pk)) (drafts st);
          logs :=
            map (fun row =>
                   match CommunicationLog.draft row with
                   | Some d =>
                       if Nat.eqb d pk then
                         {| CommunicationLog.id := CommunicationLog.id row;
                            CommunicationLog.investor := CommunicationLog.investor row;
                            CommunicationLog.draft := None;
                            CommunicationLog.status := CommunicationLog.status row;
                            CommunicationLog.sent_by := CommunicationLog.sent_by row;
                            CommunicationLog.notes := CommunicationLog.notes row |}
                       else row
                   | None => row
                   end)
                (logs st);
          investor_seq := investor_seq st;
          log_seq := log_seq st |};
     responses := responses s |}.

(** [artifact.delete()]: the artifact leaves the drafts it was attached
    to. *)
Definition delete_artifact (pk : nat) (s : site) : site :=
  let st := store_of s in
  {| store_of :=
       {| investors := investors st;
          artifacts := filter (fun a => negb (Nat.eqb (Artifact.id a) pk))
                              (artifacts st);
          drafts :=
            map (fun d =>
                   {| EmailDraft.id := EmailDraft.id d;
                      EmailDraft.name := EmailDraft.name d;
                      EmailDraft.subject := EmailDraft.subject d;
                      EmailDraft.body := EmailDraft.body d;
                      EmailDraft.artifacts :=
                        filter (fun a => negb (Nat.eqb a pk)) (EmailDraft.artifacts d) |})
                (drafts st);
          logs := logs st;
          investor_seq := investor_seq st;
          log_seq := log_seq st |};
     responses := responses s |}.

Definition dq : string := String (ascii_of_nat 34) EmptyString.

Definition investor_delete (req : request) (pk : nat) : view :=
  login_required req (fun _ s =>
    match get_object_or_404 Investor.id pk (investors (store_of s)) with
    | Fail err => (s, Fail err)
    | Ok investor =>
        if String.eqb (method req) "POST" then
          let name := Investor.name investor in
          (delete_investor (Investor.id investor) s,
           Ok (Redirect "investor_list"
                 (Some ("Investor " ++ dq ++ name ++ dq
                        ++ " deleted successfully!")%string)))
        else (s, Ok (Render "core/confirm_delete.html" (ConfirmInvestor investor)))
    end).

Definition artifact_delete (req : request) (pk : nat) : view :=
  login_required req (fun _ s =>
    match get_object_or_404 Artifact.id pk (artifacts (store_of s)) with
    | Fail err => (s, Fail err)
    | Ok artifact =>
        if String.eqb (method req) "POST" then
          let name := Artifact.name artifact in
          (delete_artifact (Artifact.id artifact) s,
           Ok (Redirect "artifact_list"
                 (Some ("Artifact " ++ dq ++ name ++ dq
                        ++ " deleted successfully!")%string)))
        else (s, Ok (Render "core/confirm_delete.html" (ConfirmArtifact artifact)))
    end).

Definition draft_delete (req : request) (pk : nat) : view :=
  login_required req (fun _ s =>
    match get_object_or_404 EmailDraft.id pk (drafts (store_of s)) with
    | Fail err => (s, Fail err)
    | Ok draft =>
        if String.eqb (method req) "POST" then
          let name := EmailDraft.name draft in
          (delete_draft (EmailDraft.id draft) s,
           Ok (Redirect "draft_list"
                 (Some ("Draft " ++ dq ++ name ++ dq
                        ++ " deleted successfully!")%string)))
        else (s, Ok (Render "core/confirm_delete.html" (ConfirmDraft draft)))
    end).

(** Lines 72-100 of [dashboard]: the number of successful sends and their
    ages.  [sent_at] reads the time stamp of a row, in microseconds. *)
Record email_figures : Type := {
  total_emails_sent : nat;
  emails_7_days : nat;
  emails_15_days : nat;
  emails_30_days : nat;
  emails_older : nat
}.

(** [timedelta(days=n)] *)
Definition days (n : Z) : Z := (n * 86400000000)%Z.

Definition successful (row : CommunicationLog.t) : bool :=
  String.eqb (CommunicationLog.status row) "success".

Definition dashboard_emails (now : Z) (sent_at : CommunicationLog.t -> Z)
  (s : site) : email_figures :=
  let rows := logs (store_of s) in
  let count (p : CommunicationLog.t -> bool) := List.length (filter p rows) in
  {| total_emails_sent := count successful;
     emails_7_days :=
       count (fun row => (now - days 7 <=? sent_at row)%Z && successful row);
     emails_15_days :=
       count (fun row => (now - days 15 <=? sent_at row)%Z
                         && (sent_at row <? now - days 7)%Z && successful row);
     emails_30_days :=
       count (fun row => (now - days 30 <=? sent_at row)%Z
                         && (sent_at row <? now - days 15)%Z && successful row);
     emails_older :=
       count (fun row => (sent_at row <? now - days 30)%Z && successful row) |}.

End Views.

(** * The vocabulary of the statements *)

Local Open Scope string_scope.

(** ** A small concrete world, used to run the statements below *)

Module Demo.
Import Orm World.

Definition pitchdeck : EmailDraft.t :=
  {| EmailDraft.id := 1; EmailDraft.name := "pitchdeck";
     EmailDraft.subject := "Our deck";
     EmailDraft.body := "Hello <b>investor</b>, the deck is attached.";
     EmailDraft.artifacts := [1] |}.

Definition intro : EmailDraft.t :=
  {| EmailDraft.id := 2; EmailDraft.name := "intro";
     EmailDraft.subject := "Hello"; EmailDraft.body := "Plain hello.";
     EmailDraft.artifacts := [] |}.

Definition deck : Artifact.t :=
  {| Artifact.id := 1; Artifact.artifact_type := "presentation";
     Artifact.artifact_labels := "deck, series a";
     Artifact.file := "artifacts/deck.pdf"; Artifact.name := "Pitch deck";
     Artifact.description := "The tech deck" |}.

Definition logo : Artifact.t :=
  {| Artifact.id := 2; Artifact.artifact_type := "image";
     Artifact.artifact_labels := "brand"; Artifact.file := "artifacts/logo.png";
     Artifact.name := "Logo"; Artifact.description := "" |}.

Definition ravi : Investor.t :=
  {| Investor.id := 1; Investor.name := "Ravi"; Investor.email := "ravi@vc.in";
     Investor.labels := "VC, Tech"; Investor.address := "";
     Investor.details := ""; Investor.amount := 250000000%Z;
     Investor.updated_by := "admin" |}.

Definition tech_angel : Investor.t :=
  {| Investor.id := 2; Investor.name := "Tech Angel";
     Investor.email := "angel@tech.io"; Investor.labels := "tech";
     Investor.address := ""; Investor.details := ""; Investor.amount := 0%Z;
     Investor.updated_by := "admin" |}.

Definition db : store :=
  {| investors := [tech_angel; ravi]; artifacts := [logo; deck];
     drafts := [intro; pitchdeck]; logs := [];
     investor_seq := 2; log_seq := 0 |}.

Definition empty_db : store :=
  {| investors := []; artifacts := []; drafts := []; logs := [];
     investor_seq := 0; log_seq := 0 |}.

Definition alice : User.t := {| User.id := 7; User.username := "alice" |}.

(** A world whose transport delivers and which has no AI backend. *)
Definition delivering : env :=
  {| DEFAULT_FROM_EMAIL := "noreply@fundraise.app"; GEMINI_AVAILABLE := false;
     GEMINI_API_KEY := None; GenerativeModel := fun _ => None;
     file_path := fun f => Path ("/media/" ++ f); can_attach := fun _ => true;
     send := fun _ => Sent |}.

(** A world whose transport refuses every message, and whose AI backend
    is configured but answers every prompt with a quota error. *)
Definition refusing : env :=
  {| DEFAULT_FROM_EMAIL := "noreply@fundraise.app"; GEMINI_AVAILABLE := true;
     GEMINI_API_KEY := Some "k-123";
     GenerativeModel := fun _ => Some (fun _ => BackendError "quota exceeded");
     file_path := fun f => Path ("/media/" ++ f); can_attach := fun _ => false;
     send := fun _ => SendError "Connection refused" |}.

(** A world whose transport delivers, and whose file storage is a remote
    one that has no paths to give. *)
Definition remote : env :=
  {| DEFAULT_FROM_EMAIL := "noreply@fundraise.app"; GEMINI_AVAILABLE := false;
     GEMINI_API_KEY := None; GenerativeModel := fun _ => None;
     file_path := fun _ => PathError "This backend doesn't support absolute paths.";
     can_attach := fun _ => true;
     send := fun _ => Sent |}.

End Demo.

(** ** What the statements below speak of *)

Section Vocabulary.
Import Text Re Orm Orm.Notations World EmailService ChatbotService.

Section ByKey.
Context {V : Type} (id : V -> nat).

(** Keep, in order, the rows whose key was not met before; [seen] holds
    the keys met so far. *)
Fixpoint first_seen (seen : list nat) (xs : list V) : list V :=
  match xs with
  | [] => []
  | x :: rest =>
      if existsb (Nat.eqb (id x)) seen then first_seen seen rest
      else x :: first_seen (seen ++ [id x])%list rest
  end.

(** Every entry of the dictionary is filed under its own key. *)
Definition keyed (d : list (nat * V)) : Prop :=
  Forall (fun kv => fst kv = id (snd kv)) d.

Definition step (d : list (nat * V)) (x : V) : list (nat * V) :=
  dict_set (id x) x d.

End ByKey.

(** [s] has an occurrence of the character [c]. *)
Definition occurs (c : ascii) (s : string) : Prop :=
  exists pre post, s = pre ++ String c post.

(** The updater recorded for an investor the handler creates. *)
Definition acting_username (self : ChatbotService.t) : string :=
  match user self with
  | Some u => User.username u
  | None => "system"
  end.

Definition has_email (email : string) (i : Investor.t) : bool :=
  String.eqb (Investor.email i) email.

Definition named (draft_name : string) (d : EmailDraft.t) : bool :=
  Text.iexact (EmailDraft.name d) draft_name.

Definition has_status (status : string) (row : CommunicationLog.t) : bool :=
  String.eqb (CommunicationLog.status row) status.

(** The three dictionaries the handler can return. *)
Definition not_found_response (draft_name : string) (names : list string)
  : response :=
  {| type := "error";
     message := "❌ Draft '" ++ draft_name ++ "' not found. Available drafts: "
                ++ match names with
                   | [] => "No drafts available"
                   | _ :: _ => Text.join ", " names
                   end;
     data := None |}.

Definition sent_response (email_address draft_name : string) (created : bool)
  (investor : Investor.t) (draft : EmailDraft.t) : response :=
  {| type := "success";
     message := "✅ Email sent successfully!" ++ nl ++ nl
                ++ "📧 To: " ++ email_address ++ nl
                ++ "📋 Draft: " ++ draft_name ++ nl
                ++ "👤 " ++ (if created then "Created new investor"
                             else "Found existing investor") ++ ": "
                ++ Investor.name investor;
     data := Some (SendData investor draft) |}.

Definition failed_response (detail : string) : response :=
  {| type := "error";
     message := "❌ Failed to send email: " ++ detail;
     data := None |}.

(** The rows the loop of lines 132-140 collects, keyword after keyword. *)
Definition investor_hits (st : store) (keywords : list string) : list Investor.t :=
  flat_map (fun k => filter (investor_matches k) (investors st)) keywords.

(** The rows the loop of lines 147-155 collects. *)
Definition artifact_hits (st : store) (keywords : list string) : list Artifact.t :=
  flat_map (fun k => filter (artifact_matches k) (artifacts st)) keywords.

Definition no_keywords_response : response :=
  {| type := "error";
     message := "❌ Please provide keywords to search for.";
     data := None |}.

Definition found_response (st : store) (keywords : list string) : response :=
  let investors := dedupe Investor.id (investor_hits st keywords) in
  let artifacts := dedupe Artifact.id (artifact_hits st keywords) in
  {| type := "search_results";
     message := search_summary keywords investors artifacts;
     data := Some (SearchData investors artifacts keywords) |}.

(** Every character of [s] is in the class [p]. *)
Fixpoint all_chars (p : ascii -> bool) (s : string) : bool :=
  match s with
  | EmptyString => true
  | String x s' => p x && all_chars p s'
  end.

Definition not_quote (x : ascii) : bool := negb (quote_chr x).

(** Line 121: what is left of the tuples of [findall]. *)
Definition tokens (query_string : string) : list string :=
  map (fun k => if truthy (fst k) then fst k else snd k)
      (filter (fun k => truthy (fst k) || truthy (snd k))
              (findall KEYWORD_PATTERN query_string)).

(** The test of line 122. *)
Definition kept (k : string) : bool :=
  truthy (strip k) && negb (existsb (String.eqb (lower k)) STOP_WORDS).

(** A text of ASCII characters only.  On such a text the classes [\s]
    and [\w] and [str.lower] of Python are those of [Text]. *)
Definition is_ascii (c : ascii) : bool := Nat.ltb (nat_of_ascii c) 128.

Definition ascii_only (s : string) : bool := all_chars is_ascii s.

(** The longest run of characters of a class at the head of a text, and
    what follows it. *)
Fixpoint span (p : ascii -> bool) (s : string) : string * string :=
  match s with
  | String x s' =>
      if p x then let (run, rest) := span p s' in (String x run, rest)
      else (EmptyString, s)
  | EmptyString => (EmptyString, EmptyString)
  end.

(** The tokens of a query as the claim words them, read from left to
    right.  At a quote mark that a non-empty run of characters other
    than quote marks and a second quote mark follow, the token is that
    run, and reading goes on behind the second quote mark.  At a word
    character the token is the run of word characters that begins there.
    Any other character is passed over.  [fuel] bounds the number of
    tokens and of characters passed over. *)
Fixpoint spec_tokens_from (fuel : nat) (s : string) : list string :=
  match fuel, s with
  | S fuel', String x s' =>
      if quote_chr x then
        match span not_quote s' with
        | (String z run, String _ after) =>
            String z run :: spec_tokens_from fuel' after
        | _ => spec_tokens_from fuel' s'
        end
      else if is_word x then
        let (run, after) := span is_word s' in
        String x run :: spec_tokens_from fuel' after
      else spec_tokens_from fuel' s'
  | _, _ => []
  end.

Definition spec_tokens (query_string : string) : list string :=
  spec_tokens_from (String.length query_string) query_string.

(** One of [and], [or], [for], [the], in any case. *)
Definition is_stop_word (k : string) : bool :=
  existsb (String.eqb (lower k)) STOP_WORDS.

(** The keywords of a query as the claim words them: the tokens, each
    trimmed of the white space around it, without the empty ones and
    without the stop-words. *)
Definition spec_keywords (query_string : string) : list string :=
  filter (fun k => truthy k && negb (is_stop_word k))
         (map strip (spec_tokens query_string)).

(** No token of the query is a stop-word with white space beside it
    (which only a quoted run can be). *)
Definition no_padded_stop_word (query_string : string) : bool :=
  forallb (fun t => implb (is_stop_word (strip t)) (is_stop_word t))
          (spec_tokens query_string).

(** The dictionary [_fallback_response] returns on a datastore. *)
Definition help_response (st : store) : response :=
  {| type := "help";
     message := help_text (str_of_nat (List.length (investors st)))
                          (str_of_nat (List.length (artifacts st)))
                          (str_of_nat (List.length (drafts st)));
     data := None |}.

Definition KINDS : list string :=
  ["success"; "error"; "search_results"; "ai_response"; "help"].

(** A response is well formed: its kind is one of the five, its message
    is not empty, and it has the payload of its kind and no other. *)
Definition well_formed (r : response) : Prop :=
  In (type r) KINDS
  /\ message r <> ""
  /\ match data r with
     | Some (SendData _ _) => type r = "success"
     | Some (SearchData _ _ _) => type r = "search_results"
     | None => In (type r) ["error"; "ai_response"; "help"]
     end.

(** Two texts that differ in the case of their letters only. *)
Definition sim (s t : string) : Prop := lower s = lower t.

(** A class that does not tell a capital from its small letter. *)
Definition case_blind (p : ascii -> bool) : Prop :=
  forall x y, lower_char x = lower_char y -> p x = p y.

Fixpoint blind (r : re) : Prop :=
  match r with
  | Eps => True
  | Chr p => case_blind p
  | Cat r1 r2 => blind r1 /\ blind r2
  | Alt r1 r2 => blind r1 /\ blind r2
  | Opt r1 => blind r1
  | Rep _ p => case_blind p
  | Grp _ r1 => blind r1
  end.

Definition caps_sim (c c' : caps) : Prop :=
  Forall2 (fun a b => fst a = fst b /\ sim (snd a) (snd b)) c c'.

(** Both fail, or both succeed with related results. *)
Inductive orel {A B : Type} (R : A -> B -> Prop) : option A -> option B -> Prop :=
| orel_none : orel R None None
| orel_some (a : A) (b : B) : R a b -> orel R (Some a) (Some b).

Definition match_sim (m m' : caps * nat) : Prop :=
  caps_sim (fst m) (fst m') /\ snd m = snd m'.

(** What a message asks for. *)
Inductive intent : Type :=
| SendEmail (email_address draft_name : string)
| Search (rest : string)
| GenericQuery (msg : string).

(** The classification as the specification words it: an ordered list of
    patterns, each with what a match of it asks for; the first pattern
    that matches the trimmed text decides, and a text none matches is a
    generic query. *)
Definition RULES : list (re * (caps -> intent)) :=
  [ (SEND_EMAIL_PATTERN,
     fun m => SendEmail (group_or_empty 1 m) (group_or_empty 2 m));
    (SEARCH_PATTERN, fun m => Search (group_or_empty 1 m)) ].

Fixpoint first_match (rules : list (re * (caps -> intent))) (msg : string)
  : option intent :=
  match rules with
  | [] => None
  | (pattern, asks) :: rest =>
      match search pattern msg with
      | Some m => Some (asks m)
      | None => first_match rest msg
      end
  end.

Definition classify (raw : string) : intent :=
  let msg := strip raw in
  match first_match RULES msg with
  | Some i => i
  | None => GenericQuery msg
  end.

(** The one handler an intent is for. *)
Definition handle (e : env) (self : ChatbotService.t) (i : intent) : M response :=
  match i with
  | SendEmail email_address draft_name =>
      _handle_send_email e self email_address draft_name
  | Search rest => _handle_search rest
  | GenericQuery msg => _handle_generic_query self msg
  end.

(** The same intent, with arguments that differ in case only. *)
Definition same_intent (i j : intent) : Prop :=
  match i, j with
  | SendEmail a d, SendEmail a' d' => sim a a' /\ sim d d'
  | Search r, Search r' => sim r r'
  | GenericQuery m, GenericQuery m' => sim m m'
  | _, _ => False
  end.

(** The path of the file of an artifact, when it has a file and the
    storage gives its path. *)
Definition path_of (e : env) (a : Artifact.t) : option string :=
  if truthy (Artifact.file a) then
    match file_path e (Artifact.file a) with
    | Path path => Some path
    | PathError _ => None
    end
  else None.

(** The paths of the files the mailer manages to attach, in the order of
    their artifacts. *)
Definition attached_paths (e : env) (arts : list Artifact.t) : list string :=
  flat_map (fun a => match path_of e a with
                     | Some path => if can_attach e path then [path] else []
                     | None => []
                     end) arts.

(** The text of the exception of the first artifact that has a file of
    which the storage gives no path. *)
Definition first_unresolved (e : env) (arts : list Artifact.t) : option string :=
  match find (fun a => truthy (Artifact.file a)
                       && match file_path e (Artifact.file a) with
                          | Path _ => false
                          | PathError _ => true
                          end) arts with
  | Some a =>
      match file_path e (Artifact.file a) with
      | PathError detail => Some detail
      | Path _ => None
      end
  | None => None
  end.

(** What both operations of the mailer return for what the transport
    did. *)
Definition verdict (r : sent) : bool * string :=
  match r with
  | Sent => (true, "Email sent successfully")
  | SendError detail => (false, detail)
  end.

(** What the primary keys, the unique address of an investor and the
    foreign keys of a log row demand of a datastore. *)
Definition store_ok (st : store) : Prop :=
  NoDup (map Investor.id (investors st))
  /\ Forall (fun i => Investor.id i <= investor_seq st) (investors st)
  /\ NoDup (map Investor.email (investors st))
  /\ NoDup (map CommunicationLog.id (logs st))
  /\ Forall (fun row => CommunicationLog.id row <= log_seq st) (logs st)
  /\ Forall (fun row =>
               In (CommunicationLog.investor row) (map Investor.id (investors st))
               /\ forall d, CommunicationLog.draft row = Some d ->
                            In d (map EmailDraft.id (drafts st)))
            (logs st).

(** What one send-email command can do to the datastore: nothing, one
    log row for an investor on file, or one new investor and one log row
    for that investor. *)
Inductive send_effect (address : string) (st : store) : store -> Prop :=
| effect_none : send_effect address st st
| effect_log (inv : Investor.t) (draft : EmailDraft.t) (status : string)
    (u : option User.t) (notes : string) :
    In inv (investors st) -> In draft (drafts st) ->
    send_effect address st
      (add_log (new_log (S (log_seq st)) inv draft status u notes) st)
| effect_create (name updated_by : string) (draft : EmailDraft.t)
    (status : string) (u : option User.t) (notes : string) :
    filter (has_email address) (investors st) = [] -> In draft (drafts st) ->
    send_effect address st
      (add_log (new_log (S (log_seq st))
                        (new_investor (S (investor_seq st)) address name updated_by)
                        draft status u notes)
               (add_investor
                  (new_investor (S (investor_seq st)) address name updated_by) st)).

(** The text a pattern denotes, with the groups a match of it captures,
    latest first. *)
Fixpoint matches (r : re) (s : string) (c : caps) : Prop :=
  match r with
  | Eps => s = "" /\ c = []
  | Chr p => exists x, s = String x "" /\ p x = true /\ c = []
  | Cat r1 r2 =>
      exists s1 s2 c1 c2,
        s = s1 ++ s2 /\ c = (c2 ++ c1)%list /\ matches r1 s1 c1 /\ matches r2 s2 c2
  | Alt r1 r2 => matches r1 s c \/ matches r2 s c
  | Opt r1 => (s = "" /\ c = []) \/ matches r1 s c
  | Rep n p => all_chars p s = true /\ n <= String.length s /\ c = []
  | Grp i r1 => exists c1, matches r1 s c1 /\ c = (i, s) :: c1
  end.

(** The classes of the address in the send-email pattern. *)
Definition local_chr (x : ascii) : bool :=
  is_alpha x || is_digit x || one_of "._%+-" x.

Definition domain_chr (x : ascii) : bool :=
  is_alpha x || is_digit x || one_of ".-" x.

(** An address as the send-email pattern captures it. *)
Definition captured_address (a : string) : Prop :=
  exists local domain tld,
    a = local ++ "@" ++ domain ++ "." ++ tld
    /\ 1 <= String.length local /\ all_chars local_chr local = true
    /\ 1 <= String.length domain /\ all_chars domain_chr domain = true
    /\ 2 <= String.length tld /\ all_chars is_alpha tld = true
    /\ split_head "@" a = local.

(** A draft name as the send-email pattern captures it. *)
Definition captured_name (d : string) : Prop :=
  1 <= String.length d /\ all_chars is_word d = true.

(** The number of occurrences of a character. *)
Fixpoint count_char (c : ascii) (s : string) : nat :=
  match s with
  | EmptyString => 0
  | String x s' => (if Ascii.eqb x c then 1 else 0) + count_char c s'
  end.

(** A label as [get_labels_list] returns it: trimmed, without comma. *)
Definition label_ok (l : string) : Prop :=
  strip l = l /\ has_char "," l = false.

(** Requests and a site for running the statements on the views. *)
Definition demo_site : Views.site :=
  {| Views.store_of := Demo.db; Views.responses := [] |}.

Definition post_message (text : string) : Views.request :=
  {| Views.method := "POST"; Views.user := Some Demo.alice;
     Views.GET := fun _ => None;
     Views.body := Views.JObject (Some (Views.JString text)) |}.

Definition post_bytes (bytes : Views.json_body) : Views.request :=
  {| Views.method := "POST"; Views.user := Some Demo.alice;
     Views.GET := fun _ => None; Views.body := bytes |}.

Definition get_page (q : option string) : Views.request :=
  {| Views.method := "GET"; Views.user := Some Demo.alice;
     Views.GET := fun key => if String.eqb key "q" then q else None;
     Views.body := Views.Malformed |}.

Definition post_form : Views.request :=
  {| Views.method := "POST"; Views.user := Some Demo.alice;
     Views.GET := fun _ => None; Views.body := Views.Malformed |}.

(** What the foreign keys of the ResponseFunding table add to the demands
    on a datastore. *)
Definition site_ok (s : Views.site) : Prop :=
  store_ok (Views.store_of s)
  /\ Forall (fun r =>
               In (ResponseFunding.investor r)
                  (map Investor.id (investors (Views.store_of s)))
               /\ In (ResponseFunding.communication r)
                     (map CommunicationLog.id (logs (Views.store_of s))))
            (Views.responses s).

(** A site with e-mails in its log and responses to them. *)
Definition log_ravi : CommunicationLog.t :=
  {| CommunicationLog.id := 1; CommunicationLog.investor := 1;
     CommunicationLog.draft := Some 1; CommunicationLog.status := "success";
     CommunicationLog.sent_by := Some 7;
     CommunicationLog.notes := "Email sent via chatbot" |}.

Definition log_angel : CommunicationLog.t :=
  {| CommunicationLog.id := 2; CommunicationLog.investor := 2;
     CommunicationLog.draft := Some 2; CommunicationLog.status := "failed";
     CommunicationLog.sent_by := None;
     CommunicationLog.notes := "Failed to send: Connection refused" |}.

Definition reply_ravi : ResponseFunding.t :=
  {| ResponseFunding.id := 1; ResponseFunding.communication := 1;
     ResponseFunding.investor := 1; ResponseFunding.response_status := "pending";
     ResponseFunding.amount_offered := 0%Z; ResponseFunding.notes := "" |}.

Definition busy_site : Views.site :=
  {| Views.store_of :=
       {| investors := investors Demo.db; artifacts := artifacts Demo.db;
          drafts := drafts Demo.db; logs := [log_angel; log_ravi];
          investor_seq := 2; log_seq := 2 |};
     Views.responses := [reply_ravi] |}.

End Vocabulary.

(** * Properties *)

(** ** Facts about the [str] primitives *)

Section TextFacts.
Import Text.

Lemma append_nil_r (s : string) : s ++ "" = s.
Proof. induction s as [|c s IH]; simpl; [reflexivity | now rewrite IH]. Qed.

Lemma append_assoc (a b c : string) : (a ++ b) ++ c = a ++ (b ++ c).
Proof. induction a as [|x a IH]; simpl; [reflexivity | now rewrite IH]. Qed.

(** The text before the first separator is what [split_head] returns. *)
Lemma split_head_app (sep : ascii) (l r : string) :
  has_char sep l = false -> split_head sep (l ++ String sep r) = l.
Proof.
  induction l as [|x l IH]; simpl; intros H.
  - now rewrite Ascii.eqb_refl.
  - apply orb_false_iff in H as [Hx Hl].
    rewrite Hx. now rewrite IH.
Qed.

Lemma has_char_app (c : ascii) (a b : string) :
  has_char c (a ++ b) = has_char c a || has_char c b.
Proof.
  induction a as [|x a IH]; simpl; [reflexivity|].
  rewrite IH. now rewrite orb_assoc.
Qed.

(** [c in s] holds exactly when [s] has an occurrence of [c]. *)
Lemma has_char_spec (c : ascii) (s : string) :
  has_char c s = true <-> exists pre post, s = pre ++ String c post.
Proof.
  split.
  - induction s as [|x s IH]; simpl; [discriminate|].
    destruct (Ascii.eqb_spec x c) as [->|Hne]; simpl.
    + intros _. now exists "", s.
    + intros H. destruct (IH H) as (pre & post & ->).
      now exists (String x pre), post.
  - intros (pre & post & ->). rewrite has_char_app. simpl.
    rewrite Ascii.eqb_refl. now rewrite orb_true_r.
Qed.

Lemma starts_with_app (p s : string) : starts_with p (p ++ s) = true.
Proof.
  induction p as [|x p IH]; simpl; [reflexivity|].
  now rewrite Ascii.eqb_refl.
Qed.

Lemma contains_starts_with (p s : string) :
  starts_with p s = true -> contains p s = true.
Proof. intros H. destruct s; simpl; now rewrite H. Qed.

Lemma contains_app (p a b : string) : contains p (a ++ p ++ b) = true.
Proof.
  induction a as [|x a IH].
  - apply contains_starts_with. simpl. apply starts_with_app.
  - change (contains p (String x (a ++ p ++ b)) = true). simpl.
    rewrite IH. now rewrite orb_true_r.
Qed.

Lemma starts_with_spec (p s : string) :
  starts_with p s = true -> exists rest, s = p ++ rest.
Proof.
  revert s. induction p as [|x p IH]; intros s; simpl.
  - intros _. now exists s.
  - destruct s as [|y s]; [discriminate|].
    intros H. apply andb_true_iff in H as [Hxy Hp].
    apply Ascii.eqb_eq in Hxy as ->.
    destruct (IH _ Hp) as (rest & ->). now exists rest.
Qed.

Lemma contains_spec (p s : string) :
  contains p s = true -> exists pre post, s = pre ++ p ++ post.
Proof.
  induction s as [|x s IH].
  - simpl. rewrite orb_false_r. intros H.
    destruct (starts_with_spec _ _ H) as (rest & E). now exists "", rest.
  - simpl. intros H. apply orb_true_iff in H as [H|H].
    + destruct (starts_with_spec _ _ H) as (rest & E). now exists "", rest.
    + destruct (IH H) as (pre & post & ->). now exists (String x pre), post.
Qed.

End TextFacts.

(** ** Running the ORM computations *)

Ltac run_orm :=
  repeat (unfold Orm.bind, Orm.ret, Orm.gets, Orm.modify, Orm.lift,
                 Orm.try_except; simpl).

Section MailerFacts.
Import Orm World EmailService.

Lemma content_subtype_attach (e : env) (m : EmailMessage) (path : string) :
  content_subtype (attach_file e m path) = content_subtype m.
Proof. unfold attach_file. now destruct (can_attach e path). Qed.

Lemma content_subtype_attach_all (e : env) (paths : list string) (m : EmailMessage) :
  content_subtype (fold_left (attach_file e) paths m) = content_subtype m.
Proof.
  revert m. induction paths as [|p ps IH]; intros m; simpl; [reflexivity|].
  rewrite IH. apply content_subtype_attach.
Qed.

Lemma content_subtype_new_message (e : env) (subj body to_email : string) :
  content_subtype (new_message e subj body to_email)
  = if Text.has_char "<" body && Text.has_char ">" body then "html" else "plain".
Proof.
  unfold new_message.
  now destruct (Text.has_char "<" body && Text.has_char ">" body).
Qed.

(** The loop over the artifacts changes nothing but the attachments; it
    runs through when the storage gives every path it asks for, and then
    attaches the files that can be attached. *)
Lemma attach_artifacts_resolved (e : env) (arts : list Artifact.t) :
  first_unresolved e arts = None ->
  forall m, exists email,
    attach_artifacts e arts m = inl email
    /\ subject email = subject m /\ body email = body m
    /\ from_email email = from_email m /\ to email = to m
    /\ content_subtype email = content_subtype m
    /\ attachments email = (attachments m ++ attached_paths e arts)%list.
Proof.
  unfold first_unresolved, attached_paths.
  induction arts as [|a arts IH]; intros Hnone m; simpl.
  - exists m. rewrite app_nil_r. repeat split; reflexivity.
  - simpl in Hnone. unfold path_of.
    destruct (Text.truthy (Artifact.file a)); simpl in *; [|now apply IH].
    destruct (file_path e (Artifact.file a)) as [path|detail] eqn:Hp;
      simpl in *; [|rewrite Hp in Hnone; discriminate].
    destruct (IH Hnone (attach_file e m path))
      as (email & -> & Hs & Hb & Hf & Ht & Hc & Ha).
    exists email. split; [reflexivity|].
    unfold attach_file in *.
    destruct (can_attach e path); simpl in *;
      repeat (split; [assumption|]);
      [now rewrite Ha, <- app_assoc | exact Ha].
Qed.

(** It is left at the first artifact whose path the storage does not
    give. *)
Lemma attach_artifacts_unresolved (e : env) (arts : list Artifact.t)
  (detail : string) :
  first_unresolved e arts = Some detail ->
  forall m, attach_artifacts e arts m = inr detail.
Proof.
  unfold first_unresolved.
  induction arts as [|a arts IH]; intros Hsome m; simpl in *; [discriminate|].
  destruct (Text.truthy (Artifact.file a)); simpl in *; [|now apply IH].
  destruct (file_path e (Artifact.file a)) as [path|d] eqn:Hp; simpl in *.
  - now apply IH.
  - rewrite Hp in Hsome. congruence.
Qed.

Lemma attachments_attach_all (e : env) (paths : list string) (m : EmailMessage) :
  attachments (fold_left (attach_file e) paths m)
  = (attachments m ++ filter (can_attach e) paths)%list.
Proof.
  revert m. induction paths as [|p ps IH]; intros m; simpl.
  - now rewrite app_nil_r.
  - rewrite IH. unfold attach_file.
    destruct (can_attach e p); simpl; [now rewrite <- app_assoc | reflexivity].
Qed.

Lemma fields_attach_all (e : env) (paths : list string) (m : EmailMessage) :
  let email := fold_left (attach_file e) paths m in
  subject email = subject m /\ body email = body m
  /\ from_email email = from_email m /\ to email = to m.
Proof.
  revert m. induction paths as [|p ps IH]; intros m; simpl; [now repeat split|].
  destruct (IH (attach_file e m p)) as (Hs & Hb & Hf & Ht).
  rewrite Hs, Hb, Hf, Ht. unfold attach_file.
  destruct (can_attach e p); now repeat split.
Qed.

Lemma content_subtype_custom_message (e : env) (to_email subj body : string)
  (paths : option (list string)) :
  content_subtype (custom_message e to_email subj body paths)
  = content_subtype (new_message e subj body to_email).
Proof.
  unfold custom_message. destruct paths as [[|p ps]|]; try reflexivity.
  apply content_subtype_attach_all.
Qed.

Lemma fields_new_message (e : env) (subj text to_email : string) :
  let email := new_message e subj text to_email in
  subject email = subj /\ body email = text
  /\ from_email email = DEFAULT_FROM_EMAIL e /\ to email = [to_email]
  /\ attachments email = [].
Proof.
  unfold new_message.
  destruct (Text.has_char "<" text && Text.has_char ">" text);
    now repeat split.
Qed.

Lemma run_send_draft_email (e : env) (investor : Investor.t) (draft : EmailDraft.t)
  (u : option User.t) (st : store) :
  send_draft_email e investor draft u st
  = match try_send e investor draft (artifacts_of draft (artifacts st)) with
    | Sent =>
        (add_log (new_log (S (log_seq st)) investor draft "success" u
                          "Email sent via chatbot") st,
         Return (true, "Email sent successfully"))
    | SendError err =>
        (add_log (new_log (S (log_seq st)) investor draft "failed" u
                          ("Failed to send: " ++ err)) st,
         Return (false, err))
    end.
Proof.
  unfold send_draft_email, draft_artifacts_all, CommunicationLog_create. run_orm.
  now destruct (try_send e _ _ _).
Qed.

(** What [send_draft_email] returns is the verdict of its [try] block. *)
Lemma send_draft_email_verdict (e : env) (investor : Investor.t)
  (draft : EmailDraft.t) (u : option User.t) (st : store) :
  snd (send_draft_email e investor draft u st)
  = Return (verdict (try_send e investor draft (artifacts_of draft (artifacts st)))).
Proof.
  rewrite run_send_draft_email. now destruct (try_send e _ _ _).
Qed.

End MailerFacts.

(** ** The mailer *)

Section Mailer.
Import Orm World EmailService.

Lemma new_message_html (e : env) (subj body to_email : string) :
  content_subtype (new_message e subj body to_email) = "html"
  <-> occurs "<" body /\ occurs ">" body.
Proof.
  rewrite content_subtype_new_message. unfold occurs.
  rewrite <- !has_char_spec.
  destruct (Text.has_char "<" body), (Text.has_char ">" body); simpl;
    split; try tauto; try discriminate; intros [? ?]; discriminate.
Qed.

Lemma new_message_plain (e : env) (subj body to_email : string) :
  content_subtype (new_message e subj body to_email) = "plain"
  <-> ~ (occurs "<" body /\ occurs ">" body).
Proof.
  rewrite <- (new_message_html e subj body to_email).
  rewrite content_subtype_new_message.
  destruct (Text.has_char "<" body && Text.has_char ">" body); split; intros H.
  - discriminate H.
  - exfalso. now apply H.
  - discriminate.
  - reflexivity.
Qed.

Lemma bold_tag_occurs (body : string) :
  Text.contains "<b>" body = true -> occurs "<" body /\ occurs ">" body.
Proof.
  intros H. destruct (contains_spec _ _ H) as (pre & post & ->). split.
  - now exists pre, ("b>" ++ post).
  - exists (pre ++ "<b"), post. now rewrite append_assoc.
Qed.

(** C7.  Both operations of the mailer hand the transport a message
    whose content subtype is [html] exactly when its body has at least
    one ['<'] and at least one ['>'], and [plain] otherwise, and return
    what the transport did with that message.  The message has the
    subject and the body it was given, the sender of the settings and the
    one recipient.  In particular a body in which [<b>] occurs anywhere
    is sent as HTML.  [send_draft_email] gets as far as the transport
    when the storage gives the path of every file of the draft's
    artifacts; [send_custom_email] always does. *)
Theorem html_subtype_iff_angle_brackets
  (e : env) (investor : Investor.t) (draft : EmailDraft.t)
  (u : option User.t) (st : store)
  (to_email subj text : string) (paths : option (list string))
  (u' : option User.t) :
  (first_unresolved e (artifacts_of draft (artifacts st)) = None ->
   exists email,
     snd (send_draft_email e investor draft u st) = Return (verdict (send e email))
     /\ subject email = EmailDraft.subject draft
     /\ body email = EmailDraft.body draft
     /\ from_email email = DEFAULT_FROM_EMAIL e
     /\ to email = [Investor.email investor]
     /\ (content_subtype email = "html"
         <-> occurs "<" (EmailDraft.body draft) /\ occurs ">" (EmailDraft.body draft))
     /\ (content_subtype email = "plain"
         <-> ~ (occurs "<" (EmailDraft.body draft)
                /\ occurs ">" (EmailDraft.body draft)))
     /\ (Text.contains "<b>" (EmailDraft.body draft) = true ->
         content_subtype email = "html"))
  /\ (exists email,
        send_custom_email e to_email subj text paths u' = verdict (send e email)
        /\ subject email = subj
        /\ body email = text
        /\ from_email email = DEFAULT_FROM_EMAIL e
        /\ to email = [to_email]
        /\ (content_subtype email = "html" <-> occurs "<" text /\ occurs ">" text)
        /\ (content_subtype email = "plain"
            <-> ~ (occurs "<" text /\ occurs ">" text))
        /\ (Text.contains "<b>" text = true -> content_subtype email = "html")).
Proof.
  split.
  - intros Hpaths.
    destruct (attach_artifacts_resolved e _ Hpaths
                (new_message e (EmailDraft.subject draft) (EmailDraft.body draft)
                             (Investor.email investor)))
      as (email & Hrun & Hs & Hb & Hf & Ht & Hc & _).
    destruct (fields_new_message e (EmailDraft.subject draft)
                (EmailDraft.body draft) (Investor.email investor))
      as (Hs' & Hb' & Hf' & Ht' & _).
    exists email. rewrite send_draft_email_verdict.
    unfold try_send, draft_message. rewrite Hrun, Hs, Hb, Hf, Ht, Hc.
    split; [reflexivity|].
    repeat (split; [assumption|]).
    split; [apply new_message_html|].
    split; [apply new_message_plain|].
    intros H. apply new_message_html. now apply bold_tag_occurs.
  - exists (custom_message e to_email subj text paths).
    split; [unfold send_custom_email, verdict; now destruct (send e _)|].
    rewrite content_subtype_custom_message.
    destruct (fields_new_message e subj text to_email) as (Hs & Hb & Hf & Ht & _).
    assert (Hfields : subject (custom_message e to_email subj text paths) = subj
                      /\ body (custom_message e to_email subj text paths) = text
                      /\ from_email (custom_message e to_email subj text paths)
                         = DEFAULT_FROM_EMAIL e
                      /\ to (custom_message e to_email subj text paths) = [to_email]).
    { unfold custom_message. destruct paths as [[|p ps]|];
        [now repeat split | | now repeat split].
      destruct (fields_attach_all e (p :: ps) (new_message e subj text to_email))
        as (Hs1 & Hb1 & Hf1 & Ht1).
      rewrite Hs1, Hb1, Hf1, Ht1. now repeat split. }
    destruct Hfields as (H1 & H2 & H3 & H4).
    repeat (split; [assumption|]).
    split; [apply new_message_html|].
    split; [apply new_message_plain|].
    intros H. apply new_message_html. now apply bold_tag_occurs.
Qed.

Lemma html_subtype_iff_angle_brackets_witness :
  exists email,
    snd (send_draft_email Demo.delivering Demo.ravi Demo.pitchdeck None Demo.db)
    = Return (verdict (send Demo.delivering email))
    /\ to email = ["ravi@vc.in"]
    /\ content_subtype email = "html".
Proof.
  destruct (proj1 (html_subtype_iff_angle_brackets
                     Demo.delivering Demo.ravi Demo.pitchdeck None Demo.db
                     "ravi@vc.in" "Hi" "a > b" None None) eq_refl)
    as (email & Hrun & _ & _ & _ & Hto & _ & _ & Hbold).
  exists email. split; [exact Hrun|]. split; [exact Hto|].
  apply Hbold. reflexivity.
Defined.

End Mailer.

(** ** The send-email handler *)

Section SendEmail.
Import Orm World EmailService ChatbotService.

Lemma run_EmailDraft_get (draft_name : string) (st : store) :
  EmailDraft_get_iexact draft_name st = (st, get (named draft_name) (drafts st)).
Proof. reflexivity. Qed.

Lemma run_get_or_create (email name updated_by : string) (st : store) :
  Investor_get_or_create email name updated_by st
  = match filter (has_email email) (investors st) with
    | [] =>
        let inv := new_investor (S (investor_seq st)) email name updated_by in
        (add_investor inv st, Return (inv, true))
    | [inv] => (st, Return (inv, false))
    | _ :: _ :: _ => (st, Raise MultipleObjectsReturned)
    end.
Proof.
  unfold Investor_get_or_create, Investor_create, get. run_orm.
  fold (has_email email).
  now destruct (filter (has_email email) (investors st)) as [|i [|j l]].
Qed.

(** C1.  For an address [local@domain] that no Investor has, a draft name
    that resolves to [draft], and a transport send that succeeds (the
    message to that address is composed, no file path of the draft's
    artifacts raising on the way, and the transport delivers it), the
    send-email handler inserts exactly one Investor,
    named [local] and updated by the acting user's username (["system"]
    without a user), inserts exactly one CommunicationLog row, of status
    [success], pointing at that investor and at [draft], and answers with
    a response of kind [success]. *)
Theorem send_email_creates_investor_and_success_log
  (e : env) (self : ChatbotService.t) (st : store)
  (local domain draft_name : string) (draft : EmailDraft.t) :
  let email_address := local ++ "@" ++ domain in
  Text.has_char "@" local = false ->
  filter (has_email email_address) (investors st) = [] ->
  get (named draft_name) (drafts st) = Return draft ->
  (forall investor, Investor.email investor = email_address ->
     exists email,
       draft_message e investor draft (artifacts_of draft (artifacts st))
       = inl email
       /\ send e email = Sent) ->
  exists st' r inv row,
    _handle_send_email e self email_address draft_name st = (st', Return r)
    /\ investors st' = inv :: investors st
    /\ Investor.name inv = local
    /\ Investor.email inv = email_address
    /\ Investor.updated_by inv = acting_username self
    /\ logs st' = row :: logs st
    /\ CommunicationLog.status row = "success"
    /\ CommunicationLog.investor row = Investor.id inv
    /\ CommunicationLog.draft row = Some (EmailDraft.id draft)
    /\ artifacts st' = artifacts st /\ drafts st' = drafts st
    /\ type r = "success"
    /\ data r = Some (SendData inv draft).
Proof.
  intros email_address Hlocal Hnone Hdraft Hsend.
  set (inv := new_investor (S (investor_seq st)) email_address local
                           (acting_username self)).
  assert (Hname : Text.split_head "@" email_address = local)
    by (apply split_head_app; exact Hlocal).
  unfold _handle_send_email.
  unfold bind at 1. unfold try_except. unfold bind at 1.
  rewrite run_EmailDraft_get, Hdraft. unfold ret at 1.
  unfold bind at 1. fold (acting_username self).
  rewrite run_get_or_create, Hnone, Hname. cbv zeta. fold inv.
  unfold bind at 1. rewrite run_send_draft_email.
  simpl artifacts. unfold try_send.
  destruct (Hsend inv eq_refl) as (email & -> & ->).
  eexists _, _, inv, _. split; [reflexivity|].
  simpl. repeat split; reflexivity.
Qed.

Lemma send_email_creates_investor_and_success_log_witness :
  exists st' r inv row,
    _handle_send_email Demo.delivering (init Demo.delivering (Some Demo.alice))
      ("jane" ++ "@" ++ "x.com") "PitchDeck" Demo.db = (st', Return r)
    /\ investors st' = inv :: investors Demo.db
    /\ Investor.name inv = "jane"
    /\ Investor.email inv = "jane@x.com"
    /\ Investor.updated_by inv = "alice"
    /\ logs st' = row :: logs Demo.db
    /\ CommunicationLog.status row = "success"
    /\ CommunicationLog.investor row = Investor.id inv
    /\ CommunicationLog.draft row = Some 1
    /\ artifacts st' = artifacts Demo.db /\ drafts st' = drafts Demo.db
    /\ type r = "success"
    /\ data r = Some (SendData inv Demo.pitchdeck).
Proof.
  apply (send_email_creates_investor_and_success_log
           Demo.delivering (init Demo.delivering (Some Demo.alice)) Demo.db
           "jane" "x.com" "PitchDeck" Demo.pitchdeck).
  - reflexivity.
  - reflexivity.
  - reflexivity.
  - intros investor _. eexists. split; reflexivity.
Defined.

(** The handler, step by step. *)
Lemma run_handle_send_email (e : env) (self : ChatbotService.t)
  (email_address draft_name : string) (st : store) :
  _handle_send_email e self email_address draft_name st
  = match get (named draft_name) (drafts st) with
    | Raise DoesNotExist =>
        (st, Return (not_found_response draft_name
                       (map EmailDraft.name (drafts st))))
    | Raise MultipleObjectsReturned => (st, Raise MultipleObjectsReturned)
    | Return draft =>
        match Investor_get_or_create email_address
                (Text.split_head "@" email_address) (acting_username self) st with
        | (st1, Raise ex) => (st1, Raise ex)
        | (st1, Return (investor, created)) =>
            match send_draft_email e investor draft (user self) st1 with
            | (st2, Return (true, _)) =>
                (st2, Return (sent_response email_address draft_name created
                                            investor draft))
            | (st2, Return (false, detail)) =>
                (st2, Return (failed_response detail))
            | (st2, Raise ex) => (st2, Raise ex)
            end
        end
    end.
Proof.
  unfold _handle_send_email.
  unfold bind at 1. unfold try_except. unfold bind at 1.
  rewrite run_EmailDraft_get.
  destruct (get (named draft_name) (drafts st)) as [draft|[|]];
    [| reflexivity | reflexivity].
  unfold ret at 1. unfold bind at 1. fold (acting_username self).
  destruct (Investor_get_or_create _ _ _ st) as [st1 [[investor created]|ex]];
    [| reflexivity].
  unfold bind at 1.
  destruct (send_draft_email e investor draft (user self) st1)
    as [st2 [[[|] detail]|ex]]; reflexivity.
Qed.

(** C2, as the code has it.  When the transport raises on the message of
    [send_draft_email], and also when the loop over the artifacts raises
    before the transport is reached, the mailer returns [(False, detail)]
    with [detail] the text of the error, and inserts exactly one
    CommunicationLog row: its status is [failed] and its notes are
    ["Failed to send: "] followed by that text.  No [success] row is
    added.  The send-email handler that called the mailer then answers
    with a response of kind [error] whose message ends in [detail]. *)
Theorem transport_failure_logged_and_reported
  (e : env) (investor : Investor.t) (draft : EmailDraft.t)
  (u : option User.t) (st : store) (detail : string) :
  (exists email,
      draft_message e investor draft (artifacts_of draft (artifacts st))
      = inl email
      /\ send e email = SendError detail)
  \/ draft_message e investor draft (artifacts_of draft (artifacts st))
     = inr detail ->
  exists st' row,
    send_draft_email e investor draft u st = (st', Return (false, detail))
    /\ logs st' = row :: logs st
    /\ CommunicationLog.status row = "failed"
    /\ CommunicationLog.notes row = "Failed to send: " ++ detail
    /\ CommunicationLog.investor row = Investor.id investor
    /\ CommunicationLog.draft row = Some (EmailDraft.id draft)
    /\ CommunicationLog.sent_by row = option_map User.id u
    /\ List.length (filter (has_status "success") (logs st'))
       = List.length (filter (has_status "success") (logs st))
    /\ List.length (filter (has_status "failed") (logs st'))
       = S (List.length (filter (has_status "failed") (logs st)))
    /\ investors st' = investors st
    /\ forall self email_address draft_name st0 created,
         user self = u ->
         get (named draft_name) (drafts st0) = Return draft ->
         Investor_get_or_create email_address
           (Text.split_head "@" email_address) (acting_username self) st0
         = (st, Return (investor, created)) ->
         exists r,
           _handle_send_email e self email_address draft_name st0
           = (st', Return r)
           /\ type r = "error"
           /\ message r = "❌ Failed to send email: " ++ detail
           /\ data r = None.
Proof.
  intros Hraised.
  assert (Hsend : try_send e investor draft (artifacts_of draft (artifacts st))
                  = SendError detail).
  { unfold try_send. now destruct Hraised as [(email & -> & ->)| ->]. }
  pose proof (run_send_draft_email e investor draft u st) as Hrun.
  rewrite Hsend in Hrun.
  eexists _, _. split; [exact Hrun|].
  simpl. repeat (split; [reflexivity|]).
  intros self email_address draft_name st0 created Hu Hdraft Hinv.
  exists (failed_response detail).
  rewrite run_handle_send_email, Hdraft, Hinv, Hu, Hrun.
  repeat split; reflexivity.
Qed.

Lemma transport_failure_logged_and_reported_witness :
  exists st' row,
    send_draft_email Demo.refusing Demo.ravi Demo.pitchdeck (Some Demo.alice)
      Demo.db = (st', Return (false, "Connection refused"))
    /\ logs st' = [row]
    /\ CommunicationLog.status row = "failed"
    /\ CommunicationLog.notes row = "Failed to send: Connection refused"
    /\ _handle_send_email Demo.refusing (init Demo.refusing (Some Demo.alice))
         "ravi@vc.in" "pitchdeck" Demo.db
       = (st', Return (failed_response "Connection refused")).
Proof.
  destruct (transport_failure_logged_and_reported
              Demo.refusing Demo.ravi Demo.pitchdeck (Some Demo.alice) Demo.db
              "Connection refused"
              (or_introl (ex_intro _ _ (conj eq_refl eq_refl))))
    as (st' & row & Hrun & Hlogs & Hstatus & Hnotes & _ & _ & _ & _ & _ & _ & Hbot).
  exists st', row. repeat (split; [assumption|]).
  destruct (Hbot (init Demo.refusing (Some Demo.alice)) "ravi@vc.in" "pitchdeck"
                 Demo.db false eq_refl eq_refl eq_refl)
    as (r & Hr & Htype & Hmsg & Hdata).
  rewrite Hr. destruct r as [ty msg dat]. simpl in *. now subst.
Defined.

(** The claim C2 as worded has the row's notes equal to the stringified
    transport error.  On a transport that raises ["Connection refused"]
    the row written has other notes. *)
Lemma failed_log_notes_counterexample :
  exists st' row,
    send_draft_email Demo.refusing Demo.ravi Demo.pitchdeck None Demo.db
    = (st', Return (false, "Connection refused"))
    /\ logs st' = [row]
    /\ CommunicationLog.status row = "failed"
    /\ CommunicationLog.notes row <> "Connection refused".
Proof.
  eexists _, _. split; [reflexivity|]. split; [reflexivity|].
  split; [reflexivity|]. discriminate.
Qed.



(** C9.  When exactly one Investor has the address the command names,
    the send-email handler leaves the Investor table as it was, whatever
    the draft name and whatever the transport does: no row is added, the
    row with that address is still the only one, and its columns are
    untouched.  A response of kind [success] carries that row. *)
Theorem send_email_to_existing_investor_keeps_investors
  (e : env) (self : ChatbotService.t) (st : store)
  (email_address draft_name : string) (inv : Investor.t) :
  filter (has_email email_address) (investors st) = [inv] ->
  let result := _handle_send_email e self email_address draft_name st in
  investors (fst result) = investors st
  /\ investor_seq (fst result) = investor_seq st
  /\ filter (has_email email_address) (investors (fst result)) = [inv]
  /\ List.length (filter (has_email email_address) (investors (fst result))) = 1
  /\ (forall r, snd result = Return r -> type r = "success" ->
        exists draft, data r = Some (SendData inv draft)).
Proof.
  intros Hone result.
  assert (Hkeep : investors (fst result) = investors st
                  /\ investor_seq (fst result) = investor_seq st
                  /\ (forall r, snd result = Return r -> type r = "success" ->
                        exists draft, data r = Some (SendData inv draft))).
  { unfold result. rewrite run_handle_send_email.
    destruct (get (named draft_name) (drafts st)) as [draft|[|]].
    - rewrite run_get_or_create, Hone, run_send_draft_email.
      destruct (try_send e _ _ _); simpl; (split; [reflexivity|]);
        (split; [reflexivity|]); intros r Hr Hty; inversion Hr; subst.
      + now exists draft.
      + discriminate Hty.
    - simpl. split; [reflexivity|]. split; [reflexivity|].
      intros r Hr Hty. inversion Hr; subst. discriminate Hty.
    - simpl. split; [reflexivity|]. split; [reflexivity|]. discriminate. }
  destruct Hkeep as (Hinv & Hseq & Hdata).
  rewrite Hinv, Hone. repeat split; try assumption; reflexivity.
Qed.

Lemma send_email_to_existing_investor_keeps_investors_witness :
  investors (fst (_handle_send_email Demo.delivering
                    (init Demo.delivering (Some Demo.alice))
                    "ravi@vc.in" "pitchdeck" Demo.db))
  = [Demo.tech_angel; Demo.ravi].
Proof.
  apply (send_email_to_existing_investor_keeps_investors
           Demo.delivering (init Demo.delivering (Some Demo.alice)) Demo.db
           "ravi@vc.in" "pitchdeck" Demo.ravi eq_refl).
Defined.

End SendEmail.

(** ** Removing duplicates through a dictionary keyed by primary key *)

Section Dedupe.
Import ChatbotService.
Context {V : Type} (id : V -> nat).

Lemma dict_set_absent (k : nat) (v : V) (d : list (nat * V)) :
  existsb (Nat.eqb k) (map fst d) = false -> dict_set k v d = (d ++ [(k, v)])%list.
Proof.
  induction d as [|[k' v'] d IH]; simpl; [reflexivity|].
  intros H. apply orb_false_iff in H as [Hk Hd].
  rewrite Hk. now rewrite IH.
Qed.

Lemma dict_set_present (k : nat) (v : V) (d : list (nat * V)) :
  existsb (Nat.eqb k) (map fst d) = true ->
  map fst (dict_set k v d) = map fst d.
Proof.
  induction d as [|[k' v'] d IH]; simpl; [discriminate|].
  destruct (Nat.eqb_spec k k') as [->|Hne]; simpl; [reflexivity|].
  intros H. now rewrite IH.
Qed.

Lemma dict_set_same (k : nat) (v : V) (d : list (nat * V)) :
  existsb (Nat.eqb k) (map fst d) = true ->
  (forall v', In (k, v') d -> v' = v) ->
  dict_set k v d = d.
Proof.
  induction d as [|[k' v'] d IH]; simpl; [discriminate|].
  destruct (Nat.eqb_spec k k') as [->|Hne]; simpl; intros H Hsame.
  - now rewrite (Hsame v' (or_introl eq_refl)).
  - rewrite IH; [reflexivity | exact H |].
    intros w Hw. apply Hsame. now right.
Qed.

Lemma dict_set_keyed (x : V) (d : list (nat * V)) :
  keyed id d -> keyed id (dict_set (id x) x d).
Proof.
  unfold keyed. induction d as [|[k' v'] d IH]; simpl; intros H.
  - now constructor.
  - inversion H as [|? ? Hhd Htl]; subst.
    destruct (Nat.eqb (id x) k'); constructor; auto.
Qed.

Lemma fold_step_keys (xs : list V) : forall d,
  keyed id d ->
  map fst (fold_left (step id) xs d)
  = (map fst d ++ map id (first_seen id (map fst d) xs))%list.
Proof.
  induction xs as [|x rest IH]; intros d Hd; simpl.
  - now rewrite app_nil_r.
  - rewrite (IH (step id d x) (dict_set_keyed x d Hd)). unfold step.
    destruct (existsb (Nat.eqb (id x)) (map fst d)) eqn:Hmem.
    + now rewrite (dict_set_present _ _ _ Hmem).
    + rewrite (dict_set_absent _ _ _ Hmem), map_app. simpl.
      now rewrite <- app_assoc.
Qed.

Lemma keyed_lookup (d : list (nat * V)) (k : nat) (v : V) :
  keyed id d -> In (k, v) d -> k = id v.
Proof.
  unfold keyed. rewrite Forall_forall. intros H Hin. exact (H _ Hin).
Qed.

Lemma fold_step_values (xs : list V) : forall d,
  keyed id d ->
  (forall x y, In x (map snd d ++ xs)%list -> In y (map snd d ++ xs)%list ->
               id x = id y -> x = y) ->
  map snd (fold_left (step id) xs d) = (map snd d ++ first_seen id (map fst d) xs)%list.
Proof.
  induction xs as [|x rest IH]; intros d Hd Hinj; simpl.
  - now rewrite app_nil_r.
  - destruct (existsb (Nat.eqb (id x)) (map fst d)) eqn:Hmem.
    + unfold step at 2. rewrite dict_set_same; [| exact Hmem |].
      * apply IH; [exact Hd|].
        intros a b Ha Hb. apply Hinj; rewrite in_app_iff in *; simpl; tauto.
      * intros v' Hv'. apply Hinj.
        -- rewrite in_app_iff. left. apply in_map_iff. now exists (id x, v').
        -- rewrite in_app_iff. right. now left.
        -- symmetry. exact (keyed_lookup _ _ _ Hd Hv').
    + rewrite (IH (step id d x) (dict_set_keyed x d Hd)); unfold step.
      * rewrite (dict_set_absent _ _ _ Hmem), !map_app. simpl.
        now rewrite <- app_assoc.
      * rewrite (dict_set_absent _ _ _ Hmem), map_app. simpl.
        intros a b Ha Hb. apply Hinj;
          rewrite !in_app_iff in *; simpl in *; tauto.
Qed.

Lemma first_seen_fresh (xs : list V) : forall seen x,
  In x (first_seen id seen xs) -> existsb (Nat.eqb (id x)) seen = false.
Proof.
  induction xs as [|y rest IH]; intros seen x; simpl; [tauto|].
  destruct (existsb (Nat.eqb (id y)) seen) eqn:Hmem.
  - apply IH.
  - intros [->|Hin]; [exact Hmem|].
    apply IH in Hin. rewrite existsb_app in Hin.
    now apply orb_false_iff in Hin as [H _].
Qed.

Lemma first_seen_NoDup (xs : list V) : forall seen,
  NoDup (map id (first_seen id seen xs)).
Proof.
  induction xs as [|y rest IH]; intros seen; simpl; [constructor|].
  destruct (existsb (Nat.eqb (id y)) seen) eqn:Hmem; [apply IH|].
  simpl. constructor; [|apply IH].
  intros Hin. apply in_map_iff in Hin as (x & Hid & Hx).
  apply first_seen_fresh in Hx. rewrite existsb_app, Hid in Hx. simpl in Hx.
  rewrite Nat.eqb_refl in Hx. rewrite orb_true_r in Hx. discriminate.
Qed.

Lemma first_seen_subset (xs : list V) : forall seen x,
  In x (first_seen id seen xs) -> In x xs.
Proof.
  induction xs as [|y rest IH]; intros seen x; simpl; [tauto|].
  destruct (existsb (Nat.eqb (id y)) seen); [right; eauto|].
  intros [->|Hin]; [now left | right; eauto].
Qed.

(** A row whose key was not seen before is represented by a row of the
    same key. *)
Lemma first_seen_covers (xs : list V) : forall seen x,
  In x xs -> existsb (Nat.eqb (id x)) seen = false ->
  exists y, In y (first_seen id seen xs) /\ id y = id x.
Proof.
  induction xs as [|z rest IH]; intros seen x; simpl; [tauto|].
  intros [->|Hin] Hfresh.
  - rewrite Hfresh. exists x. split; [now left | reflexivity].
  - destruct (existsb (Nat.eqb (id z)) seen) eqn:Hmem.
    + now apply IH.
    + destruct (Nat.eqb_spec (id x) (id z)) as [E|Hne].
      * exists z. split; [now left | now symmetry].
      * destruct (IH (seen ++ [id z])%list x Hin) as (y & Hy & Hid).
        -- rewrite existsb_app, Hfresh. simpl.
           apply Nat.eqb_neq in Hne. now rewrite Hne.
        -- exists y. split; [now right | exact Hid].
Qed.

(** The keys of the rows [dedupe] returns are the keys of the rows it was
    given, each once, in the order they were first met. *)
Lemma dedupe_keys (xs : list V) :
  map id (dedupe id xs) = map id (first_seen id [] xs).
Proof.
  unfold dedupe. fold (step id).
  assert (Hk : keyed id (fold_left (step id) xs [])).
  { assert (G : forall l d, keyed id d -> keyed id (fold_left (step id) l d)).
    { induction l as [|x l IH]; intros d Hd; simpl; [exact Hd|].
      apply IH. now apply dict_set_keyed. }
    apply G. constructor. }
  change (map id (first_seen id [] xs))
    with (map fst (@nil (nat * V)) ++ map id (first_seen id (map fst (@nil (nat * V))) xs))%list.
  rewrite <- (fold_step_keys xs [] (Forall_nil _)).
  unfold keyed in Hk. induction Hk as [|[k v] d Hkv _ IH]; simpl;
    [reflexivity|]. simpl in Hkv. now rewrite IH, Hkv.
Qed.

Lemma dedupe_NoDup (xs : list V) : NoDup (map id (dedupe id xs)).
Proof. rewrite dedupe_keys. apply first_seen_NoDup. Qed.

(** When a key determines its row, [dedupe] keeps the first row of each
    key, in order. *)
Lemma dedupe_first_seen (xs : list V) :
  (forall x y, In x xs -> In y xs -> id x = id y -> x = y) ->
  dedupe id xs = first_seen id [] xs.
Proof.
  intros Hinj. unfold dedupe. fold (step id).
  now rewrite (fold_step_values xs [] (Forall_nil _)).
Qed.

End Dedupe.

(** ** The search handler *)

Section Search.
Import Orm Orm.Notations World ChatbotService.

Lemma run_extend_investors (keywords : list string) : forall acc st,
  extend_each Investor_search keywords acc st
  = (st, Return (acc ++ investor_hits st keywords)%list).
Proof.
  induction keywords as [|k ks IH]; intros acc st; simpl.
  - unfold ret. now rewrite app_nil_r.
  - unfold bind at 1. unfold Investor_search at 1. run_orm.
    rewrite IH. unfold investor_hits. now rewrite <- app_assoc.
Qed.

Lemma run_extend_artifacts (keywords : list string) : forall acc st,
  extend_each Artifact_search keywords acc st
  = (st, Return (acc ++ artifact_hits st keywords)%list).
Proof.
  induction keywords as [|k ks IH]; intros acc st; simpl.
  - unfold ret. now rewrite app_nil_r.
  - unfold bind at 1. unfold Artifact_search at 1. run_orm.
    rewrite IH. unfold artifact_hits. now rewrite <- app_assoc.
Qed.

(** The handler reads the datastore and leaves it as it was. *)
Lemma run_handle_search (query_string : string) (st : store) :
  _handle_search query_string st
  = (st, Return match extract_keywords query_string with
                | [] => no_keywords_response
                | (_ :: _) as keywords => found_response st keywords
                end).
Proof.
  unfold _handle_search.
  destruct (extract_keywords query_string) as [|k ks]; [reflexivity|].
  unfold bind at 1. rewrite run_extend_investors.
  unfold bind at 1. rewrite run_extend_artifacts.
  reflexivity.
Qed.

Lemma NoDup_map_injective {A : Type} (f : A -> nat) (l : list A) :
  NoDup (map f l) -> forall x y, In x l -> In y l -> f x = f y -> x = y.
Proof.
  induction l as [|a l IH]; simpl; intros Hnd x y Hx Hy Hf; [tauto|].
  inversion Hnd as [|? ? Hnotin Hnd']; subst.
  destruct Hx as [->|Hx], Hy as [->|Hy]; auto.
  - exfalso. apply Hnotin. rewrite Hf. now apply in_map.
  - exfalso. apply Hnotin. rewrite <- Hf. now apply in_map.
Qed.

Lemma investor_hits_spec (st : store) (keywords : list string) (i : Investor.t) :
  In i (investor_hits st keywords)
  <-> In i (investors st)
      /\ exists k, In k keywords /\ investor_matches k i = true.
Proof.
  unfold investor_hits. rewrite in_flat_map. split.
  - intros (k & Hk & Hi). apply filter_In in Hi as [Hin Hm]. eauto.
  - intros (Hin & k & Hk & Hm). exists k. split; [exact Hk|].
    now apply filter_In.
Qed.

Lemma artifact_hits_spec (st : store) (keywords : list string) (a : Artifact.t) :
  In a (artifact_hits st keywords)
  <-> In a (artifacts st)
      /\ exists k, In k keywords /\ artifact_matches k a = true.
Proof.
  unfold artifact_hits. rewrite in_flat_map. split.
  - intros (k & Hk & Hi). apply filter_In in Hi as [Hin Hm]. eauto.
  - intros (Hin & k & Hk & Hm). exists k. split; [exact Hk|].
    now apply filter_In.
Qed.

(** What [dedupe] makes of rows that all come from one table with a
    primary key. *)
Lemma dedupe_of_table {V : Type} (id : V -> nat) (table hits : list V) :
  NoDup (map id table) -> (forall x, In x hits -> In x table) ->
  dedupe id hits = first_seen id [] hits
  /\ forall x, In x (dedupe id hits) <-> In x hits.
Proof.
  intros Hpk Hsub.
  assert (Hinj : forall x y, In x hits -> In y hits -> id x = id y -> x = y).
  { intros x y Hx Hy. apply (NoDup_map_injective id table Hpk); auto. }
  rewrite (dedupe_first_seen id hits Hinj). split; [reflexivity|].
  intros x. split; [apply first_seen_subset|].
  intros Hx. destruct (first_seen_covers id hits [] x Hx eq_refl) as (y & Hy & Hid).
  now rewrite <- (Hinj y x (first_seen_subset id hits [] y Hy) Hx Hid).
Qed.

(** C5.  The search handler answers and leaves the datastore as it was,
    so a second run on the same query gives the same response.  In the
    payload no two investors and no two artifacts have the same primary
    key, however many fields or keywords a row matched, and the keys
    stand in the order in which the keyword loop first met them.  With
    primary keys unique in their table, the investors are the first
    occurrences of the rows the loop collected, and a row of the table is
    in the result exactly when some keyword matches it; likewise for the
    artifacts. *)
Theorem search_is_repeatable_and_deduplicated (st : store) (query_string : string) :
  exists r,
    _handle_search query_string st = (st, Return r)
    /\ (r1 <- _handle_search query_string ;;
        r2 <- _handle_search query_string ;; ret (r1, r2)) st
       = (st, Return (r, r))
    /\ forall invs arts keywords,
         data r = Some (SearchData invs arts keywords) ->
         keywords = extract_keywords query_string
         /\ NoDup (map Investor.id invs)
         /\ NoDup (map Artifact.id arts)
         /\ map Investor.id invs
            = map Investor.id (first_seen Investor.id [] (investor_hits st keywords))
         /\ map Artifact.id arts
            = map Artifact.id (first_seen Artifact.id [] (artifact_hits st keywords))
         /\ (NoDup (map Investor.id (investors st)) ->
             invs = first_seen Investor.id [] (investor_hits st keywords)
             /\ forall i, In i invs
                          <-> In i (investors st)
                              /\ exists k, In k keywords
                                           /\ investor_matches k i = true)
         /\ (NoDup (map Artifact.id (artifacts st)) ->
             arts = first_seen Artifact.id [] (artifact_hits st keywords)
             /\ forall a, In a arts
                          <-> In a (artifacts st)
                              /\ exists k, In k keywords
                                           /\ artifact_matches k a = true).
Proof.
  eexists. split; [apply run_handle_search|].
  split.
  { unfold bind. now rewrite !run_handle_search. }
  intros invs arts keywords Hdata.
  destruct (extract_keywords query_string) as [|k ks] eqn:Hk;
    [discriminate Hdata|].
  unfold found_response in Hdata. simpl in Hdata.
  inversion Hdata; subst invs arts keywords; clear Hdata.
  split; [reflexivity|].
  split; [apply dedupe_NoDup|].
  split; [apply dedupe_NoDup|].
  split; [apply dedupe_keys|].
  split; [apply dedupe_keys|].
  split.
  - intros Hpk.
    destruct (dedupe_of_table Investor.id (investors st)
                (investor_hits st (k :: ks)) Hpk) as [Heq Hin].
    { intros x Hx. now apply investor_hits_spec in Hx. }
    split; [exact Heq|].
    intros i. rewrite Hin. apply investor_hits_spec.
  - intros Hpk.
    destruct (dedupe_of_table Artifact.id (artifacts st)
                (artifact_hits st (k :: ks)) Hpk) as [Heq Hin].
    { intros x Hx. now apply artifact_hits_spec in Hx. }
    split; [exact Heq|].
    intros a. rewrite Hin. apply artifact_hits_spec.
Qed.

Lemma search_is_repeatable_and_deduplicated_witness :
  exists r,
    _handle_search "tech 'VC' and ravi Tech" Demo.db = (Demo.db, Return r)
    /\ data r = Some (SearchData [Demo.tech_angel; Demo.ravi] [Demo.deck]
                                 ["tech"; "VC"; "ravi"; "Tech"])
    /\ NoDup (map Investor.id [Demo.tech_angel; Demo.ravi])
    /\ [Demo.tech_angel; Demo.ravi]
       = first_seen Investor.id []
           (investor_hits Demo.db ["tech"; "VC"; "ravi"; "Tech"]).
Proof.
  destruct (search_is_repeatable_and_deduplicated
              Demo.db "tech 'VC' and ravi Tech") as (r & Hrun & _ & Hdata).
  exists r. split; [exact Hrun|].
  assert (Hr : data r = Some (SearchData [Demo.tech_angel; Demo.ravi] [Demo.deck]
                                         ["tech"; "VC"; "ravi"; "Tech"])).
  { rewrite run_handle_search in Hrun. inversion Hrun. reflexivity. }
  split; [exact Hr|].
  destruct (Hdata _ _ _ Hr) as (_ & Hnd & _ & _ & _ & Hinv & _).
  split; [exact Hnd|].
  apply Hinv. repeat constructor; simpl; intuition discriminate.
Defined.

End Search.

(** ** Facts about the matcher *)

Section MatcherFacts.
Import Text Re.

Lemma length_app (a b : string) :
  String.length (a ++ b) = String.length a + String.length b.
Proof. induction a as [|x a IH]; simpl; [reflexivity | now rewrite IH]. Qed.

Lemma take_app (pre rest : string) :
  take (String.length (pre ++ rest) - String.length rest) (pre ++ rest) = pre.
Proof.
  rewrite length_app.
  replace (String.length pre + String.length rest - String.length rest)
    with (String.length pre) by lia.
  induction pre as [|x pre IH]; simpl.
  - now destruct rest.
  - now rewrite IH.
Qed.

(** What a successful greedy run consumed, and where it handed over. *)
Lemma greedy_inv {A} (p : ascii -> bool) (k : string -> option A) (s : string)
  (a : A) :
  greedy p k s = Some a ->
  exists pre rest, s = pre ++ rest /\ all_chars p pre = true /\ k rest = Some a.
Proof.
  induction s as [|x s IH]; simpl.
  - intros H. now exists "", "".
  - destruct (p x) eqn:Hp.
    + destruct (greedy p k s) as [a'|] eqn:Hg.
      * intros E. inversion E; subst a'.
        destruct (IH eq_refl) as (pre & rest & -> & Hall & Hk).
        exists (String x pre), rest. simpl. now rewrite Hp, Hall.
      * intros H. now exists "", (String x s).
    + intros H. now exists "", (String x s).
Qed.

Lemma at_least_inv {A} (n : nat) (p : ascii -> bool) (k : string -> option A)
  (s : string) (a : A) :
  at_least n p k s = Some a ->
  exists pre rest,
    s = pre ++ rest /\ all_chars p pre = true /\ n <= String.length pre
    /\ k rest = Some a.
Proof.
  revert s. induction n as [|n IH]; intros s; simpl.
  - intros H. destruct (greedy_inv p k s a H) as (pre & rest & E & Hall & Hk).
    exists pre, rest. repeat split; auto. lia.
  - destruct s as [|x s]; [discriminate|].
    destruct (p x) eqn:Hp; [|discriminate].
    intros H. destruct (IH s H) as (pre & rest & -> & Hall & Hlen & Hk).
    exists (String x pre), rest. simpl. rewrite Hp, Hall.
    repeat split; auto. lia.
Qed.

(** Every tuple [findall] returns is a match of the pattern at some
    place of the text. *)
Lemma findall_from_In (r : re) (s : string) : forall skip g1 g2,
  In (g1, g2) (findall_from r s skip) ->
  exists before here c len,
    s = before ++ here /\ match_at r here = Some (c, len)
    /\ g1 = group_or_empty 1 c /\ g2 = group_or_empty 2 c.
Proof.
  induction s as [|x s IH]; intros skip g1 g2; simpl; [tauto|].
  assert (Hrest : forall n, In (g1, g2) (findall_from r s n) ->
            exists before here c len,
              String x s = before ++ here /\ match_at r here = Some (c, len)
              /\ g1 = group_or_empty 1 c /\ g2 = group_or_empty 2 c).
  { intros n Hin. destruct (IH n g1 g2 Hin) as (b & h & c & len & -> & Hm & E1 & E2).
    now exists (String x b), h, c, len. }
  destruct skip as [|n]; [|apply Hrest].
  destruct (match_at r (String x s)) as [[c len]|] eqn:Hm; [|apply Hrest].
  intros [E|Hin]; [|eapply Hrest; exact Hin].
  inversion E; subst. now exists "", (String x s), c, len.
Qed.

End MatcherFacts.

(** ** The keywords of a search *)

Section Keywords.
Import Text Re Orm World ChatbotService.

(** A match of the keyword pattern is a run of characters between two
    quote marks, kept as group 1, or a run of word characters, kept as
    group 2. *)
Lemma keyword_match_inv (here : string) (c : caps) (len : nat) :
  match_at KEYWORD_PATTERN here = Some (c, len) ->
  (exists a g b rest,
      here = String a (g ++ String b rest)
      /\ quote_chr a = true /\ quote_chr b = true
      /\ 1 <= String.length g /\ all_chars not_quote g = true
      /\ c = [(1, g)])
  \/ (exists g rest,
         here = g ++ rest /\ 1 <= String.length g
         /\ all_chars is_word g = true /\ c = [(2, g)]).
Proof.
  unfold match_at, KEYWORD_PATTERN. cbn [cat_all run].
  match goal with
  | |- match ?quoted with _ => _ end = _ -> _ => destruct quoted as [m|] eqn:HA
  end.
  - intros E. inversion E; subst m. clear E. left.
    destruct here as [|x s']; [discriminate|].
    destruct (quote_chr x) eqn:Hx; [|discriminate].
    apply at_least_inv in HA as (g & rest & -> & Hall & Hlen & Hk).
    destruct rest as [|y rest']; [discriminate|].
    destruct (quote_chr y) eqn:Hy; [|discriminate].
    inversion Hk. rewrite take_app.
    now exists x, g, y, rest'.
  - intros H. right.
    apply at_least_inv in H as (g & rest & -> & Hall & Hlen & Hk).
    inversion Hk. rewrite take_app. now exists g, rest.
Qed.

Lemma extract_keywords_tokens (query_string : string) :
  extract_keywords query_string = map strip (filter kept (tokens query_string)).
Proof. reflexivity. Qed.

Lemma truthy_length (s : string) : 1 <= String.length s -> truthy s = true.
Proof. destruct s; simpl; [lia | reflexivity]. Qed.

(** A token is the text between two quote marks of the query, or a run
    of word characters of the query. *)
Lemma tokens_inv (query_string t : string) :
  In t (tokens query_string) ->
  exists before after,
    (exists a b,
        query_string = before ++ String a (t ++ String b after)
        /\ quote_chr a = true /\ quote_chr b = true
        /\ 1 <= String.length t /\ all_chars not_quote t = true)
    \/ (query_string = before ++ t ++ after
        /\ 1 <= String.length t /\ all_chars is_word t = true).
Proof.
  unfold tokens. rewrite in_map_iff. intros ([g1 g2] & Ht & Hin).
  apply filter_In in Hin as [Hin _]. simpl in Ht.
  apply findall_from_In in Hin as (before & here & c & len & -> & Hm & -> & ->).
  apply keyword_match_inv in Hm
      as [(a & g & b & rest & -> & Ha & Hb & Hlen & Hall & ->)
         |(g & rest & -> & Hlen & Hall & ->)].
  - unfold group_or_empty in Ht. simpl in Ht.
    rewrite (truthy_length g Hlen) in Ht. subst t.
    exists before, rest. left. now exists a, b.
  - unfold group_or_empty in Ht. simpl in Ht. subst t.
    exists before, rest. right. auto.
Qed.

Lemma rstrip_cons_nonspace (c : ascii) (s : string) :
  is_space c = false -> rstrip (String c s) = String c (rstrip s).
Proof. intros H. simpl. rewrite H. now destruct (rstrip s). Qed.

Lemma rstrip_idem (s : string) : rstrip (rstrip s) = rstrip s.
Proof.
  induction s as [|c s IH]; [reflexivity|]. simpl.
  destruct (rstrip s) as [|y r] eqn:Hr.
  - destruct (is_space c) eqn:Hc; [reflexivity|]. simpl. now rewrite Hc.
  - change (rstrip (String c (String y r)) = String c (String y r)).
    simpl. simpl in IH. destruct (rstrip r) as [|z r'] eqn:Hr'.
    + destruct (is_space y); [discriminate IH | now inversion IH].
    + now inversion IH.
Qed.

Lemma lstrip_head (s : string) :
  lstrip s = "" \/ exists c s', lstrip s = String c s' /\ is_space c = false.
Proof.
  induction s as [|c s IH]; simpl; [now left|].
  destruct (is_space c) eqn:Hc; [exact IH|]. right. now exists c, s.
Qed.

Lemma lstrip_nonspace (c : ascii) (s : string) :
  is_space c = false -> lstrip (String c s) = String c s.
Proof. intros H. simpl. now rewrite H. Qed.

(** [strip] returns a text with no white space at either end. *)
Lemma strip_idem (s : string) : strip (strip s) = strip s.
Proof.
  unfold strip. destruct (lstrip_head s) as [->|(c & s' & -> & Hc)];
    [reflexivity|].
  rewrite (rstrip_cons_nonspace c s' Hc), (lstrip_nonspace c _ Hc).
  rewrite <- (rstrip_cons_nonspace c s' Hc). apply rstrip_idem.
Qed.

Lemma word_not_space (x : ascii) : is_word x = true -> is_space x = false.
Proof.
  destruct x as [[|] [|] [|] [|] [|] [|] [|] [|]]; vm_compute;
    intros H; congruence.
Qed.

Lemma rstrip_nonspace (s : string) :
  all_chars (fun x => negb (is_space x)) s = true -> rstrip s = s.
Proof.
  induction s as [|c s IH]; [reflexivity|].
  simpl all_chars. intros H. apply andb_true_iff in H as [Hc Hs].
  apply negb_true_iff in Hc.
  rewrite (rstrip_cons_nonspace c s Hc). now rewrite IH.
Qed.

Lemma all_chars_impl (p q : ascii -> bool) (s : string) :
  (forall x, p x = true -> q x = true) ->
  all_chars p s = true -> all_chars q s = true.
Proof.
  intros Hpq. induction s as [|c s IH]; simpl; [reflexivity|].
  intros H. apply andb_true_iff in H as [Hc Hs].
  now rewrite (Hpq c Hc), IH.
Qed.

(** A run of word characters is its own [strip]. *)
Lemma strip_word (t : string) : all_chars is_word t = true -> strip t = t.
Proof.
  intros H. unfold strip.
  assert (Hl : lstrip t = t).
  { destruct t as [|c t]; [reflexivity|]. simpl in H.
    apply andb_true_iff in H as [Hc _].
    apply lstrip_nonspace. now apply word_not_space. }
  rewrite Hl. apply rstrip_nonspace.
  apply (all_chars_impl is_word); [|exact H].
  intros x Hx. now rewrite (word_not_space x Hx).
Qed.

Lemma quote_chr_cases (a : ascii) :
  quote_chr a = true -> a = ascii_of_nat 34 \/ a = "'"%char.
Proof.
  unfold quote_chr. intros H. apply orb_true_iff in H as [H|H];
    apply Ascii.eqb_eq in H; auto.
Qed.

(** A text without quote marks has only word runs as tokens. *)
Lemma tokens_unquoted (query_string t : string) :
  has_char (ascii_of_nat 34) query_string = false ->
  has_char "'" query_string = false ->
  In t (tokens query_string) -> all_chars is_word t = true.
Proof.
  intros Hd Hs Hin.
  destruct (tokens_inv _ _ Hin)
    as (before & after & [(a & b & E & Ha & _)|(_ & _ & Hall)]);
    [|exact Hall].
  exfalso.
  assert (Hq : has_char a query_string = true)
    by (apply has_char_spec; now exists before, (t ++ String b after)).
  destruct (quote_chr_cases a Ha) as [->| ->]; congruence.
Qed.

Lemma in_existsb_eqb (x : string) (l : list string) :
  existsb (String.eqb x) l = true <-> In x l.
Proof.
  rewrite existsb_exists. split.
  - intros (y & Hy & E). apply String.eqb_eq in E. now subst.
  - intros H. exists x. split; [exact H | apply String.eqb_refl].
Qed.

Lemma kept_spec (t : string) :
  kept t = true <-> strip t <> "" /\ ~ In (lower t) STOP_WORDS.
Proof.
  unfold kept. rewrite andb_true_iff, negb_true_iff.
  rewrite <- in_existsb_eqb. split; intros [H1 H2]; split.
  - destruct (strip t); [discriminate | discriminate].
  - now rewrite H2.
  - destruct (strip t); [now contradiction H1 | reflexivity].
  - now destruct (existsb (String.eqb (lower t)) STOP_WORDS).
Qed.

Lemma process_message_search (e : env) (self : ChatbotService.t) (raw rest : string)
  (keywords : list string) (st : store) :
  search SEND_EMAIL_PATTERN (strip raw) = None ->
  search SEARCH_PATTERN (strip raw) = Some [(1, rest)] ->
  extract_keywords rest = keywords ->
  keywords <> [] ->
  process_message e self raw st = (st, Return (found_response st keywords)).
Proof.
  intros Hsend Hsearch Hkw Hne. unfold process_message. cbv zeta.
  rewrite Hsend, Hsearch.
  change (group_or_empty 1 [(1, rest)]) with rest.
  rewrite run_handle_search, Hkw.
  destruct keywords; [now contradiction Hne | reflexivity].
Qed.

(** *** The tokens, computed *)

Lemma span_spec (p : ascii -> bool) (s : string) :
  forall run rest, span p s = (run, rest) ->
    s = run ++ rest /\ all_chars p run = true
    /\ (forall y r, rest = String y r -> p y = false).
Proof.
  induction s as [|x s IH]; intros run rest; simpl.
  - intros E. inversion E; subst. repeat split. discriminate.
  - destruct (p x) eqn:Hp.
    + destruct (span p s) as [run' rest'].
      intros E. inversion E; subst. clear E.
      destruct (IH run' rest eq_refl) as (-> & Hall & Hrest).
      simpl. rewrite Hp, Hall. now repeat split.
    + intros E. inversion E; subst. clear E. repeat split.
      intros y r E. inversion E; subst. exact Hp.
Qed.

Lemma span_app (p : ascii -> bool) (run rest : string) :
  all_chars p run = true ->
  (forall y r, rest = String y r -> p y = false) ->
  span p (run ++ rest) = (run, rest).
Proof.
  intros Hall Hrest. induction run as [|x run IH]; simpl in *.
  - destruct rest as [|y r]; [reflexivity|].
    simpl. now rewrite (Hrest y r eq_refl).
  - apply andb_true_iff in Hall as [Hx Hall]. now rewrite Hx, (IH Hall).
Qed.

(** A greedy run that is handed over with success where the class ends
    is not shortened. *)
Lemma greedy_app {A} (p : ascii -> bool) (k : string -> option A)
  (run rest : string) (a : A) :
  all_chars p run = true ->
  (forall y r, rest = String y r -> p y = false) ->
  k rest = Some a ->
  greedy p k (run ++ rest) = Some a.
Proof.
  intros Hall Hrest Hk. induction run as [|x run IH]; simpl in *.
  - destruct rest as [|y r]; [exact Hk|].
    simpl. now rewrite (Hrest y r eq_refl).
  - apply andb_true_iff in Hall as [Hx Hall]. now rewrite Hx, (IH Hall).
Qed.

Lemma at_least_app {A} (n : nat) (p : ascii -> bool) (k : string -> option A)
  (rest : string) (a : A) :
  (forall y r, rest = String y r -> p y = false) ->
  k rest = Some a ->
  forall g, all_chars p g = true -> n <= String.length g ->
            at_least n p k (g ++ rest) = Some a.
Proof.
  intros Hrest Hk. induction n as [|n IH]; intros g Hall Hlen.
  - now apply greedy_app.
  - destruct g as [|z g]; [simpl in Hlen; lia|].
    simpl in *. apply andb_true_iff in Hall as [Hz Hall].
    rewrite Hz. apply IH; [exact Hall | lia].
Qed.

(** The characters of the last match are passed over. *)
Lemma findall_from_skip (r : re) (pre s : string) :
  findall_from r (pre ++ s) (String.length pre) = findall_from r s 0.
Proof.
  induction pre as [|x pre IH]; simpl; [|exact IH].
  now destruct s.
Qed.

Lemma quote_not_word (x : ascii) : quote_chr x = true -> is_word x = false.
Proof.
  intros H. destruct (quote_chr_cases x H) as [->| ->]; reflexivity.
Qed.

Lemma take_all (s : string) : take (String.length s) s = s.
Proof. induction s as [|x s IH]; simpl; [reflexivity | now rewrite IH]. Qed.

(** At a quote mark with a run and a second quote mark behind it. *)
Lemma match_at_quoted (x y : ascii) (g after : string) :
  quote_chr x = true -> quote_chr y = true ->
  all_chars not_quote g = true -> 1 <= String.length g ->
  match_at KEYWORD_PATTERN (String x (g ++ String y after))
  = Some ([(1, g)], 2 + String.length g).
Proof.
  intros Hx Hy Hall Hlen.
  unfold match_at, KEYWORD_PATTERN. cbn [cat_all run]. rewrite Hx.
  rewrite (at_least_app 1 _ _ (String y after)
             ([(1, g)], 2 + String.length g)); [reflexivity | | | exact Hall | exact Hlen].
  - intros y' r E. inversion E; subst. now rewrite Hy.
  - rewrite Hy, take_app. f_equal. f_equal.
    cbn [String.length]. rewrite length_app. cbn [String.length]. lia.
Qed.

(** At a word character. *)
Lemma match_at_word (x : ascii) (g after : string) :
  is_word x = true -> quote_chr x = false ->
  all_chars is_word g = true ->
  (forall y r, after = String y r -> is_word y = false) ->
  match_at KEYWORD_PATTERN (String x (g ++ after))
  = Some ([(2, String x g)], 1 + String.length g).
Proof.
  intros Hw Hq Hall Hafter.
  unfold match_at, KEYWORD_PATTERN. cbn [cat_all run]. rewrite Hq.
  change (String x (g ++ after)) with (String x g ++ after).
  rewrite (at_least_app 1 _ _ after
             ([(2, String x g)], 1 + String.length g));
    [reflexivity | exact Hafter | | | simpl; lia].
  - rewrite take_app. f_equal. f_equal.
    rewrite length_app. cbn [String.length]. lia.
  - simpl. now rewrite Hw, Hall.
Qed.

(** At a quote mark without such a run behind it, and at any other
    character that is no word character, there is no match. *)
Lemma match_at_none (x : ascii) (s : string) :
  is_word x = false ->
  (quote_chr x = true ->
   forall z run y after, span not_quote s <> (String z run, String y after)) ->
  match_at KEYWORD_PATTERN (String x s) = None.
Proof.
  intros Hw Hspan.
  destruct (match_at KEYWORD_PATTERN (String x s)) as [[c len]|] eqn:Hm;
    [|reflexivity].
  exfalso.
  apply keyword_match_inv in Hm
      as [(a & g & b & rest & E & Ha & Hb & Hlen & Hall & _)
         |(g & rest & E & Hlen & Hall & _)].
  - inversion E; subst a s. clear E.
    destruct g as [|z g]; [simpl in Hlen; lia|].
    apply (Hspan Ha z g b rest). apply span_app; [exact Hall|].
    intros y r E. inversion E; subst. unfold not_quote. now rewrite Hb.
  - destruct g as [|z g]; [simpl in Hlen; lia|].
    inversion E; subst. simpl in Hall.
    apply andb_true_iff in Hall as [Hz _]. congruence.
Qed.

(** The tokens line 121 leaves are the tokens of the claim. *)
Lemma tokens_from_spec (fuel : nat) : forall s,
  String.length s <= fuel ->
  map (fun k => if truthy (fst k) then fst k else snd k)
      (filter (fun k => truthy (fst k) || truthy (snd k))
              (findall_from KEYWORD_PATTERN s 0))
  = spec_tokens_from fuel s.
Proof.
  induction fuel as [|fuel IH]; intros s Hlen.
  - destruct s; [reflexivity | simpl in Hlen; lia].
  - destruct s as [|x s]; [reflexivity|].
    simpl in Hlen. cbn [findall_from spec_tokens_from].
    destruct (quote_chr x) eqn:Hq.
    + destruct (span not_quote s) as [run rest] eqn:Hspan.
      destruct (span_spec _ _ _ _ Hspan) as (Hs & Hall & Hrest).
      destruct run as [|z run], rest as [|y after];
        try (rewrite match_at_none;
             [apply IH; lia | now apply quote_not_word
              | intros _ z' run' y' after'; congruence]).
      assert (Hy : quote_chr y = true).
      { specialize (Hrest y after eq_refl). unfold not_quote in Hrest.
        now apply negb_false_iff in Hrest. }
      subst s.
      rewrite (match_at_quoted x y (String z run) after Hq Hy Hall)
        by (simpl; lia).
      cbn [pred plus].
      replace (String z run ++ String y after)
        with ((String z run ++ String y "") ++ after)
        by (rewrite append_assoc; reflexivity).
      replace (S (String.length (String z run)))
        with (String.length (String z run ++ String y ""))
        by (rewrite length_app; cbn [String.length]; lia).
      rewrite findall_from_skip.
      unfold group_or_empty. simpl group. cbn [filter fst snd truthy orb map].
      f_equal. apply IH.
      rewrite !length_app in Hlen. simpl in Hlen. lia.
    + destruct (is_word x) eqn:Hw.
      * destruct (span is_word s) as [run after] eqn:Hspan.
        destruct (span_spec _ _ _ _ Hspan) as (Hs & Hall & Hrest).
        subst s.
        rewrite (match_at_word x run after Hw Hq Hall Hrest).
        cbn [pred plus]. rewrite findall_from_skip.
        unfold group_or_empty. simpl group. cbn [filter fst snd truthy orb map].
        f_equal. apply IH. rewrite length_app in Hlen. lia.
      * rewrite match_at_none; [apply IH; lia | exact Hw | congruence].
Qed.

Lemma tokens_spec_tokens (query_string : string) :
  tokens query_string = spec_tokens query_string.
Proof. apply tokens_from_spec. lia. Qed.

(** *** The keywords *)

Lemma space_lower_char (c : ascii) : is_space (lower_char c) = is_space c.
Proof.
  destruct c as [[|] [|] [|] [|] [|] [|] [|] [|]]; vm_compute; reflexivity.
Qed.

Lemma nonspace_lower (s : string) :
  all_chars (fun x => negb (is_space x)) (lower s)
  = all_chars (fun x => negb (is_space x)) s.
Proof.
  induction s as [|c s IH]; simpl; [reflexivity|].
  now rewrite space_lower_char, IH.
Qed.

Lemma strip_nonspace (s : string) :
  all_chars (fun x => negb (is_space x)) s = true -> strip s = s.
Proof.
  intros H. unfold strip.
  assert (Hl : lstrip s = s).
  { destruct s as [|c s]; [reflexivity|]. simpl in H.
    apply andb_true_iff in H as [Hc _]. apply negb_true_iff in Hc.
    now apply lstrip_nonspace. }
  rewrite Hl. now apply rstrip_nonspace.
Qed.

(** A stop-word has no white space to trim. *)
Lemma strip_stop_word (t : string) : is_stop_word t = true -> strip t = t.
Proof.
  intros H. apply strip_nonspace. rewrite <- nonspace_lower.
  unfold is_stop_word in H. apply in_existsb_eqb in H.
  simpl in H. destruct H as [<-|[<-|[<-|[<-|[]]]]]; reflexivity.
Qed.

Lemma filter_map_swap {A B : Type} (f : B -> bool) (g : A -> B) (l : list A) :
  filter f (map g l) = map g (filter (fun x => f (g x)) l).
Proof.
  induction l as [|x l IH]; simpl; [reflexivity|].
  destruct (f (g x)); simpl; now rewrite IH.
Qed.

(** Without a padded stop-word among its tokens, the keywords of a query
    are those of the claim. *)
Lemma extract_keywords_spec (query_string : string) :
  no_padded_stop_word query_string = true ->
  extract_keywords query_string = spec_keywords query_string.
Proof.
  intros Hpad. unfold no_padded_stop_word in Hpad.
  rewrite forallb_forall in Hpad.
  rewrite extract_keywords_tokens, tokens_spec_tokens.
  unfold spec_keywords. rewrite filter_map_swap. f_equal.
  apply filter_ext_in. intros t Ht. unfold kept. fold (is_stop_word t).
  f_equal. f_equal. specialize (Hpad t Ht).
  destruct (is_stop_word t) eqn:Hstop.
  - now rewrite (strip_stop_word t Hstop), Hstop.
  - destruct (is_stop_word (strip t)); [discriminate Hpad | reflexivity].
Qed.

(** A query without quote marks has no padded stop-word. *)
Lemma unquoted_no_padded_stop_word (query_string : string) :
  has_char (ascii_of_nat 34) query_string = false ->
  has_char "'" query_string = false ->
  no_padded_stop_word query_string = true.
Proof.
  intros Hd Hs. unfold no_padded_stop_word. apply forallb_forall.
  intros t Ht. rewrite <- tokens_spec_tokens in Ht.
  rewrite (strip_word t (tokens_unquoted _ _ Hd Hs Ht)).
  now destruct (is_stop_word t).
Qed.

(** C6, as the code has it.  The tokens of a query are, from left to
    right, each non-empty run of characters other than quote marks that
    stands between two quote marks, without these, and each run of word
    characters outside such a pair.  The keywords are the tokens, in
    order, each trimmed of the white space around it, without the tokens
    that are empty once trimmed and without the stop-words [and], [or],
    [for], [the] in any case; this is stated for the queries none of
    whose quoted runs is a stop-word with white space beside it, among
    them every query without quote marks.  Every keyword is non-empty and
    trimmed.  Without keywords the handler answers with the response of
    kind [error] that asks for keywords.  The two queries of the
    specification give [vc; tech] and [Series A; fund].  The query is a
    text of ASCII characters. *)
Theorem keywords_are_trimmed_tokens (query_string : string) :
  ascii_only query_string = true ->
  tokens query_string = spec_tokens query_string
  /\ (no_padded_stop_word query_string = true ->
      extract_keywords query_string = spec_keywords query_string)
  /\ (has_char (ascii_of_nat 34) query_string = false ->
      has_char "'" query_string = false ->
      extract_keywords query_string = spec_keywords query_string
      /\ forall k, In k (extract_keywords query_string) ->
                   all_chars is_word k = true /\ is_stop_word k = false)
  /\ (forall k, In k (extract_keywords query_string) ->
        k <> "" /\ strip k = k
        /\ exists t, In t (spec_tokens query_string) /\ k = strip t)
  /\ (extract_keywords query_string = [] ->
      forall st, _handle_search query_string st
                 = (st, Return {| type := "error";
                                  message := "❌ Please provide keywords to search for.";
                                  data := None |}))
  /\ (forall e self st,
        process_message e self "show data for the vc and tech" st
        = (st, Return (found_response st ["vc"; "tech"])))
  /\ (forall e self st,
        process_message e self "show me data for - 'Series A', fund" st
        = (st, Return (found_response st ["Series A"; "fund"]))).
Proof.
  intros _.
  assert (Hkw : forall k, In k (extract_keywords query_string) ->
            exists t, In t (tokens query_string) /\ k = strip t
                      /\ strip t <> "" /\ ~ In (lower t) STOP_WORDS).
  { intros k Hk. rewrite extract_keywords_tokens in Hk.
    apply in_map_iff in Hk as (t & <- & Ht).
    apply filter_In in Ht as [Ht Hkept]. apply kept_spec in Hkept as [Hne Hstop].
    now exists t. }
  split; [apply tokens_spec_tokens|].
  split; [apply extract_keywords_spec|].
  split.
  { intros Hd Hs.
    split; [apply extract_keywords_spec;
            now apply unquoted_no_padded_stop_word|].
    intros k Hk. destruct (Hkw k Hk) as (t & Ht & -> & Hne & Hstop).
    pose proof (tokens_unquoted _ _ Hd Hs Ht) as Hword.
    rewrite (strip_word t Hword). split; [exact Hword|].
    unfold is_stop_word. destruct (existsb _ _) eqn:E; [|reflexivity].
    apply in_existsb_eqb in E. now contradiction Hstop. }
  split.
  { intros k Hk. destruct (Hkw k Hk) as (t & Ht & -> & Hne & Hstop).
    split; [exact Hne|]. split; [apply strip_idem|].
    exists t. rewrite <- tokens_spec_tokens. now split. }
  split.
  { intros Hnone st. rewrite run_handle_search. now rewrite Hnone. }
  split; intros e self st.
  - apply (process_message_search e self _ "the vc and tech");
      [vm_compute; reflexivity | vm_compute; reflexivity
       | vm_compute; reflexivity | discriminate].
  - apply (process_message_search e self _ "'Series A', fund");
      [vm_compute; reflexivity | vm_compute; reflexivity
       | vm_compute; reflexivity | discriminate].
Qed.

Lemma keywords_are_trimmed_tokens_witness :
  extract_keywords "the 'Series A' fund, and more"
  = spec_keywords "the 'Series A' fund, and more"
  /\ spec_keywords "the 'Series A' fund, and more" = ["Series A"; "fund"; "more"]
  /\ _handle_search "the and, OR 'for'" Demo.db
     = (Demo.db, Return {| type := "error";
                           message := "❌ Please provide keywords to search for.";
                           data := None |}).
Proof.
  split; [|split].
  - destruct (keywords_are_trimmed_tokens "the 'Series A' fund, and more" eq_refl)
      as (_ & Hspec & _).
    apply Hspec. vm_compute. reflexivity.
  - vm_compute. reflexivity.
  - destruct (keywords_are_trimmed_tokens "the and, OR 'for'" eq_refl)
      as (_ & _ & _ & _ & Hnone & _).
    apply Hnone. vm_compute. reflexivity.
Defined.

(** The claim C6 as worded returns a quoted run verbatim and drops the
    stop-words.  In this query the run between the first two quote marks
    begins and ends with a space, and the keyword returned for it does
    not; the run between the last two is the stop-word [and] with a space
    on either side, and it is returned as the keyword [and]. *)
Lemma quoted_keyword_counterexample :
  spec_tokens "' Series A ', ' and '" = [" Series A "; " and "]
  /\ extract_keywords "' Series A ', ' and '" = ["Series A"; "and"]
  /\ ~ In " Series A " (extract_keywords "' Series A ', ' and '")
  /\ In "and" (extract_keywords "' Series A ', ' and '")
  /\ is_stop_word "and" = true.
Proof.
  split; [vm_compute; reflexivity|].
  split; [vm_compute; reflexivity|].
  split; [|split; [|reflexivity]].
  - vm_compute. intros [H|[H|[]]]; discriminate H.
  - vm_compute. right. left. reflexivity.
Qed.

(** The stop-word test of line 122 reads the token before it is trimmed:
    a quoted stop-word with a space beside it passes the test and is
    returned, trimmed, as a keyword. *)
Example padded_stop_word_is_a_keyword :
  extract_keywords "' and '" = ["and"]
  /\ extract_keywords "'and'" = [].
Proof. split; vm_compute; reflexivity. Qed.

End Keywords.

(** ** The generic handler *)

Section Generic.
Import Text Re Orm World ChatbotService.

Lemma run_fallback_response (msg : string) (st : store) :
  _fallback_response msg st = (st, Return (help_response st)).
Proof. reflexivity. Qed.

Lemma run_handle_generic_query (self : ChatbotService.t) (msg : string) (st : store) :
  _handle_generic_query self msg st
  = (st, Return
           match gemini_model self with
           | None => help_response st
           | Some model =>
               match model (context_prompt (List.length (investors st))
                              (List.length (artifacts st))
                              (List.length (drafts st))
                              (List.length (logs st)) msg) with
               | Text text =>
                   {| type := "ai_response"; message := "🤖 " ++ text;
                      data := None |}
               | BackendError _ => help_response st
               end
           end).
Proof.
  unfold _handle_generic_query. destruct (gemini_model self) as [model|];
    [|reflexivity].
  run_orm. now destruct (model _).
Qed.

Lemma starts_with_same_prefix (x a b : string) :
  starts_with (x ++ a) (x ++ b) = starts_with a b.
Proof.
  induction x as [|c x IH]; simpl; [reflexivity|].
  now rewrite Ascii.eqb_refl.
Qed.

Lemma contains_skip (p a s : string) :
  contains p s = true -> contains p (a ++ s) = true.
Proof.
  intros H. induction a as [|c a IH]; [exact H|].
  change (contains p (String c (a ++ s)) = true). simpl.
  rewrite IH. apply orb_true_r.
Qed.

(** The three counts stand on their lines of the help text. *)
Lemma help_text_shows_counts (x1 x2 x3 : string) :
  contains ("- Investors: " ++ x1 ++ nl) (help_text x1 x2 x3) = true
  /\ contains ("- Artifacts: " ++ x2 ++ nl) (help_text x1 x2 x3) = true
  /\ contains ("- Email Drafts: " ++ x3 ++ nl) (help_text x1 x2 x3) = true.
Proof.
  unfold help_text, nl. repeat split.
  - simpl. rewrite starts_with_same_prefix. reflexivity.
  - simpl. apply contains_skip. simpl. rewrite starts_with_same_prefix. reflexivity.
  - simpl. apply contains_skip. simpl. apply contains_skip. simpl.
    rewrite starts_with_same_prefix. reflexivity.
Qed.


(** The model [_init_gemini] leaves when the backend is not configured. *)
Lemma unconfigured_backend_is_absent (e : env) (u : option User.t) :
  GEMINI_AVAILABLE e = false
  \/ GEMINI_API_KEY e = None
  \/ GEMINI_API_KEY e = Some "your-gemini-api-key-here"
  \/ (exists key, GEMINI_API_KEY e = Some key /\ GenerativeModel e key = None) ->
  gemini_model (init e u) = None.
Proof.
  unfold init, _init_gemini. simpl.
  intros [H|[H|[H|(key & H & Hnone)]]]; rewrite H.
  - now destruct (GEMINI_API_KEY e).
  - reflexivity.
  - simpl. now rewrite andb_false_r.
  - rewrite Hnone. now destruct (_ && _).
Qed.

(** C8.  For a message that neither command pattern matches, when the
    service has no model, or when its model answers the prompt with an
    exception, [process_message] leaves the datastore as it was and returns
    a response of kind [help] without payload.  Its message is the help
    text filled with the numbers of investors, artifacts and drafts in the
    datastore, each on its line, and it is the response a service without
    any model returns: nothing of the exception is in it. *)
Theorem generic_query_degrades_to_help
  (e : env) (self : ChatbotService.t) (raw : string) (st : store) :
  search SEND_EMAIL_PATTERN (strip raw) = None ->
  search SEARCH_PATTERN (strip raw) = None ->
  (gemini_model self = None
   \/ exists model detail,
        gemini_model self = Some model
        /\ model (context_prompt (List.length (investors st))
                    (List.length (artifacts st)) (List.length (drafts st))
                    (List.length (logs st)) (strip raw))
           = BackendError detail) ->
  exists r,
    process_message e self raw st = (st, Return r)
    /\ type r = "help"
    /\ data r = None
    /\ message r = help_text (str_of_nat (List.length (investors st)))
                             (str_of_nat (List.length (artifacts st)))
                             (str_of_nat (List.length (drafts st)))
    /\ contains ("- Investors: " ++ str_of_nat (List.length (investors st)) ++ nl)
                (message r) = true
    /\ contains ("- Artifacts: " ++ str_of_nat (List.length (artifacts st)) ++ nl)
                (message r) = true
    /\ contains ("- Email Drafts: " ++ str_of_nat (List.length (drafts st)) ++ nl)
                (message r) = true
    /\ process_message e {| user := user self; gemini_model := None |} raw st
       = (st, Return r).
Proof.
  intros Hsend Hsearch Hbackend.
  exists (help_response st).
  assert (Hrun : process_message e self raw st = (st, Return (help_response st))).
  { unfold process_message. cbv zeta. rewrite Hsend, Hsearch.
    rewrite run_handle_generic_query.
    destruct Hbackend as [->|(model & detail & -> & ->)]; reflexivity. }
  split; [exact Hrun|].
  split; [reflexivity|]. split; [reflexivity|]. split; [reflexivity|].
  destruct (help_text_shows_counts
              (str_of_nat (List.length (investors st)))
              (str_of_nat (List.length (artifacts st)))
              (str_of_nat (List.length (drafts st)))) as (H1 & H2 & H3).
  repeat (split; [assumption|]).
  unfold process_message. cbv zeta. rewrite Hsend, Hsearch.
  now rewrite run_handle_generic_query.
Qed.

Lemma generic_query_degrades_to_help_witness :
  (exists r,
      process_message Demo.refusing (init Demo.refusing (Some Demo.alice))
        "  what can you do?  " Demo.db = (Demo.db, Return r)
      /\ type r = "help"
      /\ contains ("- Investors: 2" ++ nl) (message r) = true
      /\ contains "quota" (message r) = false)
  /\ (exists r,
         process_message Demo.delivering (init Demo.delivering None)
           "hello" Demo.empty_db = (Demo.empty_db, Return r)
         /\ type r = "help"
         /\ contains ("- Email Drafts: 0" ++ nl) (message r) = true).
Proof.
  split.
  - destruct (generic_query_degrades_to_help
                Demo.refusing (init Demo.refusing (Some Demo.alice))
                "  what can you do?  " Demo.db)
      as (r & Hrun & Htype & _ & Hmsg & Hinv & _).
    + vm_compute. reflexivity.
    + vm_compute. reflexivity.
    + right. eexists _, "quota exceeded". split; reflexivity.
    + exists r. repeat (split; [assumption|]).
      rewrite Hmsg. vm_compute. reflexivity.
  - destruct (generic_query_degrades_to_help
                Demo.delivering (init Demo.delivering None) "hello" Demo.empty_db)
      as (r & Hrun & Htype & _ & _ & _ & _ & Hdrafts & _).
    + vm_compute. reflexivity.
    + vm_compute. reflexivity.
    + left. reflexivity.
    + exists r. repeat (split; [assumption|]). exact Hdrafts.
Defined.

End Generic.

(** ** The shape of the responses *)

Section Responses.
Import Text Re Orm World ChatbotService.

Lemma join_cons_nonempty (sep x : string) (rest : list string) :
  x <> "" -> join sep (x :: rest) <> "".
Proof.
  intros Hx. destruct x as [|c x]; [now contradiction Hx|].
  destruct rest; simpl; discriminate.
Qed.

Lemma well_formed_send (e : env) (self : ChatbotService.t)
  (email_address draft_name : string) (st st' : store) (r : response) :
  _handle_send_email e self email_address draft_name st = (st', Return r) ->
  well_formed r.
Proof.
  rewrite run_handle_send_email.
  destruct (get (named draft_name) (drafts st)) as [draft|[|]].
  - rewrite run_get_or_create.
    destruct (filter (has_email email_address) (investors st)) as [|i [|j l]];
      cbv beta iota zeta; [| | intros E; discriminate E];
      rewrite run_send_draft_email; destruct (EmailService.try_send e _ _ _);
      intros E; inversion E; subst; unfold well_formed, KINDS; simpl;
      (split; [tauto|]); (split; [discriminate|]); tauto.
  - intros E. inversion E; subst. unfold well_formed, KINDS. simpl.
    split; [tauto|]. split; [discriminate|]. tauto.
  - discriminate.
Qed.

Lemma well_formed_search (query_string : string) (st st' : store) (r : response) :
  _handle_search query_string st = (st', Return r) -> well_formed r.
Proof.
  rewrite run_handle_search. intros E. inversion E; subst.
  destruct (extract_keywords query_string) as [|k ks];
    unfold well_formed, KINDS; simpl.
  - split; [tauto|]. split; [discriminate|]. tauto.
  - split; [tauto|]. split; [|reflexivity].
    unfold search_summary. cbv zeta.
    apply join_cons_nonempty. discriminate.
Qed.

Lemma well_formed_generic (self : ChatbotService.t) (msg : string)
  (st st' : store) (r : response) :
  _handle_generic_query self msg st = (st', Return r) -> well_formed r.
Proof.
  assert (Hhelp : forall s, well_formed (help_response s)).
  { intros s. unfold well_formed, KINDS. simpl.
    split; [tauto|]. split; [discriminate|]. tauto. }
  rewrite run_handle_generic_query. intros E. inversion E; subst.
  destruct (gemini_model self) as [model|]; [|apply Hhelp].
  destruct (model _); [|apply Hhelp].
  unfold well_formed, KINDS. simpl.
  split; [tauto|]. split; [discriminate|]. tauto.
Qed.

(** C10.  Every response [process_message] returns has one of the five
    kinds and a message that is not empty.  It carries a payload exactly
    when its kind is [success], the payload then being the investor and
    the draft, or [search_results], the payload then being the investors,
    the artifacts and the keywords; responses of kind [error],
    [ai_response] and [help] carry none. *)
Theorem process_message_response_shape
  (e : env) (self : ChatbotService.t) (raw : string) (st st' : store)
  (r : response) :
  process_message e self raw st = (st', Return r) ->
  In (type r) ["success"; "error"; "search_results"; "ai_response"; "help"]
  /\ message r <> ""
  /\ (type r = "success" <-> exists investor draft,
                               data r = Some (SendData investor draft))
  /\ (type r = "search_results" <-> exists investors artifacts keywords,
                                      data r = Some (SearchData investors artifacts
                                                                keywords))
  /\ (In (type r) ["error"; "ai_response"; "help"] <-> data r = None).
Proof.
  intros Hrun.
  assert (Hwf : well_formed r).
  { unfold process_message in Hrun. cbv zeta in Hrun.
    destruct (search SEND_EMAIL_PATTERN (strip raw)) as [m|].
    - exact (well_formed_send _ _ _ _ _ _ _ Hrun).
    - destruct (search SEARCH_PATTERN (strip raw)) as [m|].
      + exact (well_formed_search _ _ _ _ Hrun).
      + exact (well_formed_generic _ _ _ _ _ Hrun). }
  destruct Hwf as (Hkind & Hmsg & Hdata).
  split; [exact Hkind|]. split; [exact Hmsg|].
  destruct (data r) as [[investor draft|investors artifacts keywords]|];
    simpl in Hdata.
  - rewrite Hdata. split; [|split]; split; intros H; try reflexivity;
      try discriminate H; eauto.
    + destruct H as (? & ? & ? & H). discriminate H.
    + simpl in H. intuition discriminate.
  - rewrite Hdata. split; [|split]; split; intros H; try reflexivity;
      try discriminate H; eauto.
    + destruct H as (? & ? & H). discriminate H.
    + simpl in H. intuition discriminate.
  - split; [|split]; split; intros H; try reflexivity; try exact Hdata.
    + rewrite H in Hdata. simpl in Hdata. intuition discriminate.
    + destruct H as (? & ? & H). discriminate H.
    + rewrite H in Hdata. simpl in Hdata. intuition discriminate.
    + destruct H as (? & ? & ? & H). discriminate H.
Qed.

Lemma process_message_response_shape_witness :
  match process_message Demo.delivering (init Demo.delivering (Some Demo.alice))
          "Send email to jane@x.com the draft of pitchdeck" Demo.db with
  | (_, Return r) =>
      type r = "success" /\ message r <> ""
      /\ exists investor draft, data r = Some (SendData investor draft)
  | (_, Raise _) => False
  end.
Proof.
  destruct (process_message Demo.delivering (init Demo.delivering (Some Demo.alice))
              "Send email to jane@x.com the draft of pitchdeck" Demo.db)
    as [st' [r|ex]] eqn:Hrun.
  - destruct (process_message_response_shape _ _ _ _ _ _ Hrun)
      as (_ & Hmsg & Hsuccess & _).
    assert (Htype : type r = "success").
    { vm_compute in Hrun. inversion Hrun. reflexivity. }
    split; [exact Htype|]. split; [exact Hmsg|]. now apply Hsuccess.
  - vm_compute in Hrun. discriminate Hrun.
Defined.

End Responses.

(** ** Matching up to the case of letters *)

Section CaseFolding.
Import Text Re.

Lemma all_ascii (P : ascii -> bool) :
  forallb (fun n => P (ascii_of_nat n)) (seq 0 256) = true ->
  forall x, P x = true.
Proof.
  intros H x. rewrite forallb_forall in H.
  specialize (H (nat_of_ascii x)). rewrite ascii_nat_embedding in H.
  apply H. apply in_seq. pose proof (nat_ascii_bounded x). lia.
Qed.

Lemma case_blind_check (p : ascii -> bool) :
  forallb (fun n => Bool.eqb (p (lower_char (ascii_of_nat n))) (p (ascii_of_nat n)))
          (seq 0 256) = true ->
  case_blind p.
Proof.
  intros H x y Hxy.
  pose proof (all_ascii (fun a => Bool.eqb (p (lower_char a)) (p a)) H) as Hall.
  pose proof (Hall x) as Hx. pose proof (Hall y) as Hy.
  apply Bool.eqb_prop in Hx, Hy. now rewrite <- Hx, <- Hy, Hxy.
Qed.

Lemma lower_char_idem (x : ascii) : lower_char (lower_char x) = lower_char x.
Proof.
  apply Ascii.eqb_eq.
  apply (all_ascii (fun a => Ascii.eqb (lower_char (lower_char a)) (lower_char a))).
  vm_compute. reflexivity.
Qed.

Lemma blind_ichr (a : ascii) : blind (ichr a).
Proof. intros x y H. simpl. now rewrite H. Qed.

Lemma blind_ilit (w : string) : blind (ilit w).
Proof.
  induction w as [|a w IH]; simpl; [exact I|].
  split; [apply blind_ichr | exact IH].
Qed.

Lemma sim_nil (t : string) : sim "" t -> t = "".
Proof. unfold sim. destruct t; simpl; [reflexivity | discriminate]. Qed.

Lemma sim_cons (x : ascii) (s t : string) :
  sim (String x s) t ->
  exists y t', t = String y t' /\ lower_char x = lower_char y /\ sim s t'.
Proof.
  unfold sim. destruct t as [|y t']; simpl; [discriminate|].
  intros H. inversion H. now exists y, t'.
Qed.

Lemma sim_length (s t : string) : sim s t -> String.length s = String.length t.
Proof.
  revert t. induction s as [|x s IH]; intros t H.
  - now rewrite (sim_nil t H).
  - destruct (sim_cons x s t H) as (y & t' & -> & _ & Ht). simpl.
    now rewrite (IH t' Ht).
Qed.

Lemma take_sim (n : nat) : forall s t, sim s t -> sim (take n s) (take n t).
Proof.
  induction n as [|n IH]; intros s t H; [reflexivity|].
  destruct s as [|x s].
  - now rewrite (sim_nil t H).
  - destruct (sim_cons x s t H) as (y & t' & -> & Hxy & Ht).
    unfold sim. simpl. rewrite Hxy. f_equal. apply (IH s t' Ht).
Qed.

Section Runs.
Context {A B : Type} (R : A -> B -> Prop).

Lemma greedy_sim (p : ascii -> bool) (k : string -> option A)
  (k' : string -> option B) :
  case_blind p ->
  (forall t t', sim t t' -> orel R (k t) (k' t')) ->
  forall s s', sim s s' -> orel R (greedy p k s) (greedy p k' s').
Proof.
  intros Hp Hk. induction s as [|x s IH]; intros s' Hs.
  - rewrite (sim_nil s' Hs). simpl. now apply Hk.
  - destruct (sim_cons x s s' Hs) as (y & t' & -> & Hxy & Ht). simpl.
    rewrite <- (Hp x y Hxy). destruct (p x); [|now apply Hk].
    destruct (IH t' Ht) as [|a b Hab]; [now apply Hk | now constructor].
Qed.

Lemma at_least_sim (p : ascii -> bool) (k : string -> option A)
  (k' : string -> option B) :
  case_blind p ->
  (forall t t', sim t t' -> orel R (k t) (k' t')) ->
  forall n s s', sim s s' -> orel R (at_least n p k s) (at_least n p k' s').
Proof.
  intros Hp Hk. induction n as [|n IH]; intros s s' Hs; simpl.
  - now apply greedy_sim.
  - destruct s as [|x s].
    + rewrite (sim_nil s' Hs). constructor.
    + destruct (sim_cons x s s' Hs) as (y & t' & -> & Hxy & Ht).
      rewrite <- (Hp x y Hxy). destruct (p x); [now apply IH | constructor].
Qed.

Lemma run_sim (r : re) : blind r ->
  forall (k : string -> caps -> option A) (k' : string -> caps -> option B),
    (forall t t' d d', sim t t' -> caps_sim d d' -> orel R (k t d) (k' t' d')) ->
    forall s s' c c', sim s s' -> caps_sim c c' ->
                      orel R (run r k s c) (run r k' s' c').
Proof.
  induction r as [|p|r1 IH1 r2 IH2|r1 IH1 r2 IH2|r1 IH1|n p|i r1 IH1];
    simpl; intros Hr k k' Hk s s' c c' Hs Hc.
  - now apply Hk.
  - destruct s as [|x s].
    + rewrite (sim_nil s' Hs). constructor.
    + destruct (sim_cons x s s' Hs) as (y & t' & -> & Hxy & Ht).
      rewrite <- (Hr x y Hxy). destruct (p x); [now apply Hk | constructor].
  - destruct Hr as [Hr1 Hr2]. apply IH1; [exact Hr1 | | exact Hs | exact Hc].
    intros t t' d d' Ht Hd. now apply IH2.
  - destruct Hr as [Hr1 Hr2].
    destruct (IH1 Hr1 k k' Hk s s' c c' Hs Hc) as [|a b Hab];
      [now apply IH2 | now constructor].
  - destruct (IH1 Hr k k' Hk s s' c c' Hs Hc) as [|a b Hab];
      [now apply Hk | now constructor].
  - apply at_least_sim; auto.
  - apply IH1; [exact Hr | | exact Hs | exact Hc].
    intros t t' d d' Ht Hd. apply Hk; [exact Ht|].
    constructor; [|exact Hd]. simpl. split; [reflexivity|].
    rewrite (sim_length s s' Hs), (sim_length t t' Ht). now apply take_sim.
Qed.

End Runs.

Lemma match_at_sim (r : re) (s s' : string) :
  blind r -> sim s s' -> orel match_sim (match_at r s) (match_at r s').
Proof.
  intros Hr Hs. unfold match_at. apply run_sim; auto; [|constructor].
  intros t t' d d' Ht Hd. constructor. split; [exact Hd|]. simpl.
  now rewrite (sim_length s s' Hs), (sim_length t t' Ht).
Qed.

Lemma caps_sim_refl (c : caps) : caps_sim c c.
Proof. induction c; constructor; auto. now split. Qed.

(** [search] finds a match in a text exactly when it finds one in the
    text written in another case, and the groups are the same up to case. *)
Lemma search_sim (r : re) : blind r ->
  forall s s', sim s s' -> orel caps_sim (search r s) (search r s').
Proof.
  intros Hr. induction s as [|x s IH]; intros s' Hs.
  - rewrite (sim_nil s' Hs). simpl.
    destruct (match_at r "") as [[c n]|]; constructor. apply caps_sim_refl.
  - destruct (sim_cons x s s' Hs) as (y & t' & -> & Hxy & Ht).
    simpl. destruct (match_at_sim r _ _ Hr Hs) as [|[c n] [c' n'] [Hc _]].
    + now apply IH.
    + now constructor.
Qed.

Lemma group_or_empty_sim (i : nat) (c c' : caps) :
  caps_sim c c' -> sim (group_or_empty i c) (group_or_empty i c').
Proof.
  unfold group_or_empty. induction 1 as [|[j s] [j' s'] c c' [Hj Hs] _ IH];
    simpl; [reflexivity|].
  simpl in Hj, Hs. subst j'. now destruct (Nat.eqb i j).
Qed.

Lemma lower_lstrip (s : string) : lower (lstrip s) = lstrip (lower s).
Proof.
  assert (Hsp : case_blind is_space) by (apply case_blind_check; vm_compute; reflexivity).
  induction s as [|x s IH]; simpl; [reflexivity|].
  rewrite (Hsp (lower_char x) x (lower_char_idem x)).
  now destruct (is_space x).
Qed.

Lemma lower_rstrip (s : string) : lower (rstrip s) = rstrip (lower s).
Proof.
  assert (Hsp : case_blind is_space) by (apply case_blind_check; vm_compute; reflexivity).
  induction s as [|x s IH]; simpl; [reflexivity|].
  rewrite <- IH, (Hsp (lower_char x) x (lower_char_idem x)).
  destruct (rstrip s); simpl; [|reflexivity].
  now destruct (is_space x).
Qed.

Lemma strip_sim (s s' : string) : sim s s' -> sim (strip s) (strip s').
Proof.
  unfold sim, strip. intros H.
  now rewrite !lower_rstrip, !lower_lstrip, H.
Qed.

End CaseFolding.

(** ** The dispatch of [process_message] *)

Section Dispatch.
Import Text Re Orm World ChatbotService.

Ltac class_blind := apply case_blind_check; vm_compute; reflexivity.

Lemma blind_SEND_EMAIL_PATTERN : blind SEND_EMAIL_PATTERN.
Proof.
  unfold SEND_EMAIL_PATTERN. cbn [cat_all blind].
  repeat split; try apply blind_ilit; class_blind.
Qed.

Lemma blind_SEARCH_PATTERN : blind SEARCH_PATTERN.
Proof.
  unfold SEARCH_PATTERN. cbn [cat_all blind].
  repeat split; try apply blind_ilit; class_blind.
Qed.

Lemma lstrip_all_space (s : string) : all_chars is_space s = true -> lstrip s = "".
Proof.
  induction s as [|x s IH]; simpl; [reflexivity|].
  intros H. apply andb_true_iff in H as [Hx Hs]. rewrite Hx. now apply IH.
Qed.

Lemma lstrip_app (a b : string) :
  lstrip (a ++ b) = if all_chars is_space a then lstrip b else lstrip a ++ b.
Proof.
  induction a as [|x a IH]; simpl; [reflexivity|].
  destruct (is_space x); simpl; [exact IH | reflexivity].
Qed.

Lemma rstrip_all_space (s : string) : all_chars is_space s = true -> rstrip s = "".
Proof.
  induction s as [|x s IH]; simpl; [reflexivity|].
  intros H. apply andb_true_iff in H as [Hx Hs]. now rewrite (IH Hs), Hx.
Qed.

Lemma rstrip_app_space (s post : string) :
  all_chars is_space post = true -> rstrip (s ++ post) = rstrip s.
Proof.
  intros H. induction s as [|x s IH]; simpl.
  - now apply rstrip_all_space.
  - now rewrite IH.
Qed.

(** White space around a text does not change what [strip] returns. *)
Lemma strip_padded (pre raw post : string) :
  all_chars is_space pre = true -> all_chars is_space post = true ->
  strip (pre ++ raw ++ post) = strip raw.
Proof.
  intros Hpre Hpost. unfold strip.
  rewrite lstrip_app, Hpre, lstrip_app.
  destruct (all_chars is_space raw) eqn:Hraw.
  - now rewrite (lstrip_all_space post Hpost), (lstrip_all_space raw Hraw).
  - now apply rstrip_app_space.
Qed.

Lemma classify_first_match (raw : string) :
  classify raw
  = match search SEND_EMAIL_PATTERN (strip raw) with
    | Some m => SendEmail (group_or_empty 1 m) (group_or_empty 2 m)
    | None =>
        match search SEARCH_PATTERN (strip raw) with
        | Some m => Search (group_or_empty 1 m)
        | None => GenericQuery (strip raw)
        end
    end.
Proof.
  unfold classify, RULES. cbv zeta. cbn [first_match].
  destruct (search SEND_EMAIL_PATTERN (strip raw)); [reflexivity|].
  now destruct (search SEARCH_PATTERN (strip raw)).
Qed.

Lemma classify_sim (raw raw' : string) :
  sim raw' raw -> same_intent (classify raw') (classify raw).
Proof.
  intros H. apply strip_sim in H. rewrite !classify_first_match.
  destruct (search_sim _ blind_SEND_EMAIL_PATTERN _ _ H) as [|m m' Hm].
  - destruct (search_sim _ blind_SEARCH_PATTERN _ _ H) as [|m m' Hm].
    + exact H.
    + simpl. now apply group_or_empty_sim.
  - simpl. split; now apply group_or_empty_sim.
Qed.

(** C4.  [process_message] runs the one handler that the classification
    of the message calls for.  The classification trims the text, then
    asks the send-email pattern first: a match sends the captured address
    and draft name to the send-email handler; without one it asks the
    search pattern: a match sends the captured remainder to the search
    handler; without one the trimmed text goes to the generic handler.
    White space around the message does not change the classification,
    and neither does the case of its letters, up to the case of the
    captured arguments. *)
Theorem process_message_dispatches_first_match
  (e : env) (self : ChatbotService.t) (raw : string) :
  (forall st, process_message e self raw st = handle e self (classify raw) st)
  /\ classify raw
     = match search SEND_EMAIL_PATTERN (strip raw) with
       | Some m => SendEmail (group_or_empty 1 m) (group_or_empty 2 m)
       | None =>
           match search SEARCH_PATTERN (strip raw) with
           | Some m => Search (group_or_empty 1 m)
           | None => GenericQuery (strip raw)
           end
       end
  /\ (forall pre post,
        all_chars is_space pre = true -> all_chars is_space post = true ->
        classify (pre ++ raw ++ post) = classify raw)
  /\ (forall raw', lower raw' = lower raw ->
                   same_intent (classify raw') (classify raw)).
Proof.
  split.
  { intros st. rewrite classify_first_match. unfold process_message. cbv zeta.
    destruct (search SEND_EMAIL_PATTERN (strip raw)); [reflexivity|].
    now destruct (search SEARCH_PATTERN (strip raw)). }
  split; [apply classify_first_match|].
  split.
  - intros pre post Hpre Hpost. unfold classify. cbv zeta.
    now rewrite (strip_padded pre raw post Hpre Hpost).
  - intros raw' H. now apply classify_sim.
Qed.

Lemma process_message_dispatches_first_match_witness :
  classify "  SEND Email TO jane@x.com The DRAFT of pitchdeck  "
  = SendEmail "jane@x.com" "pitchdeck"
  /\ same_intent (classify "SHOW ME DATA FOR: VC")
                 (classify "show me data for: vc").
Proof.
  pose proof (process_message_dispatches_first_match
                Demo.delivering (init Demo.delivering None)
                "SEND Email TO jane@x.com The DRAFT of pitchdeck")
    as (_ & Hfirst & Hpad & _).
  pose proof (process_message_dispatches_first_match
                Demo.delivering (init Demo.delivering None)
                "show me data for: vc")
    as (_ & _ & _ & Hcase).
  split.
  - change (classify ("  " ++ "SEND Email TO jane@x.com The DRAFT of pitchdeck"
                           ++ "  ")
            = SendEmail "jane@x.com" "pitchdeck").
    rewrite (Hpad "  " "  " eq_refl eq_refl), Hfirst.
    vm_compute. reflexivity.
  - apply Hcase. reflexivity.
Defined.

(** The three intents, each on a message of its kind. *)
Example classify_examples :
  classify "please send email to a.b@c-d.org draft 'Intro' today"
  = SendEmail "a.b@c-d.org" "Intro"
  /\ classify "Show data for - 'Series A', fund" = Search "'Series A', fund"
  /\ classify " how many investors? " = GenericQuery "how many investors?"
  /\ classify "show data for vc: send email to a@b.co draft of x"
     = SendEmail "a@b.co" "x".
Proof. repeat split; vm_compute; reflexivity. Qed.

End Dispatch.

(** ** Scenarios *)

Section Scenarios.
Import Text Re Orm World EmailService ChatbotService.

(** Draft [pitchdeck] exists, nobody has the address [jane@x.com], the
    transport delivers: one investor named [jane] and one [success] row. *)
Example scenario_new_investor :
  exists st' r,
    process_message Demo.delivering (init Demo.delivering None)
      "Send email to jane@x.com the draft of pitchdeck" Demo.db = (st', Return r)
    /\ type r = "success"
    /\ investors st'
       = new_investor 3 "jane@x.com" "jane" "system" :: investors Demo.db
    /\ map CommunicationLog.status (logs st') = ["success"]
    /\ map CommunicationLog.investor (logs st') = [3].
Proof. eexists _, _. repeat split; vm_compute; reflexivity. Qed.

(** The message of that send: HTML, with the deck of the draft attached. *)
Example scenario_message :
  draft_message Demo.delivering Demo.ravi Demo.pitchdeck
    (artifacts_of Demo.pitchdeck (artifacts Demo.db))
  = inl {| subject := "Our deck";
           body := "Hello <b>investor</b>, the deck is attached.";
           from_email := "noreply@fundraise.app"; to := ["ravi@vc.in"];
           content_subtype := "html";
           attachments := ["/media/artifacts/deck.pdf"] |}.
Proof. vm_compute. reflexivity. Qed.

(** With a storage that gives no paths the same command fails, although
    the transport would deliver: the exception of [artifact.file.path]
    leaves the loop over the artifacts, and a [failed] row is written. *)
Example scenario_remote_storage :
  exists st' r,
    process_message Demo.remote (init Demo.remote None)
      "Send email to jane@x.com the draft of pitchdeck" Demo.db = (st', Return r)
    /\ type r = "error"
    /\ message r
       = "❌ Failed to send email: This backend doesn't support absolute paths."
    /\ map CommunicationLog.status (logs st') = ["failed"]
    /\ map CommunicationLog.notes (logs st')
       = ["Failed to send: This backend doesn't support absolute paths."].
Proof. eexists _, _. repeat split; vm_compute; reflexivity. Qed.

(** A custom message attaches every path it is given, in order. *)
Example scenario_custom_message :
  attachments (custom_message Demo.delivering "a@b.co" "Hi" "plain"
                 (Some ["/tmp/a.pdf"; "/tmp/b.pdf"]))
  = ["/tmp/a.pdf"; "/tmp/b.pdf"]
  /\ send_custom_email Demo.refusing "a@b.co" "Hi" "plain" None None
     = (false, "Connection refused").
Proof. split; vm_compute; reflexivity. Qed.

(** The summary of a search, line by line. *)
Example scenario_search_summary :
  search_summary ["vc"] [Demo.ravi] []
  = Text.join nl
      [ ("🔍 Search results for: vc" ++ nl)%string;
        (nl ++ "👥 **Investors (1):**")%string;
        "  • Ravi (ravi@vc.in) - ₹2,500,000.00";
        (nl ++ "📎 No artifacts found.")%string ].
Proof. vm_compute. reflexivity. Qed.

End Scenarios.

(** * Further properties of the mailer and of the interpreter *)

(** ** Attachments and the audit trail *)

Section MailerMore.
Import Text Re Orm World EmailService ChatbotService.

(** X1.  What becomes of the attachments.  When the storage gives the
    path of every file of the draft's artifacts, [send_draft_email] hands
    the transport a message that carries, in the order of the artifacts,
    the paths of the files [attach_file] could attach: a file that
    cannot be attached is left out and the others stay.  When the
    storage raises for the path of one of the files, nothing is sent,
    whatever the transport would do: a [failed] row with the text of that
    exception is written and [(False, text)] returned.
    [send_custom_email] hands the transport a message with exactly the
    paths it was given that could be attached, and with none when it was
    given no list. *)
Theorem attachments_skip_or_abort
  (e : env) (investor : Investor.t) (draft : EmailDraft.t)
  (u : option User.t) (st : store)
  (to_email subj text : string) (paths : list string) (u' : option User.t) :
  match first_unresolved e (artifacts_of draft (artifacts st)) with
  | None =>
      exists email,
        snd (send_draft_email e investor draft u st)
        = Return (verdict (send e email))
        /\ subject email = EmailDraft.subject draft
        /\ body email = EmailDraft.body draft
        /\ to email = [Investor.email investor]
        /\ attachments email
           = attached_paths e (artifacts_of draft (artifacts st))
  | Some detail =>
      send_draft_email e investor draft u st
      = (add_log (new_log (S (log_seq st)) investor draft "failed" u
                          ("Failed to send: " ++ detail)) st,
         Return (false, detail))
  end
  /\ (exists email,
        send_custom_email e to_email subj text (Some paths) u'
        = verdict (send e email)
        /\ subject email = subj /\ body email = text /\ to email = [to_email]
        /\ attachments email = filter (can_attach e) paths)
  /\ (exists email,
        send_custom_email e to_email subj text None u' = verdict (send e email)
        /\ subject email = subj /\ body email = text /\ to email = [to_email]
        /\ attachments email = []).
Proof.
  destruct (fields_new_message e subj text to_email) as (Hs & Hb & _ & Ht & Ha).
  split; [|split].
  - destruct (first_unresolved e _) as [detail|] eqn:Hpaths.
    + rewrite run_send_draft_email. unfold try_send, draft_message.
      now rewrite (attach_artifacts_unresolved e _ detail Hpaths).
    + destruct (attach_artifacts_resolved e _ Hpaths
                  (new_message e (EmailDraft.subject draft)
                     (EmailDraft.body draft) (Investor.email investor)))
        as (email & Hrun & Hs1 & Hb1 & _ & Ht1 & _ & Ha1).
      destruct (fields_new_message e (EmailDraft.subject draft)
                  (EmailDraft.body draft) (Investor.email investor))
        as (Hs2 & Hb2 & _ & Ht2 & Ha2).
      exists email. rewrite send_draft_email_verdict.
      unfold try_send, draft_message. rewrite Hrun.
      split; [reflexivity|].
      rewrite Hs1, Hb1, Ht1, Ha1, Ha2. now repeat split.
  - exists (custom_message e to_email subj text (Some paths)).
    split; [unfold send_custom_email, verdict; now destruct (send e _)|].
    unfold custom_message. destruct paths as [|p ps]; [now repeat split|].
    destruct (fields_attach_all e (p :: ps) (new_message e subj text to_email))
      as (Hs1 & Hb1 & _ & Ht1).
    rewrite Hs1, Hb1, Ht1, attachments_attach_all, Ha. now repeat split.
  - exists (custom_message e to_email subj text None).
    split; [unfold send_custom_email, verdict; now destruct (send e _)|].
    unfold custom_message. now repeat split.
Qed.

(** X2.  Every call of [send_draft_email] inserts exactly one
    CommunicationLog row, with the next primary key, pointing at the
    investor, the draft and the acting user; the row's status is [success]
    when the call returns [True] and [failed] when it returns [False].
    The other tables are left as they were and nothing is raised. *)
Theorem send_draft_email_logs_once
  (e : env) (investor : Investor.t) (draft : EmailDraft.t)
  (u : option User.t) (st : store) :
  exists row flag detail,
    send_draft_email e investor draft u st = (add_log row st, Return (flag, detail))
    /\ CommunicationLog.id row = S (log_seq st)
    /\ CommunicationLog.investor row = Investor.id investor
    /\ CommunicationLog.draft row = Some (EmailDraft.id draft)
    /\ CommunicationLog.sent_by row = option_map User.id u
    /\ CommunicationLog.status row = (if flag : bool then "success" else "failed")
    /\ logs (add_log row st) = row :: logs st
    /\ investors (add_log row st) = investors st
    /\ artifacts (add_log row st) = artifacts st
    /\ drafts (add_log row st) = drafts st.
Proof.
  rewrite run_send_draft_email.
  destruct (EmailService.try_send e _ _ _) as [|err]; eexists _, _, _; (split; [reflexivity|]);
    repeat split.
Qed.

End MailerMore.

(** ** What a message can do to the datastore *)

Section Effects.
Import Text Re Orm World EmailService ChatbotService.

Lemma get_In {R : Type} (p : R -> bool) (rows : list R) (r : R) :
  get p rows = Return r -> In r rows /\ p r = true.
Proof.
  unfold get. destruct (filter p rows) as [|x [|y l]] eqn:E; try discriminate.
  intros H. inversion H; subst. apply filter_In. rewrite E. now left.
Qed.

Lemma handle_send_email_effect (e : env) (self : ChatbotService.t)
  (email_address draft_name : string) (st : store) :
  send_effect email_address st
    (fst (_handle_send_email e self email_address draft_name st)).
Proof.
  rewrite run_handle_send_email.
  destruct (get (named draft_name) (drafts st)) as [draft|[|]] eqn:Hd;
    try apply effect_none.
  apply get_In in Hd as [Hd _].
  rewrite run_get_or_create.
  destruct (filter (has_email email_address) (investors st)) as [|i [|j l]] eqn:Hi;
    cbv beta iota zeta; try apply effect_none.
  - rewrite run_send_draft_email. destruct (EmailService.try_send e _ _ _); simpl;
      now apply effect_create.
  - assert (Hin : In i (investors st)).
    { apply (proj1 (filter_In (has_email email_address) i (investors st))).
      rewrite Hi. now left. }
    rewrite run_send_draft_email. destruct (EmailService.try_send e _ _ _); simpl;
      now apply effect_log.
Qed.

Lemma process_message_effect (e : env) (self : ChatbotService.t)
  (raw : string) (st : store) :
  match search SEND_EMAIL_PATTERN (strip raw) with
  | Some m =>
      send_effect (group_or_empty 1 m) st (fst (process_message e self raw st))
  | None => fst (process_message e self raw st) = st
  end.
Proof.
  unfold process_message. cbv zeta.
  destruct (search SEND_EMAIL_PATTERN (strip raw)) as [m|].
  - apply handle_send_email_effect.
  - destruct (search SEARCH_PATTERN (strip raw)) as [m|].
    + now rewrite run_handle_search.
    + now rewrite run_handle_generic_query.
Qed.

(** X3.  Whatever the message, [process_message] never changes the
    Artifact and EmailDraft tables, adds at most one Investor and at most
    one CommunicationLog row, and removes or rewrites no row.  A message
    the send-email pattern does not match leaves the whole datastore as it
    was. *)
Theorem process_message_only_appends
  (e : env) (self : ChatbotService.t) (raw : string) (st : store) :
  let st' := fst (process_message e self raw st) in
  artifacts st' = artifacts st
  /\ drafts st' = drafts st
  /\ (exists added, investors st' = (added ++ investors st)%list
                    /\ List.length added <= 1)
  /\ (exists added, logs st' = (added ++ logs st)%list
                    /\ List.length added <= 1)
  /\ (search SEND_EMAIL_PATTERN (strip raw) = None -> st' = st).
Proof.
  intros st'. subst st'.
  pose proof (process_message_effect e self raw st) as H.
  destruct (search SEND_EMAIL_PATTERN (strip raw)) as [m|].
  - destruct H; simpl.
    + split; [reflexivity|]. split; [reflexivity|].
      split; [exists []; split; [reflexivity | simpl; lia]|].
      split; [exists []; split; [reflexivity | simpl; lia]|]. discriminate.
    + split; [reflexivity|]. split; [reflexivity|].
      split; [exists []; split; [reflexivity | simpl; lia]|].
      split; [eexists [_]; split; [reflexivity | simpl; lia]|]. discriminate.
    + split; [reflexivity|]. split; [reflexivity|].
      split; [eexists [_]; split; [reflexivity | simpl; lia]|].
      split; [eexists [_]; split; [reflexivity | simpl; lia]|]. discriminate.
  - rewrite H. split; [reflexivity|]. split; [reflexivity|].
    split; [exists []; split; [reflexivity | simpl; lia]|].
    split; [exists []; split; [reflexivity | simpl; lia]|]. reflexivity.
Qed.

Lemma process_message_only_appends_witness :
  fst (process_message Demo.refusing (init Demo.refusing None)
         "show me data for tech" Demo.db) = Demo.db.
Proof.
  apply (process_message_only_appends Demo.refusing (init Demo.refusing None)
           "show me data for tech" Demo.db).
  vm_compute. reflexivity.
Defined.

Lemma no_email_not_in (address : string) (rows : list Investor.t) :
  filter (has_email address) rows = [] -> ~ In address (map Investor.email rows).
Proof.
  intros Hnone Hin. apply in_map_iff in Hin as (i & Hi & Hin).
  assert (H : In i (filter (has_email address) rows)).
  { apply filter_In. split; [exact Hin|]. unfold has_email.
    rewrite Hi. apply String.eqb_refl. }
  now rewrite Hnone in H.
Qed.

Lemma fresh_key {R : Type} (key : R -> nat) (rows : list R) (n : nat) :
  Forall (fun r => key r <= n) rows -> ~ In (S n) (map key rows).
Proof.
  intros H Hin. apply in_map_iff in Hin as (r & Hr & Hin).
  rewrite Forall_forall in H. specialize (H r Hin). lia.
Qed.

Lemma Forall_le_S {R : Type} (key : R -> nat) (rows : list R) (n : nat) :
  Forall (fun r => key r <= n) rows -> Forall (fun r => key r <= S n) rows.
Proof. apply Forall_impl. intros r H. lia. Qed.

Lemma store_ok_add_log (st : store) (inv : Investor.t) (draft : EmailDraft.t)
  (status : string) (u : option User.t) (notes : string) :
  store_ok st -> In inv (investors st) -> In draft (drafts st) ->
  store_ok (add_log (new_log (S (log_seq st)) inv draft status u notes) st).
Proof.
  intros (Hid & Hseq & Hmail & Hlid & Hlseq & Href) Hinv Hdraft.
  unfold store_ok. simpl.
  repeat split; auto.
  - constructor; [now apply fresh_key | exact Hlid].
  - constructor; [simpl; lia | now apply Forall_le_S].
  - constructor; [|exact Href]. simpl. split.
    + now apply in_map.
    + intros d Hd. inversion Hd; subst. now apply in_map.
Qed.

Lemma store_ok_add_investor (st : store) (address name updated_by : string) :
  store_ok st -> filter (has_email address) (investors st) = [] ->
  store_ok (add_investor
              (new_investor (S (investor_seq st)) address name updated_by) st).
Proof.
  intros (Hid & Hseq & Hmail & Hlid & Hlseq & Href) Hnone.
  unfold store_ok. simpl.
  repeat split; auto.
  - constructor; [now apply fresh_key | exact Hid].
  - constructor; [simpl; lia | now apply Forall_le_S].
  - constructor; [now apply no_email_not_in | exact Hmail].
  - revert Href. apply Forall_impl. intros row [H1 H2]. split; [now right | exact H2].
Qed.

(** X4.  [process_message] keeps the datastore consistent: primary keys
    stay distinct and below their counters, no two investors share an
    address, and every log row still points at an investor and a draft on
    file. *)
Theorem process_message_keeps_store_ok
  (e : env) (self : ChatbotService.t) (raw : string) (st : store) :
  store_ok st -> store_ok (fst (process_message e self raw st)).
Proof.
  intros Hok. pose proof (process_message_effect e self raw st) as H.
  destruct (search SEND_EMAIL_PATTERN (strip raw)) as [m|]; [|now rewrite H].
  destruct H as [|inv draft status u notes Hinv Hdraft
                 |name upd draft status u notes Hnone Hdraft].
  - exact Hok.
  - now apply store_ok_add_log.
  - pose proof (store_ok_add_investor st (group_or_empty 1 m) name upd Hok Hnone)
      as Hok'.
    apply (store_ok_add_log _ _ draft status u notes Hok');
      simpl; [now left | exact Hdraft].
Qed.

Lemma process_message_keeps_store_ok_witness :
  store_ok (fst (process_message Demo.delivering (init Demo.delivering None)
                   "send email to jane@x.com draft of intro" Demo.db)).
Proof.
  apply (process_message_keeps_store_ok Demo.delivering
           (init Demo.delivering None)
           "send email to jane@x.com draft of intro" Demo.db).
  unfold store_ok. simpl.
  repeat split; repeat constructor; simpl; try lia; intuition discriminate.
Defined.

End Effects.

(** ** What the patterns capture *)

Section Captures.
Import Text Re Orm World EmailService ChatbotService.

(** The matcher is sound: what it consumed is a text of the pattern, and
    the continuation was given the groups of that text. *)
Lemma run_sound {A : Type} (r : re) :
  forall (k : string -> caps -> option A) (s : string) (c : caps) (a : A),
    run r k s c = Some a ->
    exists pre rest new,
      s = pre ++ rest /\ matches r pre new /\ k rest (new ++ c)%list = Some a.
Proof.
  induction r as [|p|r1 IH1 r2 IH2|r1 IH1 r2 IH2|r1 IH1|n p|i r1 IH1];
    simpl; intros k s c a H.
  - now exists "", s, [].
  - destruct s as [|x s]; [discriminate|].
    destruct (p x) eqn:Hp; [|discriminate].
    exists (String x ""), s, []. repeat split; auto. now exists x.
  - apply IH1 in H as (s1 & rest1 & c1 & -> & H1 & H).
    apply IH2 in H as (s2 & rest & c2 & -> & H2 & H).
    exists (s1 ++ s2), rest, (c2 ++ c1)%list.
    rewrite append_assoc, <- app_assoc. repeat split; auto.
    now exists s1, s2, c1, c2.
  - destruct (run r1 k s c) as [a'|] eqn:E.
    + inversion H; subst a'.
      apply IH1 in E as (pre & rest & new & -> & Hm & Hk).
      exists pre, rest, new. auto.
    + apply IH2 in H as (pre & rest & new & -> & Hm & Hk).
      exists pre, rest, new. auto.
  - destruct (run r1 k s c) as [a'|] eqn:E.
    + inversion H; subst a'.
      apply IH1 in E as (pre & rest & new & -> & Hm & Hk).
      exists pre, rest, new. auto.
    + exists "", s, []. auto.
  - apply at_least_inv in H as (pre & rest & -> & Hall & Hlen & Hk).
    exists pre, rest, []. auto.
  - apply IH1 in H as (pre & rest & new & -> & Hm & Hk).
    rewrite take_app in Hk.
    exists pre, rest, ((i, pre) :: new). repeat split; auto. now exists new.
Qed.

(** [search] returns the groups of a text of the pattern that stands
    somewhere in the text searched. *)
Lemma search_sound (r : re) (s : string) (c : caps) :
  search r s = Some c ->
  exists before here after, s = before ++ here ++ after /\ matches r here c.
Proof.
  induction s as [|x s IH]; simpl.
  - destruct (match_at r "") as [[c' n]|] eqn:E; [|discriminate].
    intros H. inversion H; subst c'. unfold match_at in E.
    apply run_sound in E as (pre & rest & new & Hs & Hm & Hk).
    assert (c = new) as -> by (inversion Hk; now rewrite app_nil_r).
      exists "", pre, rest. split; [exact Hs | exact Hm].
  - destruct (match_at r (String x s)) as [[c' n]|] eqn:E.
    + intros H. inversion H; subst c'. unfold match_at in E.
      apply run_sound in E as (pre & rest & new & Hs & Hm & Hk).
      assert (c = new) as -> by (inversion Hk; now rewrite app_nil_r).
      exists "", pre, rest. split; [exact Hs | exact Hm].
    + intros H. destruct (IH H) as (before & here & after & -> & Hm).
      now exists (String x before), here, after.
Qed.

Lemma matches_ilit (w s : string) (c : caps) : matches (ilit w) s c -> c = [].
Proof.
  revert s c. induction w as [|a w IH]; simpl; intros s c.
  - now intros [_ ->].
  - intros (s1 & s2 & c1 & c2 & _ & -> & (x & _ & _ & ->) & H2).
    now rewrite (IH _ _ H2).
Qed.

Lemma all_chars_no_char (p : ascii -> bool) (x : ascii) (s : string) :
  p x = false -> all_chars p s = true -> has_char x s = false.
Proof.
  intros Hx. induction s as [|y s IH]; simpl; [reflexivity|].
  intros H. apply andb_true_iff in H as [Hy Hs]. rewrite (IH Hs).
  destruct (Ascii.eqb_spec y x) as [->|_]; [congruence | reflexivity].
Qed.

Lemma send_email_captures (s : string) (c : caps) :
  matches SEND_EMAIL_PATTERN s c ->
  captured_address (group_or_empty 1 c) /\ captured_name (group_or_empty 2 c).
Proof.
  unfold SEND_EMAIL_PATTERN. cbn [cat_all matches].
  intros (s1 & t1 & c1 & d1 & _ & -> & H1 & (* send *)
          s2 & t2 & c2 & d2 & _ & -> & (_ & _ & ->) & (* \s+ *)
          s3 & t3 & c3 & d3 & _ & -> & H3 & (* email *)
          s4 & t4 & c4 & d4 & _ & -> & (_ & _ & ->) &
          s5 & t5 & c5 & d5 & _ & -> & H5 & (* to *)
          s6 & t6 & c6 & d6 & _ & -> & (_ & _ & ->) &
          s7 & t7 & c7 & d7 & _ & -> & (g1 & Haddr & ->) & (* address *)
          s8 & t8 & c8 & d8 & _ & -> & (_ & _ & ->) &
          s9 & t9 & c9 & d9 & _ & -> & Hthe &
          s10 & t10 & c10 & d10 & _ & -> & H10 & (* draft *)
          s11 & t11 & c11 & d11 & _ & -> & (_ & _ & ->) &
          s12 & t12 & c12 & d12 & _ & -> & Hof &
          s13 & t13 & c13 & d13 & _ & -> & Hq1 &
          s14 & t14 & c14 & d14 & _ & -> & (g2 & (Hw & Hwlen & ->) & ->) &
          Hq2).
  apply matches_ilit in H1, H3, H5, H10. subst c1 c3 c5 c10.
  assert (c9 = []) as ->.
  { destruct Hthe as [[_ ->]|(a & b & ca & cb & _ & -> & Ha & (_ & _ & ->))];
      [reflexivity|]. now rewrite (matches_ilit _ _ _ Ha). }
  assert (c12 = []) as ->.
  { destruct Hof as [[_ ->]|(a & b & ca & cb & _ & -> & Ha & (_ & _ & ->))];
      [reflexivity|]. now rewrite (matches_ilit _ _ _ Ha). }
  assert (c13 = []) as ->.
  { destruct Hq1 as [[_ ->]|(x & _ & _ & ->)]; reflexivity. }
  assert (d14 = []) as ->.
  { destruct Hq2 as [[_ ->]|(x & _ & _ & ->)]; reflexivity. }
  destruct Haddr as (l & r1 & cl & cr1 & -> & -> & (Hl & Hllen & ->) &
                     at_ & r2 & cat & cr2 & -> & -> & (x & -> & Hx & ->) &
                     dom & r3 & cdom & cr3 & -> & -> & (Hdom & Hdlen & ->) &
                     dot & r4 & cdot & cr4 & -> & -> & (y & -> & Hy & ->) &
                     (Htld & Htlen & ->)).
  apply Ascii.eqb_eq in Hx, Hy. subst x y.
  unfold group_or_empty. simpl. split.
  - exists l, dom, r4. repeat split; auto.
    change (split_head "@" (l ++ String "@" ((dom ++ "." ++ r4))) = l).
    apply split_head_app.
    apply (all_chars_no_char _ "@" l) in Hl; [exact Hl | reflexivity].
  - split; assumption.
Qed.

End Captures.

Section CaptureShapes.
Import Text Re Orm World EmailService ChatbotService.

Lemma search_pattern_captures (s : string) (c : caps) :
  matches SEARCH_PATTERN s c ->
  exists before,
    s = before ++ group_or_empty 1 c
    /\ 1 <= String.length (group_or_empty 1 c)
    /\ has_char (ascii_of_nat 10) (group_or_empty 1 c) = false.
Proof.
  unfold SEARCH_PATTERN. cbn [cat_all matches].
  intros (s1 & t1 & c1 & d1 & -> & -> & H1 &
          s2 & t2 & c2 & d2 & -> & -> & (_ & _ & ->) &
          s3 & t3 & c3 & d3 & -> & -> & Hme &
          s4 & t4 & c4 & d4 & -> & -> & H4 &
          s5 & t5 & c5 & d5 & -> & -> & (_ & _ & ->) &
          s6 & t6 & c6 & d6 & -> & -> & H6 &
          s7 & t7 & c7 & d7 & -> & -> & (_ & _ & ->) &
          s8 & t8 & c8 & d8 & -> & -> & Hsep &
          s9 & t9 & c9 & d9 & -> & -> & (_ & _ & ->) &
          (g & (Hall & Hlen & ->) & ->)).
  apply matches_ilit in H1, H4, H6. subst c1 c4 c6.
  assert (c3 = []) as ->.
  { destruct Hme as [[_ ->]|(a & b & ca & cb & _ & -> & Ha & (_ & _ & ->))];
      [reflexivity|]. now rewrite (matches_ilit _ _ _ Ha). }
  assert (c8 = []) as ->.
  { destruct Hsep as [[_ ->]|(x & _ & _ & ->)]; reflexivity. }
  unfold group_or_empty. simpl.
  exists (s1 ++ s2 ++ s3 ++ s4 ++ s5 ++ s6 ++ s7 ++ s8 ++ s9).
  split; [now rewrite !append_assoc|]. split; [exact Hlen|].
  apply (all_chars_no_char _ (ascii_of_nat 10) t9) in Hall;
    [exact Hall | reflexivity].
Qed.

(** X5.  Whenever [process_message] hands a message of ASCII characters
    to the send-email handler, the address it passes has the form
    [local@domain.tld]: a non-empty local part of letters, digits and
    [._%+-], one [@], a non-empty domain of letters, digits, dots and
    hyphens, and at least two final letters; the text before its [@],
    which names a new investor, is that local part.  The draft name it
    passes is a non-empty run of letters, digits and underscores.  (In a
    message with other characters the classes of the pattern reach
    beyond ASCII, and so can the draft name.) *)
Theorem send_email_arguments_shape (raw address draft_name : string) :
  ascii_only raw = true ->
  classify raw = SendEmail address draft_name ->
  captured_address address /\ captured_name draft_name.
Proof.
  intros _. rewrite classify_first_match.
  destruct (search SEND_EMAIL_PATTERN (strip raw)) as [m|] eqn:E.
  - intros H. inversion H; subst.
    apply search_sound in E as (before & here & after & _ & Hm).
    exact (send_email_captures here m Hm).
  - destruct (search SEARCH_PATTERN (strip raw)); discriminate.
Qed.

Lemma send_email_arguments_shape_witness :
  captured_address "jane.doe+vc@mail.x-y.co.in" /\ captured_name "pitch_deck2".
Proof.
  apply (send_email_arguments_shape
           "pls Send email to jane.doe+vc@mail.x-y.co.in draft 'pitch_deck2'!").
  - reflexivity.
  - vm_compute. reflexivity.
Defined.

(** X6.  Whenever [process_message] hands a message to the search
    handler, the query it passes is not empty, has no line feed
    (character 10, the one character the [.] of the pattern refuses),
    and is a part of the trimmed message.  Any other character is passed
    on, a carriage return (character 13) among them. *)
Theorem search_argument_shape (raw rest : string) :
  (classify raw = Search rest ->
   1 <= String.length rest
   /\ has_char (ascii_of_nat 10) rest = false
   /\ contains rest (strip raw) = true)
  /\ classify ("show data for a" ++ String (ascii_of_nat 13) "b")
     = Search ("a" ++ String (ascii_of_nat 13) "b")
  /\ classify ("show data for a" ++ String (ascii_of_nat 10) "b") = Search "a".
Proof.
  split; [|split; vm_compute; reflexivity].
  rewrite classify_first_match.
  destruct (search SEND_EMAIL_PATTERN (strip raw)) as [m|]; [discriminate|].
  destruct (search SEARCH_PATTERN (strip raw)) as [m|] eqn:E; [|discriminate].
  intros H. inversion H; subst.
  apply search_sound in E as (before & here & after & Hs & Hm).
  apply search_pattern_captures in Hm as (pre & -> & Hlen & Hnl).
  split; [exact Hlen|]. split; [exact Hnl|].
  rewrite Hs, append_assoc, <- (append_assoc before pre).
  apply contains_app.
Qed.

Lemma search_argument_shape_witness :
  1 <= String.length "vc, 'Series A'"
  /\ has_char (ascii_of_nat 10) "vc, 'Series A'" = false
  /\ contains "vc, 'Series A'" (strip " Show me data for:  vc, 'Series A' ") = true.
Proof.
  apply (proj1 (search_argument_shape " Show me data for:  vc, 'Series A' "
                  "vc, 'Series A'")).
  vm_compute. reflexivity.
Defined.

End CaptureShapes.

(** ** Keywords and keyword matching *)

Section KeywordMatching.
Import Text Re Orm World EmailService ChatbotService.

Lemma contains_trans (a b c : string) :
  contains a b = true -> contains b c = true -> contains a c = true.
Proof.
  intros Hab Hbc.
  destruct (contains_spec _ _ Hab) as (p1 & q1 & ->).
  destruct (contains_spec _ _ Hbc) as (p2 & q2 & ->).
  rewrite !append_assoc, <- (append_assoc p2 p1). apply contains_app.
Qed.

Lemma contains_refl (s : string) : contains s s = true.
Proof.
  rewrite <- (append_nil_r s) at 2. apply (contains_app s "" "").
Qed.

Lemma lstrip_suffix (s : string) : exists pre, s = pre ++ lstrip s.
Proof.
  induction s as [|x s (pre & IH)]; simpl; [now exists ""|].
  destruct (is_space x).
  - exists (String x pre). simpl. now rewrite <- IH.
  - now exists "".
Qed.

Lemma rstrip_prefix (s : string) : exists post, s = rstrip s ++ post.
Proof.
  induction s as [|x s (post & IH)]; simpl; [now exists ""|].
  destruct (rstrip s) as [|y r] eqn:E.
  - destruct (is_space x).
    + now exists (String x s).
    + exists s. reflexivity.
  - exists post. simpl in *. now rewrite <- IH.
Qed.

(** What [strip] returns stands in the text it was given. *)
Lemma contains_strip (s : string) : contains (strip s) s = true.
Proof.
  unfold strip. destruct (lstrip_suffix s) as (pre & Hpre).
  destruct (rstrip_prefix (lstrip s)) as (post & Hpost).
  rewrite Hpre at 2. rewrite Hpost at 2. apply contains_app.
Qed.

Lemma lower_app (a b : string) : lower (a ++ b) = lower a ++ lower b.
Proof. induction a as [|x a IH]; simpl; [reflexivity | now rewrite IH]. Qed.

Lemma contains_lower (a b : string) :
  contains a b = true -> contains (lower a) (lower b) = true.
Proof.
  intros H. destruct (contains_spec _ _ H) as (p & q & ->).
  rewrite !lower_app. apply contains_app.
Qed.

(** X7.  Every keyword the search handler extracts stands, as it is, in
    the query it was extracted from. *)
Theorem keywords_stand_in_query (query_string k : string) :
  In k (extract_keywords query_string) -> contains k query_string = true.
Proof.
  rewrite extract_keywords_tokens. intros Hk.
  apply in_map_iff in Hk as (t & <- & Ht). apply filter_In in Ht as [Ht _].
  apply (contains_trans _ t); [apply contains_strip|].
  destruct (tokens_inv _ _ Ht)
    as (before & after & [(a & b & -> & _)|(-> & _)]).
  - change (before ++ String a (t ++ String b after))
      with (before ++ String a "" ++ t ++ String b after).
    rewrite <- append_assoc. apply contains_app.
  - apply contains_app.
Qed.

Lemma keywords_stand_in_query_witness :
  contains "Series A" "'Series A' and fund" = true.
Proof.
  apply (keywords_stand_in_query "'Series A' and fund" "Series A").
  vm_compute. left. reflexivity.
Defined.

Lemma icontains_mono (field k1 k2 : string) :
  icontains k2 k1 = true -> icontains field k2 = true -> icontains field k1 = true.
Proof. unfold icontains. apply contains_trans. Qed.

Lemma lower_idem (s : string) : lower (lower s) = lower s.
Proof.
  induction s as [|x s IH]; simpl; [reflexivity|].
  now rewrite IH, lower_char_idem.
Qed.

Lemma icontains_empty (field : string) : icontains field "" = true.
Proof. unfold icontains. simpl. now destruct (lower field). Qed.

(** X8.  The keyword test of the investor and artifact searches does not
    see the case of the keyword, accepts every row for the empty keyword,
    and is monotone: a row that matches a keyword matches every keyword
    that occurs in it, so a shorter keyword finds at least the rows a
    longer one finds. *)
Theorem keyword_matching_is_monotone (k1 k2 : string)
  (investors : list Investor.t) (artifacts : list Artifact.t) :
  (forall i, investor_matches (lower k1) i = investor_matches k1 i)
  /\ (forall a, artifact_matches (lower k1) a = artifact_matches k1 a)
  /\ filter (investor_matches "") investors = investors
  /\ filter (artifact_matches "") artifacts = artifacts
  /\ (icontains k2 k1 = true ->
      (forall i, In i (filter (investor_matches k2) investors) ->
                 In i (filter (investor_matches k1) investors))
      /\ (forall a, In a (filter (artifact_matches k2) artifacts) ->
                    In a (filter (artifact_matches k1) artifacts))).
Proof.
  split; [|split; [|split; [|split]]].
  - intros i. unfold investor_matches, icontains. now rewrite lower_idem.
  - intros a. unfold artifact_matches, icontains. now rewrite lower_idem.
  - apply forallb_filter_id. apply forallb_forall. intros i _.
    unfold investor_matches. now rewrite icontains_empty.
  - apply forallb_filter_id. apply forallb_forall. intros a _.
    unfold artifact_matches. now rewrite icontains_empty.
  - intros Hk. split.
    + intros i Hi. apply filter_In in Hi as [Hin Hm]. apply filter_In.
      split; [exact Hin|]. unfold investor_matches in *.
      apply orb_true_iff in Hm as [Hm|Hm];
        [apply orb_true_iff in Hm as [Hm|Hm]|];
        rewrite (icontains_mono _ k1 k2 Hk Hm); now rewrite ?orb_true_r.
    + intros a Ha. apply filter_In in Ha as [Hin Hm]. apply filter_In.
      split; [exact Hin|]. unfold artifact_matches in *.
      apply orb_true_iff in Hm as [Hm|Hm];
        [apply orb_true_iff in Hm as [Hm|Hm]|];
        rewrite (icontains_mono _ k1 k2 Hk Hm); now rewrite ?orb_true_r.
Qed.

Lemma keyword_matching_is_monotone_witness :
  In Demo.tech_angel (filter (investor_matches "TECH") (investors Demo.db)).
Proof.
  destruct (keyword_matching_is_monotone "TECH" "Tech Angel"
              (investors Demo.db) (artifacts Demo.db))
    as (_ & _ & _ & _ & Hmono).
  apply (proj1 (Hmono eq_refl)). vm_compute. left. reflexivity.
Defined.

(** X9.  The summary of a search shows at most ten investors and ten
    artifacts: beyond their number, the rows after the tenth have no part
    in it. *)
Theorem search_summary_shows_ten
  (keywords : list string) (investors investors' : list Investor.t)
  (artifacts artifacts' : list Artifact.t) :
  List.length investors = List.length investors' ->
  firstn 10 investors = firstn 10 investors' ->
  List.length artifacts = List.length artifacts' ->
  firstn 10 artifacts = firstn 10 artifacts' ->
  search_summary keywords investors artifacts
  = search_summary keywords investors' artifacts'.
Proof.
  intros Hli Hfi Hla Hfa. unfold search_summary.
  rewrite Hli, Hfi, Hla, Hfa.
  destruct investors, investors'; try discriminate Hli;
    destruct artifacts, artifacts'; try discriminate Hla; reflexivity.
Qed.

Lemma search_summary_shows_ten_witness :
  search_summary ["a"] (repeat Demo.ravi 10 ++ [Demo.tech_angel])%list []
  = search_summary ["a"] (repeat Demo.ravi 11) [].
Proof.
  apply search_summary_shows_ten; reflexivity.
Defined.

End KeywordMatching.

(** ** The labels of investors and artifacts *)

Section Labels.
Import Text Models.

Lemma split_length (sep : ascii) (s : string) :
  List.length (split sep s) = S (count_char sep s).
Proof.
  induction s as [|x s IH]; simpl; [reflexivity|].
  destruct (Ascii.eqb x sep); simpl; [now rewrite IH|].
  destruct (split sep s) as [|h t]; simpl in *; [discriminate IH | exact IH].
Qed.

Lemma split_no_sep (sep : ascii) (s : string) :
  Forall (fun part => has_char sep part = false) (split sep s).
Proof.
  induction s as [|x s IH]; simpl; [now repeat constructor|].
  destruct (Ascii.eqb x sep) eqn:E; [now constructor|].
  destruct (split sep s) as [|h t]; [repeat constructor; simpl; now rewrite E|].
  inversion IH; subst. constructor; [|assumption]. simpl. now rewrite E.
Qed.

Lemma split_app (sep : ascii) (a b : string) :
  has_char sep a = false -> split sep (a ++ String sep b) = a :: split sep b.
Proof.
  induction a as [|x a IH]; simpl; intros H.
  - now rewrite Ascii.eqb_refl.
  - apply orb_false_iff in H as [Hx Ha]. rewrite Hx. now rewrite (IH Ha).
Qed.

Lemma split_whole (sep : ascii) (a : string) :
  has_char sep a = false -> split sep a = [a].
Proof.
  induction a as [|x a IH]; simpl; intros H; [reflexivity|].
  apply orb_false_iff in H as [Hx Ha]. rewrite Hx. now rewrite (IH Ha).
Qed.

Lemma has_char_contains (c : ascii) (a b : string) :
  contains a b = true -> has_char c b = false -> has_char c a = false.
Proof.
  intros H Hb. destruct (contains_spec _ _ H) as (p & q & ->).
  rewrite !has_char_app in Hb.
  apply orb_false_iff in Hb as [_ Hb]. now apply orb_false_iff in Hb as [Hb _].
Qed.

Lemma split_join (l : string) (ls : list string) : forall pre,
  has_char "," pre = false ->
  Forall (fun x => has_char "," x = false) (l :: ls) ->
  split "," (pre ++ join ", " (l :: ls)) = (pre ++ l) :: map (append " ") ls.
Proof.
  revert l. induction ls as [|l2 ls IH]; intros l pre Hpre Hall.
  - simpl. inversion Hall; subst. apply split_whole.
    rewrite has_char_app, Hpre. assumption.
  - inversion Hall as [|? ? Hl Hrest]; subst.
    change (join ", " (l :: l2 :: ls))
      with (l ++ String "," (" " ++ join ", " (l2 :: ls))).
    rewrite <- append_assoc, split_app;
      [|rewrite has_char_app, Hpre; exact Hl].
    now rewrite (IH l2 " " eq_refl Hrest).
Qed.

(** X10.  [get_labels_list] returns no label for an empty label string;
    for any other it returns one label more than the string has commas,
    an empty label for a part that is empty or blank.  Every label is
    trimmed of white space and holds no comma. *)
Theorem labels_are_trimmed_parts (labels : string) :
  get_labels_list "" = []
  /\ (labels <> "" ->
      List.length (get_labels_list labels) = S (count_char "," labels))
  /\ Forall label_ok (get_labels_list labels)
  /\ get_labels_list " , VC,,Tech " = [""; "VC"; ""; "Tech"].
Proof.
  split; [reflexivity|]. split; [|split; [|reflexivity]].
  - intros Hne. unfold get_labels_list.
    destruct labels; [now contradiction Hne|]. cbn [truthy].
    now rewrite length_map, split_length.
  - unfold get_labels_list. destruct (truthy labels); [|constructor].
    apply Forall_map. eapply Forall_impl; [|apply split_no_sep].
    intros part Hpart. split; [apply strip_idem|].
    exact (has_char_contains _ _ _ (contains_strip part) Hpart).
Qed.

Lemma labels_are_trimmed_parts_witness :
  List.length (get_labels_list "VC, Tech, Series-A") = 3.
Proof.
  apply (labels_are_trimmed_parts "VC, Tech, Series-A"). discriminate.
Defined.

(** X11.  Labels written out with [", "] between them are read back as
    they were: for labels that are trimmed and hold no comma,
    [get_labels_list] of their joined text is the list itself, unless
    that text is empty. *)
Theorem labels_round_trip (ls : list string) :
  Forall label_ok ls -> join ", " ls <> "" ->
  get_labels_list (join ", " ls) = ls.
Proof.
  intros Hok Hne. unfold get_labels_list.
  destruct ls as [|l ls]; [now contradiction Hne|].
  destruct (join ", " (l :: ls)) as [|c rest] eqn:E; [now contradiction Hne|].
  cbn [truthy]. rewrite <- E. clear c rest E Hne.
  assert (Hall : Forall (fun x => has_char "," x = false) (l :: ls)).
  { eapply Forall_impl; [|exact Hok]. now intros x [_ H]. }
  pose proof (split_join l ls "" eq_refl Hall) as Hs.
  change ("" ++ join ", " (l :: ls)) with (join ", " (l :: ls)) in Hs.
  change ("" ++ l) with l in Hs.
  rewrite Hs. simpl. inversion Hok as [|? ? [Hl _] Hrest]; subst.
  rewrite Hl. f_equal. rewrite map_map.
  clear Hs Hall Hok. induction Hrest as [|x xs [Hx _] _ IH]; simpl;
    [reflexivity|].
  change (strip (String " " x)) with (strip x). now rewrite Hx, IH.
Qed.

Lemma labels_round_trip_witness :
  get_labels_list (join ", " ["VC"; "Tech"; ""; "Series A"])
  = ["VC"; "Tech"; ""; "Series A"].
Proof.
  apply labels_round_trip.
  - repeat constructor.
  - discriminate.
Defined.

End Labels.

(** * Properties of the views *)

(** ** The chatbot endpoint *)

Section Endpoint.
Import Text Re Orm World EmailService ChatbotService Views.

Lemma process_message_well_formed (e : env) (self : ChatbotService.t)
  (raw : string) (st st' : store) (r : response) :
  process_message e self raw st = (st', Return r) -> well_formed r.
Proof.
  unfold process_message. cbv zeta.
  destruct (search SEND_EMAIL_PATTERN (strip raw)) as [m|].
  - apply well_formed_send.
  - destruct (search SEARCH_PATTERN (strip raw)) as [m|].
    + apply well_formed_search.
    + apply well_formed_generic.
Qed.

(** X12.  [chatbot_api] turns away, without running the interpreter and
    without touching the datastore: an anonymous visitor, with a redirect
    to the login page; a request that is not a POST, with status 405; a
    body on which [json.loads] raises JSONDecodeError, with the error
    "Invalid request format."; a body without message or with a blank
    one, with the error "Please enter a message.".  Two kinds of body make
    it raise, the datastore untouched as well: a body on which
    [json.loads(request.body)] raises another exception (bytes that are
    not UTF-8 text, a document nested too deep, a body that cannot be
    read), which the [except] clause of line 183 does not catch and which
    leaves the view as it is, and a body that is not a JSON object, or whose
    message is not a string, which raises AttributeError. *)
Theorem chatbot_api_turns_away (e : env) (req : request) (s : site) (u : User.t) :
  (user req = None -> chatbot_api e req s = (s, Ok (Redirect "login" None)))
  /\ (user req = Some u ->
      (method req <> "POST" ->
       chatbot_api e req s
       = (s, Ok (JsonResponse 405 (error_json "Method not allowed"))))
      /\ (method req = "POST" ->
          (body req = Malformed ->
           chatbot_api e req s
           = (s, Ok (JsonResponse 200 (error_json "Invalid request format."))))
          /\ (body req = JObject None ->
              chatbot_api e req s
              = (s, Ok (JsonResponse 200 (error_json "Please enter a message."))))
          /\ (forall text, body req = JObject (Some (JString text)) ->
                           strip text = "" ->
              chatbot_api e req s
              = (s, Ok (JsonResponse 200 (error_json "Please enter a message."))))
          /\ (forall exception, body req = Unreadable exception ->
              chatbot_api e req s = (s, Fail (Uncaught exception)))
          /\ (body req = NotAnObject \/ body req = JObject (Some JOther) ->
              chatbot_api e req s = (s, Fail AttributeError)))).
Proof.
  unfold chatbot_api, login_required. split.
  - now intros ->.
  - intros ->. split.
    + intros H. apply String.eqb_neq in H. now rewrite H.
    + intros ->. simpl. split; [now intros ->|]. split; [now intros ->|].
      split; [|split].
      * intros text -> Hblank. cbv zeta. now rewrite Hblank.
      * now intros ex ->.
      * now intros [->| ->].
Qed.

Lemma chatbot_api_turns_away_witness :
  chatbot_api Demo.delivering (post_message "   ") demo_site
  = (demo_site, Ok (JsonResponse 200 (error_json "Please enter a message.")))
  /\ chatbot_api Demo.delivering (post_bytes (Unreadable "UnicodeDecodeError"))
       demo_site
     = (demo_site, Fail (Uncaught "UnicodeDecodeError")).
Proof.
  split.
  - destruct (proj2 (chatbot_api_turns_away Demo.delivering (post_message "   ")
                       demo_site Demo.alice) eq_refl) as [_ Hpost].
    destruct (Hpost eq_refl) as (_ & _ & Hblank & _).
    apply (Hblank "   "); reflexivity.
  - destruct (proj2 (chatbot_api_turns_away Demo.delivering
                       (post_bytes (Unreadable "UnicodeDecodeError"))
                       demo_site Demo.alice) eq_refl) as [_ Hpost].
    destruct (Hpost eq_refl) as (_ & _ & _ & Hraise & _).
    now apply Hraise.
Defined.

Lemma run_chatbot_api (e : env) (req : request) (s : site) (u : User.t)
  (text : string) :
  user req = Some u -> method req = "POST" ->
  body req = JObject (Some (JString text)) -> strip text <> "" ->
  chatbot_api e req s
  = match process_message e (init e (Some u)) (strip text) (store_of s) with
    | (st, Return r) => (with_store st s, to_json 200 (clean r))
    | (st, Raise ex) => (with_store st s, Fail (OrmError ex))
    end.
Proof.
  intros Hu Hm Hb Htext. unfold chatbot_api, login_required.
  rewrite Hu, Hm, Hb. simpl. cbv zeta.
  destruct (strip text); [now contradiction Htext | reflexivity].
Qed.

(** X13.  For a POST of an authenticated user with a message that is not
    blank, [chatbot_api] leaves the datastore as [process_message] on the
    trimmed message leaves it and, for every response that is not of kind
    [success], answers with status 200 and the kind and the message of
    that response; search results are listed row by row, in their order,
    by primary key, name, address and amount (artifacts by primary key,
    name and type), with the keywords as they were.  An exception of the
    interpreter goes through. *)
Theorem chatbot_api_relays_the_interpreter
  (e : env) (req : request) (s : site) (u : User.t) (text : string) :
  user req = Some u -> method req = "POST" ->
  body req = JObject (Some (JString text)) -> strip text <> "" ->
  let run := process_message e (init e (Some u)) (strip text) (store_of s) in
  fst (chatbot_api e req s) = with_store (fst run) s
  /\ match snd run with
     | Raise ex => snd (chatbot_api e req s) = Fail (OrmError ex)
     | Return r =>
         type r <> "success" ->
         exists content,
           snd (chatbot_api e req s) = Ok (JsonResponse 200 content)
           /\ json_type content = type r
           /\ json_message content = message r
           /\ match data r with
              | Some (SearchData investors artifacts keywords) =>
                  exists rows files,
                    json_data content = Some (Lists rows files keywords)
                    /\ map investor_id rows = map Investor.id investors
                    /\ map investor_name rows = map Investor.name investors
                    /\ map investor_email rows = map Investor.email investors
                    /\ map investor_amount rows = map Investor.amount investors
                    /\ map artifact_id files = map Artifact.id artifacts
                    /\ map artifact_name files = map Artifact.name artifacts
                    /\ map artifact_kind files
                       = map Artifact.artifact_type artifacts
              | _ => json_data content = None
              end
     end.
Proof.
  intros Hu Hm Hb Htext run. subst run.
  rewrite (run_chatbot_api e req s u text Hu Hm Hb Htext).
  destruct (process_message e (init e (Some u)) (strip text) (store_of s))
    as [st [r|ex]] eqn:Hrun; simpl; (split; [reflexivity|]); [|reflexivity].
  intros Hkind. apply process_message_well_formed in Hrun as (_ & _ & Hdata).
  exists (clean r). unfold to_json, clean. simpl.
  destruct (data r) as [[investor draft|investors artifacts keywords]|];
    simpl in *.
  - now contradiction Hkind.
  - repeat split. eexists _, _. split; [reflexivity|].
    rewrite !map_map. repeat split.
  - repeat split.
Qed.

Lemma chatbot_api_relays_the_interpreter_witness :
  exists content,
    snd (chatbot_api Demo.delivering (post_message " show me data for ravi ")
           demo_site)
    = Ok (JsonResponse 200 content)
    /\ json_type content = "search_results"
    /\ exists rows files,
         json_data content = Some (Lists rows files ["ravi"])
         /\ map investor_email rows = ["ravi@vc.in"].
Proof.
  pose proof (chatbot_api_relays_the_interpreter Demo.delivering
                (post_message " show me data for ravi ") demo_site Demo.alice
                " show me data for ravi " eq_refl eq_refl eq_refl) as H.
  destruct H as [_ H]; [vm_compute; discriminate|].
  destruct (process_message Demo.delivering
              (init Demo.delivering (Some Demo.alice))
              (strip " show me data for ravi ") (store_of demo_site))
    as [st [r|ex]] eqn:Hrun; [|vm_compute in Hrun; discriminate Hrun].
  vm_compute in Hrun. inversion Hrun; subst r; clear Hrun. simpl in H.
  destruct H as (content & Hc & Hty & _ & rows & files & Hd & _ & _ & Hmail & _);
    [discriminate|].
  exists content. split; [exact Hc|]. split; [exact Hty|].
  exists rows, files. split; [exact Hd | exact Hmail].
Defined.

(** X14.  When [process_message] answers a POST with a response of kind
    [success], the e-mail has been sent and its log row written, but
    [chatbot_api] raises TypeError instead of answering: the payload it
    hands to [JsonResponse] still holds the Investor and the EmailDraft,
    which are flattened only inside the lists of a search. *)
Theorem chatbot_api_raises_after_a_send
  (e : env) (req : request) (s : site) (u : User.t) (text : string)
  (st : store) (r : response) :
  user req = Some u -> method req = "POST" ->
  body req = JObject (Some (JString text)) -> strip text <> "" ->
  process_message e (init e (Some u)) (strip text) (store_of s) = (st, Return r) ->
  type r = "success" ->
  chatbot_api e req s = (with_store st s, Fail TypeError)
  /\ exists row, logs st = row :: logs (store_of s)
                 /\ CommunicationLog.status row = "success".
Proof.
  intros Hu Hm Hb Htext Hrun Hkind.
  rewrite (run_chatbot_api e req s u text Hu Hm Hb Htext), Hrun.
  pose proof (process_message_well_formed _ _ _ _ _ _ Hrun) as (_ & _ & Hdata).
  split.
  - unfold to_json, clean. simpl.
    destruct (data r) as [[investor draft|investors artifacts keywords]|];
      simpl in Hdata; [reflexivity | congruence |].
    rewrite Hkind in Hdata. simpl in Hdata. intuition discriminate.
  - clear Hdata. unfold process_message in Hrun. cbv zeta in Hrun.
    destruct (search SEND_EMAIL_PATTERN (strip (strip text))) as [m|].
    + rewrite run_handle_send_email in Hrun.
      destruct (get _ (drafts (store_of s))) as [draft|[|]];
        [| inversion Hrun; subst; discriminate Hkind | discriminate Hrun].
      rewrite run_get_or_create in Hrun.
      destruct (filter _ (investors (store_of s))) as [|i [|j l]];
        cbv beta iota zeta in Hrun; [| | discriminate Hrun];
        rewrite run_send_draft_email in Hrun; destruct (EmailService.try_send e _ _ _);
        inversion Hrun; subst; try discriminate Hkind;
        eexists; split; reflexivity.
    + destruct (search SEARCH_PATTERN (strip (strip text))) as [m|].
      * rewrite run_handle_search in Hrun. injection Hrun as _ Hr.
        rewrite <- Hr in Hkind.
        destruct (extract_keywords _); discriminate Hkind.
      * rewrite run_handle_generic_query in Hrun. injection Hrun as _ Hr.
        rewrite <- Hr in Hkind.
        destruct (_init_gemini e) as [model|];
          [destruct (model (context_prompt _ _ _ _ _))|]; discriminate Hkind.
Qed.

Lemma chatbot_api_raises_after_a_send_witness :
  snd (chatbot_api Demo.delivering
         (post_message "send email to ravi@vc.in draft intro") demo_site)
  = Fail TypeError.
Proof.
  destruct (process_message Demo.delivering
              (init Demo.delivering (Some Demo.alice))
              (strip "send email to ravi@vc.in draft intro") (store_of demo_site))
    as [st [r|ex]] eqn:Hrun.
  - rewrite (proj1 (chatbot_api_raises_after_a_send Demo.delivering
                      (post_message "send email to ravi@vc.in draft intro")
                      demo_site Demo.alice
                      "send email to ravi@vc.in draft intro" st r
                      eq_refl eq_refl eq_refl
                      ltac:(vm_compute; discriminate) Hrun
                      ltac:(vm_compute in Hrun; inversion Hrun; reflexivity))).
    reflexivity.
  - vm_compute in Hrun. discriminate Hrun.
Defined.

End Endpoint.

(** ** The list pages *)

Section ListPages.
Import Text Re Orm World EmailService ChatbotService Views.

(** A [filter] of a table keeps its keys distinct. *)
Lemma filter_keeps_keys_distinct {Row Key : Type} (key : Row -> Key)
  (rows : list Row) (Hkeys : NoDup (map key rows)) (keep : Row -> bool) :
  NoDup (map key (filter keep rows)).
Proof.
  induction rows as [|a l IH]; simpl in *; [constructor|].
  inversion Hkeys as [|? ? Hnotin Hnd]; subst.
  destruct (keep a); simpl; [|now apply IH].
  constructor; [|now apply IH].
  intros Hin. apply Hnotin. apply in_map_iff in Hin as (x & Hx & Hin).
  apply filter_In in Hin as [Hin _]. rewrite <- Hx. now apply in_map.
Qed.

Lemma first_seen_of_distinct {V : Type} (id : V -> nat) (xs : list V) :
  forall seen,
    NoDup (map id xs) ->
    (forall x, In x xs -> existsb (Nat.eqb (id x)) seen = false) ->
    first_seen id seen xs = xs.
Proof.
  induction xs as [|x xs IH]; intros seen Hnd Hfresh; simpl; [reflexivity|].
  rewrite (Hfresh x (or_introl eq_refl)).
  inversion Hnd as [|? ? Hnotin Hnd']; subst. f_equal.
  apply IH; [exact Hnd'|]. intros y Hy.
  rewrite existsb_app, (Hfresh y (or_intror Hy)). simpl.
  destruct (Nat.eqb_spec (id y) (id x)) as [E|_]; [|reflexivity].
  exfalso. apply Hnotin. rewrite <- E. now apply in_map.
Qed.

(** Rows with distinct primary keys go through [dedupe] as they are. *)
Lemma dedupe_of_distinct {V : Type} (id : V -> nat) (xs : list V) :
  NoDup (map id xs) -> dedupe id xs = xs.
Proof.
  intros Hnd. rewrite dedupe_first_seen.
  - now apply first_seen_of_distinct.
  - intros x y. now apply NoDup_map_injective.
Qed.

Lemma keyword_not_empty (query_string k : string) :
  In k (extract_keywords query_string) -> truthy k = true.
Proof.
  rewrite extract_keywords_tokens. intros Hk.
  apply in_map_iff in Hk as (t & <- & Ht). apply filter_In in Ht as [_ Hkept].
  unfold kept in Hkept. now apply andb_true_iff in Hkept as [H _].
Qed.

(** X15.  For a query with one keyword, the investors and the artifacts
    in the payload of the chatbot's search are, row for row and in the
    same order, those the investor page and the artifact page list when
    that keyword is typed in their search box. *)
Theorem list_pages_agree_with_chatbot_search
  (req : request) (s : site) (u : User.t) (query_string k : string) :
  user req = Some u ->
  GET req "q" = Some k -> GET req "type" = None ->
  extract_keywords query_string = [k] ->
  NoDup (map Investor.id (investors (store_of s))) ->
  NoDup (map Artifact.id (artifacts (store_of s))) ->
  exists r rows files,
    _handle_search query_string (store_of s) = (store_of s, Return r)
    /\ data r = Some (SearchData rows files [k])
    /\ investor_list req s
       = (s, Ok (Render "core/investor_list.html" (InvestorList rows k)))
    /\ artifact_list req s
       = (s, Ok (Render "core/artifact_list.html" (ArtifactList files k ""))).
Proof.
  intros Hu Hq Hty Hk Hinv Hart.
  assert (Hne : truthy k = true).
  { apply (keyword_not_empty query_string). rewrite Hk. now left. }
  rewrite run_handle_search, Hk.
  eexists _, _, _. split; [reflexivity|]. split; [reflexivity|].
  unfold investor_list, artifact_list, login_required, GET_or_empty.
  rewrite Hu, Hq, Hty. cbv zeta. rewrite Hne. simpl truthy. cbv iota.
  unfold investor_hits, artifact_hits. simpl flat_map. rewrite !app_nil_r.
  rewrite (dedupe_of_distinct Investor.id), (dedupe_of_distinct Artifact.id);
    [split; reflexivity | now apply filter_keeps_keys_distinct | now apply filter_keeps_keys_distinct].
Qed.

Lemma list_pages_agree_with_chatbot_search_witness :
  exists r rows files,
    _handle_search "the 'tech'" (store_of demo_site)
    = (store_of demo_site, Return r)
    /\ data r = Some (SearchData rows files ["tech"])
    /\ investor_list (get_page (Some "tech")) demo_site
       = (demo_site, Ok (Render "core/investor_list.html" (InvestorList rows "tech")))
    /\ artifact_list (get_page (Some "tech")) demo_site
       = (demo_site, Ok (Render "core/artifact_list.html"
                                (ArtifactList files "tech" ""))).
Proof.
  apply (list_pages_agree_with_chatbot_search (get_page (Some "tech")) demo_site
           Demo.alice "the 'tech'" "tech").
  - reflexivity.
  - reflexivity.
  - reflexivity.
  - vm_compute. reflexivity.
  - simpl. repeat constructor; simpl; intuition discriminate.
  - simpl. repeat constructor; simpl; intuition discriminate.
Defined.

End ListPages.

(** ** The delete pages *)

Section DeletePages.
Import Text Re Orm World EmailService ChatbotService Views.

Lemma Forall_filter_keeps {A : Type} (P : A -> Prop) (p : A -> bool) (l : list A) :
  Forall P l -> Forall P (filter p l).
Proof.
  rewrite !Forall_forall. intros H x Hx. apply filter_In in Hx as [Hx _]. auto.
Qed.

Lemma get_by_key {R : Type} (key : R -> nat) (pk : nat) (rows : list R) (r : R) :
  filter (fun x => Nat.eqb (key x) pk) rows = [r] ->
  get_object_or_404 key pk rows = Ok r /\ key r = pk /\ In r rows.
Proof.
  intros H. unfold get_object_or_404, get. rewrite H. split; [reflexivity|].
  assert (Hin : In r (filter (fun x => Nat.eqb (key x) pk) rows))
    by (rewrite H; now left).
  apply filter_In in Hin as [Hin Hk]. apply Nat.eqb_eq in Hk. now split.
Qed.

Lemma key_survives {R : Type} (key : R -> nat) (pk n : nat) (rows : list R) :
  In n (map key rows) -> n <> pk ->
  In n (map key (filter (fun x => negb (Nat.eqb (key x) pk)) rows)).
Proof.
  intros Hin Hne. apply in_map_iff in Hin as (x & Hx & Hin).
  apply in_map_iff. exists x. split; [exact Hx|]. apply filter_In.
  split; [exact Hin|]. rewrite Hx. apply negb_true_iff. now apply Nat.eqb_neq.
Qed.

Lemma site_ok_delete_investor (pk : nat) (s : site) :
  site_ok s -> site_ok (delete_investor pk s).
Proof.
  intros [(Hid & Hseq & Hmail & Hlid & Hlseq & Href) Hresp].
  unfold site_ok, store_ok, delete_investor. simpl.
  split; [repeat split|].
  - now apply filter_keeps_keys_distinct.
  - now apply Forall_filter_keeps.
  - now apply filter_keeps_keys_distinct.
  - now apply filter_keeps_keys_distinct.
  - now apply Forall_filter_keeps.
  - rewrite Forall_forall in *. intros row Hrow.
    apply filter_In in Hrow as [Hrow Hkeep].
    apply negb_true_iff, Nat.eqb_neq in Hkeep.
    destruct (Href row Hrow) as [Hinv Hdraft]. split; [|exact Hdraft].
    now apply key_survives.
  - rewrite Forall_forall in *. intros r Hr.
    apply filter_In in Hr as [Hr Hkeep]. apply andb_true_iff in Hkeep as [Hi Hc].
    apply negb_true_iff, Nat.eqb_neq in Hi. apply negb_true_iff in Hc.
    destruct (Hresp r Hr) as [Hinv Hlog]. split; [now apply key_survives|].
    apply in_map_iff in Hlog as (row & Hrowid & Hrow).
    apply in_map_iff. exists row. split; [exact Hrowid|].
    apply filter_In. split; [exact Hrow|].
    destruct (Nat.eqb (CommunicationLog.investor row) pk) eqn:E; [|reflexivity].
    exfalso. assert (Hex : existsb (fun row0 => Nat.eqb (CommunicationLog.id row0)
                                       (ResponseFunding.communication r))
                             (filter (fun row0 => Nat.eqb
                                        (CommunicationLog.investor row0) pk)
                                     (logs (store_of s))) = true).
    { apply existsb_exists. exists row. split.
      - apply filter_In. now split.
      - apply Nat.eqb_eq. exact Hrowid. }
    rewrite Hex in Hc. discriminate Hc.
Qed.

(** X16.  A POST to the delete page of an investor on file removes that
    investor, the log rows of the e-mails sent to that investor, and the
    responses recorded for that investor or for one of those e-mails; it
    removes nothing else, leaves the drafts and the artifacts as they
    were, and leaves no row pointing at a row that is gone. *)
Theorem investor_delete_cascades
  (req : request) (pk : nat) (s : site) (u : User.t) (inv : Investor.t) :
  user req = Some u -> method req = "POST" ->
  filter (fun i => Nat.eqb (Investor.id i) pk) (investors (store_of s)) = [inv] ->
  let s' := fst (investor_delete req pk s) in
  snd (investor_delete req pk s)
  = Ok (Redirect "investor_list"
          (Some ("Investor " ++ Views.dq ++ Investor.name inv ++ Views.dq
                 ++ " deleted successfully!")))
  /\ (forall i, In i (investors (store_of s'))
                <-> In i (investors (store_of s)) /\ Investor.id i <> pk)
  /\ (forall row, In row (logs (store_of s'))
                  <-> In row (logs (store_of s))
                      /\ CommunicationLog.investor row <> pk)
  /\ (forall r, In r (responses s')
                <-> In r (responses s)
                    /\ ResponseFunding.investor r <> pk
                    /\ ~ (exists row, In row (logs (store_of s))
                                      /\ CommunicationLog.investor row = pk
                                      /\ CommunicationLog.id row
                                         = ResponseFunding.communication r))
  /\ artifacts (store_of s') = artifacts (store_of s)
  /\ drafts (store_of s') = drafts (store_of s)
  /\ (site_ok s -> site_ok s').
Proof.
  intros Hu Hm Hget s'.
  destruct (get_by_key Investor.id pk _ inv Hget) as (Hobj & Hpk & _).
  assert (Hrun : investor_delete req pk s
                 = (delete_investor pk s,
                    Ok (Redirect "investor_list"
                          (Some ("Investor " ++ Views.dq ++ Investor.name inv
                                 ++ Views.dq ++ " deleted successfully!"))))).
  { unfold investor_delete, login_required. now rewrite Hu, Hobj, Hm, Hpk. }
  subst s'. rewrite Hrun. simpl fst. simpl snd.
  split; [reflexivity|]. split; [|split; [|split]].
  - intros i. simpl. rewrite filter_In, negb_true_iff, Nat.eqb_neq. tauto.
  - intros row. simpl. rewrite filter_In, negb_true_iff, Nat.eqb_neq. tauto.
  - intros r. simpl. rewrite filter_In, andb_true_iff, !negb_true_iff, Nat.eqb_neq.
    split; intros (Hr & Hi & Hc); (split; [exact Hr|]); (split; [exact Hi|]).
    + intros (row & Hrow & Hinv & Hid).
      assert (Hex : existsb (fun row0 => Nat.eqb (CommunicationLog.id row0)
                                (ResponseFunding.communication r))
                      (filter (fun row0 => Nat.eqb (CommunicationLog.investor row0) pk)
                              (logs (store_of s))) = true).
      { apply existsb_exists. exists row. split.
        - apply filter_In. split; [exact Hrow | now apply Nat.eqb_eq].
        - now apply Nat.eqb_eq. }
      rewrite Hex in Hc. discriminate Hc.
    + destruct (existsb _ _) eqn:Hex; [|reflexivity].
      exfalso. apply Hc. apply existsb_exists in Hex as (row & Hrow & Hid).
      apply filter_In in Hrow as [Hrow Hinv].
      exists row. split; [exact Hrow|]. split; now apply Nat.eqb_eq.
  - split; [reflexivity|]. split; [reflexivity|]. apply site_ok_delete_investor.
Qed.

Ltac all_distinct :=
  repeat (apply NoDup_cons; [simpl; intuition (discriminate || lia)|]);
  apply NoDup_nil.

Ltac all_bounded :=
  repeat (apply Forall_cons; [simpl; lia|]); apply Forall_nil.

Ltac all_on_file :=
  repeat (apply Forall_cons;
          [split; [simpl; intuition congruence
                  | try (intros ? H; inversion H; subst); simpl;
                    intuition congruence]|]);
  apply Forall_nil.

Ltac site_ok_by_running :=
  unfold site_ok, store_ok; simpl;
  split; [split; [all_distinct|]; split; [all_bounded|]; split; [all_distinct|];
          split; [all_distinct|]; split; [all_bounded | all_on_file]
         | all_on_file].

Lemma investor_delete_cascades_witness :
  site_ok (fst (investor_delete post_form 1 busy_site))
  /\ logs (store_of (fst (investor_delete post_form 1 busy_site))) = [log_angel]
  /\ responses (fst (investor_delete post_form 1 busy_site)) = [].
Proof.
  split; [|split; reflexivity].
  apply (investor_delete_cascades post_form 1 busy_site Demo.alice Demo.ravi
           eq_refl eq_refl eq_refl).
  site_ok_by_running.
Defined.

Lemma site_ok_delete_draft (pk : nat) (s : site) :
  site_ok s -> site_ok (delete_draft pk s).
Proof.
  intros [(Hid & Hseq & Hmail & Hlid & Hlseq & Href) Hresp].
  assert (Hids : forall rows,
             map CommunicationLog.id
               (map (fun row =>
                       match CommunicationLog.draft row with
                       | Some d =>
                           if Nat.eqb d pk then
                             {| CommunicationLog.id := CommunicationLog.id row;
                                CommunicationLog.investor := CommunicationLog.investor row;
                                CommunicationLog.draft := None;
                                CommunicationLog.status := CommunicationLog.status row;
                                CommunicationLog.sent_by := CommunicationLog.sent_by row;
                                CommunicationLog.notes := CommunicationLog.notes row |}
                           else row
                       | None => row
                       end) rows)
             = map CommunicationLog.id rows).
  { intros rows. rewrite map_map. apply map_ext. intros row.
    destruct (CommunicationLog.draft row) as [d|]; [|reflexivity].
    now destruct (Nat.eqb d pk). }
  unfold site_ok, store_ok, delete_draft. simpl. rewrite Hids.
  split; [repeat split; auto|exact Hresp].
  - rewrite Forall_forall in *. intros row' Hrow'.
    apply in_map_iff in Hrow' as (row & <- & Hrow). specialize (Hlseq row Hrow).
    destruct (CommunicationLog.draft row) as [d|]; [|exact Hlseq].
    now destruct (Nat.eqb d pk).
  - rewrite Forall_forall in *. intros row' Hrow'.
    apply in_map_iff in Hrow' as (row & <- & Hrow).
    destruct (Href row Hrow) as [Hinv Hdraft].
    destruct (CommunicationLog.draft row) as [d|] eqn:Ed.
    + destruct (Nat.eqb d pk) eqn:E; simpl.
      * split; [exact Hinv | discriminate].
      * rewrite Ed. split; [exact Hinv|]. intros d' Hd'. inversion Hd'; subst d'.
        apply key_survives; [now apply Hdraft | now apply Nat.eqb_neq].
    + rewrite Ed. split; [exact Hinv | discriminate].
Qed.

(** X17.  A POST to the delete page of a draft on file removes the draft
    and keeps every log row: the rows that used the draft stay, with
    their investor, status, sender and notes, and without draft; the
    other rows stay as they are.  No row is left pointing at a row that
    is gone. *)
Theorem draft_delete_keeps_the_logs
  (req : request) (pk : nat) (s : site) (u : User.t) (draft : EmailDraft.t) :
  user req = Some u -> method req = "POST" ->
  filter (fun d => Nat.eqb (EmailDraft.id d) pk) (drafts (store_of s)) = [draft] ->
  let s' := fst (draft_delete req pk s) in
  snd (draft_delete req pk s)
  = Ok (Redirect "draft_list"
          (Some ("Draft " ++ Views.dq ++ EmailDraft.name draft ++ Views.dq
                 ++ " deleted successfully!")))
  /\ (forall d, In d (drafts (store_of s'))
                <-> In d (drafts (store_of s)) /\ EmailDraft.id d <> pk)
  /\ map CommunicationLog.id (logs (store_of s'))
     = map CommunicationLog.id (logs (store_of s))
  /\ map CommunicationLog.investor (logs (store_of s'))
     = map CommunicationLog.investor (logs (store_of s))
  /\ map CommunicationLog.status (logs (store_of s'))
     = map CommunicationLog.status (logs (store_of s))
  /\ map CommunicationLog.sent_by (logs (store_of s'))
     = map CommunicationLog.sent_by (logs (store_of s))
  /\ map CommunicationLog.notes (logs (store_of s'))
     = map CommunicationLog.notes (logs (store_of s))
  /\ map CommunicationLog.draft (logs (store_of s'))
     = map (fun row => match CommunicationLog.draft row with
                       | Some d => if Nat.eqb d pk then None else Some d
                       | None => None
                       end) (logs (store_of s))
  /\ investors (store_of s') = investors (store_of s)
  /\ artifacts (store_of s') = artifacts (store_of s)
  /\ responses s' = responses s
  /\ (site_ok s -> site_ok s').
Proof.
  intros Hu Hm Hget s'.
  destruct (get_by_key EmailDraft.id pk _ draft Hget) as (Hobj & Hpk & _).
  assert (Hrun : draft_delete req pk s
                 = (delete_draft pk s,
                    Ok (Redirect "draft_list"
                          (Some ("Draft " ++ Views.dq ++ EmailDraft.name draft
                                 ++ Views.dq ++ " deleted successfully!"))))).
  { unfold draft_delete, login_required. now rewrite Hu, Hobj, Hm, Hpk. }
  subst s'. rewrite Hrun. simpl fst. simpl snd.
  split; [reflexivity|]. split.
  { intros d. simpl. rewrite filter_In, negb_true_iff, Nat.eqb_neq. tauto. }
  simpl. rewrite !map_map.
  repeat (split; [first [reflexivity
                        | apply map_ext; intros row; cbv beta;
                          destruct (CommunicationLog.draft row) as [d|] eqn:E;
                          [destruct (Nat.eqb d pk); simpl; try rewrite E;
                           reflexivity
                          | simpl; try rewrite E; reflexivity]]|]).
  apply site_ok_delete_draft.
Qed.

Lemma draft_delete_keeps_the_logs_witness :
  site_ok (fst (draft_delete post_form 1 busy_site))
  /\ map CommunicationLog.draft
         (logs (store_of (fst (draft_delete post_form 1 busy_site))))
     = [Some 2; None].
Proof.
  split; [|reflexivity].
  apply (draft_delete_keeps_the_logs post_form 1 busy_site Demo.alice
           Demo.pitchdeck eq_refl eq_refl eq_refl).
  site_ok_by_running.
Defined.

Lemma existsb_without (n pk : nat) (l : list nat) :
  n <> pk ->
  existsb (Nat.eqb n) (filter (fun x => negb (Nat.eqb x pk)) l)
  = existsb (Nat.eqb n) l.
Proof.
  intros Hne. induction l as [|x l IH]; simpl; [reflexivity|].
  destruct (Nat.eqb_spec x pk) as [->|Hx]; simpl.
  - rewrite IH. apply Nat.eqb_neq in Hne. now rewrite Hne.
  - now rewrite IH.
Qed.

Lemma artifacts_of_detached (pk : nat) (d d' : EmailDraft.t)
  (rows : list Artifact.t) :
  EmailDraft.artifacts d'
  = filter (fun x => negb (Nat.eqb x pk)) (EmailDraft.artifacts d) ->
  artifacts_of d' (filter (fun a => negb (Nat.eqb (Artifact.id a) pk)) rows)
  = filter (fun a => negb (Nat.eqb (Artifact.id a) pk)) (artifacts_of d rows).
Proof.
  intros Hd. unfold artifacts_of. rewrite Hd.
  induction rows as [|a rows IH]; simpl; [reflexivity|].
  destruct (Nat.eqb_spec (Artifact.id a) pk) as [E|Hne]; simpl.
  - rewrite IH. destruct (existsb _ (EmailDraft.artifacts d)); simpl;
      [|reflexivity]. apply Nat.eqb_eq in E. now rewrite E.
  - rewrite (existsb_without _ _ _ Hne), IH.
    destruct (existsb _ (EmailDraft.artifacts d)); simpl; [|reflexivity].
    apply Nat.eqb_neq in Hne. now rewrite Hne.
Qed.

Lemma site_ok_delete_artifact (pk : nat) (s : site) :
  site_ok s -> site_ok (delete_artifact pk s).
Proof.
  intros [(Hid & Hseq & Hmail & Hlid & Hlseq & Href) Hresp].
  unfold site_ok, store_ok, delete_artifact. simpl.
  split; [repeat split; auto|exact Hresp].
  rewrite map_map. simpl. exact Href.
Qed.

(** X18.  A POST to the delete page of an artifact on file removes the
    artifact and takes it off every draft it was attached to; the drafts
    keep their name, subject and body, and what [draft.artifacts.all()]
    yields for a draft is what it yielded before without that artifact,
    so the e-mails of the draft go out with their other attachments. *)
Theorem artifact_delete_detaches
  (req : request) (pk : nat) (s : site) (u : User.t) (artifact : Artifact.t) :
  user req = Some u -> method req = "POST" ->
  filter (fun a => Nat.eqb (Artifact.id a) pk) (artifacts (store_of s))
  = [artifact] ->
  let s' := fst (artifact_delete req pk s) in
  snd (artifact_delete req pk s)
  = Ok (Redirect "artifact_list"
          (Some ("Artifact " ++ Views.dq ++ Artifact.name artifact ++ Views.dq
                 ++ " deleted successfully!")))
  /\ (forall a, In a (artifacts (store_of s'))
                <-> In a (artifacts (store_of s)) /\ Artifact.id a <> pk)
  /\ (forall d, In d (drafts (store_of s)) ->
        exists d',
          In d' (drafts (store_of s'))
          /\ EmailDraft.id d' = EmailDraft.id d
          /\ EmailDraft.name d' = EmailDraft.name d
          /\ EmailDraft.subject d' = EmailDraft.subject d
          /\ EmailDraft.body d' = EmailDraft.body d
          /\ ~ In pk (EmailDraft.artifacts d')
          /\ artifacts_of d' (artifacts (store_of s'))
             = filter (fun a => negb (Nat.eqb (Artifact.id a) pk))
                      (artifacts_of d (artifacts (store_of s))))
  /\ List.length (drafts (store_of s')) = List.length (drafts (store_of s))
  /\ investors (store_of s') = investors (store_of s)
  /\ logs (store_of s') = logs (store_of s)
  /\ responses s' = responses s
  /\ (site_ok s -> site_ok s').
Proof.
  intros Hu Hm Hget s'.
  destruct (get_by_key Artifact.id pk _ artifact Hget) as (Hobj & Hpk & _).
  assert (Hrun : artifact_delete req pk s
                 = (delete_artifact pk s,
                    Ok (Redirect "artifact_list"
                          (Some ("Artifact " ++ Views.dq ++ Artifact.name artifact
                                 ++ Views.dq ++ " deleted successfully!"))))).
  { unfold artifact_delete, login_required. now rewrite Hu, Hobj, Hm, Hpk. }
  subst s'. rewrite Hrun. simpl fst. simpl snd.
  split; [reflexivity|]. split.
  { intros a. simpl. rewrite filter_In, negb_true_iff, Nat.eqb_neq. tauto. }
  split.
  { intros d Hd. eexists. split.
    - simpl. apply in_map_iff. exists d. split; [reflexivity | exact Hd].
    - simpl. repeat (split; [reflexivity|]). split.
      + intros Hin. apply filter_In in Hin as [_ Hne].
        now rewrite Nat.eqb_refl in Hne.
      + now apply artifacts_of_detached. }
  simpl. rewrite length_map.
  repeat (split; [reflexivity|]). apply site_ok_delete_artifact.
Qed.

Lemma artifact_delete_detaches_witness :
  site_ok (fst (artifact_delete post_form 1 busy_site))
  /\ map EmailDraft.artifacts
         (drafts (store_of (fst (artifact_delete post_form 1 busy_site))))
     = [[]; []].
Proof.
  split; [|reflexivity].
  apply (artifact_delete_detaches post_form 1 busy_site Demo.alice Demo.deck
           eq_refl eq_refl eq_refl).
  site_ok_by_running.
Defined.

(** X19.  The three delete pages delete on a POST only.  Any other
    request for a row on file shows the confirmation page for that row,
    a request for a primary key that is not on file raises Http404, and
    an anonymous visitor is sent to the login page; in all these cases
    the site stays as it was. *)
Theorem delete_pages_ask_first (req : request) (pk : nat) (s : site) (u : User.t) :
  (user req = None ->
   investor_delete req pk s = (s, Ok (Redirect "login" None))
   /\ artifact_delete req pk s = (s, Ok (Redirect "login" None))
   /\ draft_delete req pk s = (s, Ok (Redirect "login" None)))
  /\ (user req = Some u ->
      (filter (fun i => Nat.eqb (Investor.id i) pk) (investors (store_of s)) = [] ->
       investor_delete req pk s = (s, Fail Http404))
      /\ (filter (fun a => Nat.eqb (Artifact.id a) pk) (artifacts (store_of s)) = [] ->
          artifact_delete req pk s = (s, Fail Http404))
      /\ (filter (fun d => Nat.eqb (EmailDraft.id d) pk) (drafts (store_of s)) = [] ->
          draft_delete req pk s = (s, Fail Http404))
      /\ (method req <> "POST" ->
          (forall inv,
              filter (fun i => Nat.eqb (Investor.id i) pk) (investors (store_of s))
              = [inv] ->
              investor_delete req pk s
              = (s, Ok (Render "core/confirm_delete.html" (ConfirmInvestor inv))))
          /\ (forall artifact,
                 filter (fun a => Nat.eqb (Artifact.id a) pk) (artifacts (store_of s))
                 = [artifact] ->
                 artifact_delete req pk s
                 = (s, Ok (Render "core/confirm_delete.html"
                                  (ConfirmArtifact artifact))))
          /\ (forall draft,
                 filter (fun d => Nat.eqb (EmailDraft.id d) pk) (drafts (store_of s))
                 = [draft] ->
                 draft_delete req pk s
                 = (s, Ok (Render "core/confirm_delete.html"
                                  (ConfirmDraft draft)))))).
Proof.
  unfold investor_delete, artifact_delete, draft_delete, login_required.
  split.
  - intros ->. repeat split.
  - intros ->. unfold get_object_or_404, get.
    split; [now intros ->|]. split; [now intros ->|]. split; [now intros ->|].
    intros Hm. apply String.eqb_neq in Hm. rewrite Hm.
    split; [|split]; intros x ->; reflexivity.
Qed.

Lemma delete_pages_ask_first_witness :
  investor_delete (get_page None) 1 busy_site
  = (busy_site, Ok (Render "core/confirm_delete.html" (ConfirmInvestor Demo.ravi)))
  /\ draft_delete post_form 9 busy_site = (busy_site, Fail Http404).
Proof.
  destruct (proj2 (delete_pages_ask_first (get_page None) 1 busy_site Demo.alice)
              eq_refl) as (_ & _ & _ & Hget).
  destruct (proj2 (delete_pages_ask_first post_form 9 busy_site Demo.alice)
              eq_refl) as (_ & _ & Hmissing & _).
  split.
  - apply Hget; [discriminate | reflexivity].
  - apply Hmissing. reflexivity.
Defined.

End DeletePages.

(** ** The e-mail figures of the dashboard *)

Section Dashboard.
Import Orm Views.

Lemma length_filter_cons {A : Type} (p : A -> bool) (a : A) (l : list A) :
  List.length (filter p (a :: l))
  = (if p a then 1 else 0) + List.length (filter p l).
Proof. simpl. now destruct (p a). Qed.

(** X20.  On the dashboard every successful e-mail is counted in exactly
    one of the four ages: the numbers of the last 7 days, of the 8 days
    before, of the 15 days before those, and of the older e-mails add up
    to the number of e-mails sent, whatever the time stamps and the
    current time. *)
Theorem email_ages_add_up (now : Z) (sent_at : CommunicationLog.t -> Z) (s : site) :
  let f := dashboard_emails now sent_at s in
  total_emails_sent f
  = emails_7_days f + emails_15_days f + emails_30_days f + emails_older f
  /\ total_emails_sent f <= List.length (logs (store_of s)).
Proof.
  unfold dashboard_emails. cbv zeta. cbn [total_emails_sent emails_7_days
    emails_15_days emails_30_days emails_older].
  induction (logs (store_of s)) as [|row rows [IH IHle]]; [split; reflexivity|].
  rewrite !length_filter_cons. rewrite IH at 1. unfold days. split.
  - destruct (successful row); rewrite ?andb_false_r, ?andb_true_r; [|lia].
    destruct (Z.leb_spec (now - 7 * 86400000000) (sent_at row)),
             (Z.leb_spec (now - 15 * 86400000000) (sent_at row)),
             (Z.leb_spec (now - 30 * 86400000000) (sent_at row)),
             (Z.ltb_spec (sent_at row) (now - 7 * 86400000000)),
             (Z.ltb_spec (sent_at row) (now - 15 * 86400000000)),
             (Z.ltb_spec (sent_at row) (now - 30 * 86400000000));
      simpl; lia.
  - simpl List.length. destruct (successful row); lia.
Qed.

End Dashboard.

(** ** Two sends to one address, and a query the model answers *)

Section Composition.
Import Text Re Orm World EmailService ChatbotService.

Lemma second_lookup (email_address name updated_by : string) (st : store)
  (row : CommunicationLog.t) :
  filter (has_email email_address) (investors st) = [] ->
  filter (has_email email_address)
         (investors (add_log row
                       (add_investor
                          (new_investor (S (investor_seq st)) email_address
                                        name updated_by) st)))
  = [new_investor (S (investor_seq st)) email_address name updated_by].
Proof.
  intros Hnone. simpl. unfold has_email at 1. simpl.
  now rewrite String.eqb_refl, Hnone.
Qed.

(** X21.  Two send-email commands in a row to an address that was not on
    file create one investor, not two: the first creates the investor
    whether or not its e-mail goes out, the second finds it, and each
    leaves its own log row for that investor. *)
Theorem second_send_finds_the_investor
  (e : env) (self : ChatbotService.t) (st : store)
  (email_address draft_name : string) (draft : EmailDraft.t) :
  filter (has_email email_address) (investors st) = [] ->
  get (named draft_name) (drafts st) = Return draft ->
  let first := _handle_send_email e self email_address draft_name st in
  let second := _handle_send_email e self email_address draft_name (fst first) in
  exists inv row1 row2 r1 r2,
    snd first = Return r1 /\ snd second = Return r2
    /\ investors (fst first) = inv :: investors st
    /\ investors (fst second) = inv :: investors st
    /\ Investor.email inv = email_address
    /\ logs (fst second) = row2 :: row1 :: logs st
    /\ CommunicationLog.investor row1 = Investor.id inv
    /\ CommunicationLog.investor row2 = Investor.id inv
    /\ CommunicationLog.id row2 = S (CommunicationLog.id row1).
Proof.
  intros Hnone Hdraft first second. subst second first.
  rewrite (run_handle_send_email e self email_address draft_name st).
  rewrite Hdraft, run_get_or_create, Hnone. cbv beta iota zeta.
  rewrite run_send_draft_email.
  destruct (EmailService.try_send e _ _ _) as [|err1]; cbn [fst snd];
    rewrite run_handle_send_email;
    (replace (drafts (add_log _ (add_investor _ st))) with (drafts st)
      by reflexivity);
    rewrite Hdraft, run_get_or_create, (second_lookup _ _ _ _ _ Hnone);
    rewrite run_send_draft_email;
    destruct (EmailService.try_send e _ _ _) as [|err2]; cbn [fst snd];
    eexists _, _, _, _, _; repeat split.
Qed.

Lemma second_send_finds_the_investor_witness :
  List.length
    (investors
       (fst (_handle_send_email Demo.refusing (init Demo.refusing None)
               "jane@x.com" "intro"
               (fst (_handle_send_email Demo.refusing (init Demo.refusing None)
                       "jane@x.com" "intro" Demo.db)))))
  = 3.
Proof.
  destruct (second_send_finds_the_investor Demo.refusing
              (init Demo.refusing None) Demo.db "jane@x.com" "intro" Demo.intro
              eq_refl eq_refl)
    as (inv & row1 & row2 & r1 & r2 & _ & _ & _ & H & _).
  now rewrite H.
Defined.

Lemma prompt_shows_context (n1 n2 n3 n4 : nat) (msg : string) :
  contains ("- Total Investors: " ++ str_of_nat n1 ++ nl)
           (context_prompt n1 n2 n3 n4 msg) = true
  /\ contains ("- Emails Sent: " ++ str_of_nat n4 ++ nl)
              (context_prompt n1 n2 n3 n4 msg) = true
  /\ contains ("User's question: " ++ msg ++ nl)
              (context_prompt n1 n2 n3 n4 msg) = true.
Proof.
  unfold context_prompt, nl, dq.
  generalize (str_of_nat n1), (str_of_nat n2), (str_of_nat n3), (str_of_nat n4).
  intros x1 x2 x3 x4. repeat split.
  - simpl. rewrite starts_with_same_prefix. reflexivity.
  - simpl. do 3 (apply contains_skip; simpl).
    rewrite starts_with_same_prefix. reflexivity.
  - simpl. do 4 (apply contains_skip; simpl).
    rewrite starts_with_same_prefix. reflexivity.
Qed.

(** X22.  For a message neither command pattern matches, when the model
    answers, [process_message] returns the answer as a response of kind
    [ai_response] and leaves the datastore as it was.  The prompt the
    model is given holds the trimmed message and the figures of the
    datastore; its "Emails Sent" figure is the number of all log rows,
    those of failed sends included. *)
Theorem generic_query_asks_the_model
  (e : env) (self : ChatbotService.t) (raw : string) (st : store)
  (model : string -> completion) (text : string) :
  search SEND_EMAIL_PATTERN (strip raw) = None ->
  search SEARCH_PATTERN (strip raw) = None ->
  gemini_model self = Some model ->
  let prompt :=
    context_prompt (List.length (investors st)) (List.length (artifacts st))
                   (List.length (drafts st)) (List.length (logs st)) (strip raw) in
  model prompt = Text text ->
  process_message e self raw st
  = (st, Return {| type := "ai_response"; message := "🤖 " ++ text; data := None |})
  /\ contains ("User's question: " ++ strip raw ++ nl) prompt = true
  /\ contains ("- Total Investors: " ++ str_of_nat (List.length (investors st)) ++ nl)
              prompt = true
  /\ contains ("- Emails Sent: " ++ str_of_nat (List.length (logs st)) ++ nl)
              prompt = true.
Proof.
  intros Hsend Hsearch Hmodel prompt Hanswer. subst prompt.
  destruct (prompt_shows_context (List.length (investors st))
              (List.length (artifacts st)) (List.length (drafts st))
              (List.length (logs st)) (strip raw)) as (H1 & H4 & Hq).
  split; [|now repeat split].
  unfold process_message. cbv zeta. rewrite Hsend, Hsearch.
  now rewrite run_handle_generic_query, Hmodel, Hanswer.
Qed.

Lemma generic_query_asks_the_model_witness :
  process_message Demo.delivering
    {| user := None;
       gemini_model := Some (fun prompt =>
                               if contains "- Emails Sent: 0" prompt
                               then Text "Nothing sent yet."
                               else BackendError "unexpected") |}
    " any news? " Demo.db
  = (Demo.db, Return {| type := "ai_response";
                        message := "🤖 Nothing sent yet."; data := None |}).
Proof.
  apply (generic_query_asks_the_model Demo.delivering _ " any news? " Demo.db
           (fun prompt => if contains "- Emails Sent: 0" prompt
                          then Text "Nothing sent yet."
                          else BackendError "unexpected") "Nothing sent yet.").
  - vm_compute. reflexivity.
  - vm_compute. reflexivity.
  - reflexivity.
  - vm_compute. reflexivity.
Defined.

End Composition.
